(** * Nelder-Mead simplex minimiser (src/src/nm.h, src/src/nm.cpp)

    A shallow embedding of the [NelderMead] class: the object is a record,
    every method is a state-passing function, every indexing of a
    [std::vector] is checked, and the loops run on fuel because their
    [uint32_t] counters wrap around. *)

From Stdlib Require Import ZArith List Lia Bool QArith Qround Lqa.
From Stdlib Require Import Floats.PrimFloat Floats.SpecFloat Floats.FloatOps Floats.FloatAxioms.
From Stdlib Require Import Numbers.Cyclic.Int63.Uint63.
From stdpp Require Import base list.

Local Open Scope Z_scope.

(** ** Machine integers *)

(** [uint32_t] arithmetic: every result is reduced modulo 2^32. *)
Definition u32 (z : Z) : Z := z mod 2 ^ 32.

(** ** Results of running the code *)

(** Indexing a vector outside its size is undefined behaviour in C++; the
    model stops with [OutOfBounds].  [OutOfFuel] says that the model was
    given too few steps, which is how a loop that never ends shows up. *)
Inductive outcome (A : Type) : Type :=
| Ok (a : A)
| OutOfBounds
| OutOfFuel.

Arguments Ok {A} a.
Arguments OutOfBounds {A}.
Arguments OutOfFuel {A}.

Definition bind {A B : Type} (m : outcome A) (k : A -> outcome B) : outcome B :=
  match m with
  | Ok a => k a
  | OutOfBounds => OutOfBounds
  | OutOfFuel => OutOfFuel
  end.

Notation "x <- m ;; k" := (bind m (fun x => k))
  (at level 100, m at next level, right associativity).

Definition outcome_map {A B : Type} (g : A -> B) (m : outcome A) : outcome B :=
  match m with
  | Ok a => Ok (g a)
  | OutOfBounds => OutOfBounds
  | OutOfFuel => OutOfFuel
  end.

(** [l[i]] as an rvalue and [l[i] = a] on a [std::vector]. *)
Definition at_ {A : Type} (l : list A) (i : Z) : outcome A :=
  match l !! Z.to_nat i with
  | Some a => Ok a
  | None => OutOfBounds
  end.

Definition put {A : Type} (l : list A) (i : Z) (a : A) : outcome (list A) :=
  if (Z.to_nat i <? length l)%nat then Ok (<[Z.to_nat i := a]> l) else OutOfBounds.

(** [l[i][j]] and [l[i][j] = a] on a vector of vectors. *)
Definition at2 {A : Type} (l : list (list A)) (i j : Z) : outcome A :=
  row <- at_ l i ;; at_ row j.

Definition put2 {A : Type} (l : list (list A)) (i j : Z) (a : A) : outcome (list (list A)) :=
  row <- at_ l i ;;
  row' <- put row j a ;;
  put l i row'.

(** [for (uint32_t j = j0; cond(j); j++) body]: the counter wraps around, so
    the loop is not structurally terminating and runs on fuel. *)
Fixpoint for_loop {A : Type} (fuel : nat) (cond : Z -> bool)
    (body : Z -> A -> outcome A) (j : Z) (a : A) : outcome A :=
  match fuel with
  | O => OutOfFuel
  | S fuel' =>
      if cond j then a' <- body j a ;; for_loop fuel' cond body (u32 (j + 1)) a'
      else Ok a
  end.

(** ** Double-precision arithmetic

    The operations of [double] that the code uses.  The program itself is the
    instance [binary64] below; the interface lets the theorems that only
    depend on control flow hold for every arithmetic. *)
Class DoubleOps (D : Type) : Type := {
  dof : Z -> D;              (* conversion of an int or uint32_t; literals 0.0, 2.0 *)
  dadd : D -> D -> D;
  dsub : D -> D -> D;
  dmul : D -> D -> D;
  ddiv : D -> D -> D;
  dsqrt : D -> D;
  dpow : D -> D -> D;
  dlt : D -> D -> bool;      (* x < y *)
  dle : D -> D -> bool       (* x <= y *)
}.

Declare Scope double_scope.
Delimit Scope double_scope with D.
Infix "+" := dadd : double_scope.
Infix "-" := dsub : double_scope.
Infix "*" := dmul : double_scope.
Infix "/" := ddiv : double_scope.
Notation "x <? y" := (dlt x y) : double_scope.
Notation "x >? y" := (dlt y x) : double_scope.
Notation "x >=? y" := (dle y x) : double_scope.
Notation "x <=? y" := (dle x y) : double_scope.

(** IEEE 754 binary64 with round-to-nearest-even, which is what [double] is.
    [pow] is only ever called with the exponent [2.0]. *)
Definition binary64_pow (x y : float) : float :=
  if PrimFloat.eqb y 2%float then PrimFloat.mul x x else PrimFloat.nan.

#[export] Instance binary64 : DoubleOps float := {|
  dof := fun z => if z <? 0 then PrimFloat.opp (PrimFloat.of_uint63 (Uint63.of_Z (- z)))
                  else PrimFloat.of_uint63 (Uint63.of_Z z);
  dadd := PrimFloat.add;
  dsub := PrimFloat.sub;
  dmul := PrimFloat.mul;
  ddiv := PrimFloat.div;
  dsqrt := PrimFloat.sqrt;
  dpow := binary64_pow;
  dlt := PrimFloat.ltb;
  dle := PrimFloat.leb
|}.

(** Exact rational arithmetic: no rounding and no overflow.  The square root
    is truncated to an integer; no theorem depends on its value. *)
#[export] Instance rational : DoubleOps Q := {|
  dof := inject_Z;
  dadd := Qplus;
  dsub := Qminus;
  dmul := Qmult;
  ddiv := Qdiv;
  dsqrt := fun x => inject_Z (Z.sqrt (Qfloor x));
  dpow := fun x _ => Qmult x x;
  dlt := fun x y => negb (Qle_bool y x);
  dle := Qle_bool
|}.

(** ** The optimizer object *)

(** Ghost state: where [evalFunc] was called from, and which branch of an
    iteration ran.  The code has no such fields; they record the run so that
    claims about the number of calls and about the branches can be stated. *)
Inductive site : Type :=
| InitialEval | ReflectionEval | ExpansionEval | ContractionEval
| ShrinkEval | ShrinkWorstEval | ShrinkSecondEval | FinalEval.

Inductive branch : Type :=
| Reflection | AcceptReflection | Expansion | Contraction | Shrink.

Section Optimizer.
Context {D : Type} {ops : DoubleOps D}.

(** [struct NelderMeadResults]. *)
Record NelderMeadResults : Type := {
  iterationCount : Z;
  r_evalCount : Z;
  minValues : list D;
  r_min : D
}.

(** [class NelderMead]: configuration, construction-time values, buffers and
    the execution state, followed by the two ghost logs (most recent entry
    first). *)
Record NelderMead : Type := {
  configMaxIterations : Z;
  configReflectionCoefficient : D;
  configContractionCoefficient : D;
  configExpansionCoefficient : D;
  size : Z;
  evalFunc : list D -> D;
  constrainFunc : option (list D -> list D);
  v : list (list D);
  f : list D;
  vr : list D;
  ve : list D;
  vc : list D;
  vm : list D;
  evalCount : Z;
  vs : Z;
  vh : Z;
  vg : Z;
  lastExecResults : NelderMeadResults;
  evalLog : list site;
  branchLog : list branch
}.

(** The public setters of nm.h. *)
Definition setMaxIterations (inValue : Z) (s : NelderMead) : NelderMead :=
  {| configMaxIterations := u32 inValue;
     configReflectionCoefficient := configReflectionCoefficient s;
     configContractionCoefficient := configContractionCoefficient s;
     configExpansionCoefficient := configExpansionCoefficient s; size := size s;
     evalFunc := evalFunc s; constrainFunc := constrainFunc s; v := v s; f := f s;
     vr := vr s; ve := ve s; vc := vc s; vm := vm s; evalCount := evalCount s; vs := vs s;
     vh := vh s; vg := vg s; lastExecResults := lastExecResults s; evalLog := evalLog s;
     branchLog := branchLog s |}.

Definition setReflectionCoefficient (inValue : D) (s : NelderMead) : NelderMead :=
  {| configMaxIterations := configMaxIterations s; configReflectionCoefficient := inValue;
     configContractionCoefficient := configContractionCoefficient s;
     configExpansionCoefficient := configExpansionCoefficient s; size := size s;
     evalFunc := evalFunc s; constrainFunc := constrainFunc s; v := v s; f := f s;
     vr := vr s; ve := ve s; vc := vc s; vm := vm s; evalCount := evalCount s; vs := vs s;
     vh := vh s; vg := vg s; lastExecResults := lastExecResults s; evalLog := evalLog s;
     branchLog := branchLog s |}.

Definition setContractionCoefficient (inValue : D) (s : NelderMead) : NelderMead :=
  {| configMaxIterations := configMaxIterations s;
     configReflectionCoefficient := configReflectionCoefficient s;
     configContractionCoefficient := inValue;
     configExpansionCoefficient := configExpansionCoefficient s; size := size s;
     evalFunc := evalFunc s; constrainFunc := constrainFunc s; v := v s; f := f s;
     vr := vr s; ve := ve s; vc := vc s; vm := vm s; evalCount := evalCount s; vs := vs s;
     vh := vh s; vg := vg s; lastExecResults := lastExecResults s; evalLog := evalLog s;
     branchLog := branchLog s |}.

Definition setExpansionCoefficient (inValue : D) (s : NelderMead) : NelderMead :=
  {| configMaxIterations := configMaxIterations s;
     configReflectionCoefficient := configReflectionCoefficient s;
     configContractionCoefficient := configContractionCoefficient s;
     configExpansionCoefficient := inValue; size := size s; evalFunc := evalFunc s;
     constrainFunc := constrainFunc s; v := v s; f := f s; vr := vr s; ve := ve s;
     vc := vc s; vm := vm s; evalCount := evalCount s; vs := vs s; vh := vh s; vg := vg s;
     lastExecResults := lastExecResults s; evalLog := evalLog s;
     branchLog := branchLog s |}.

Definition set_v (x : list (list D)) (s : NelderMead) : NelderMead :=
  {| configMaxIterations := configMaxIterations s;
     configReflectionCoefficient := configReflectionCoefficient s;
     configContractionCoefficient := configContractionCoefficient s;
     configExpansionCoefficient := configExpansionCoefficient s; size := size s;
     evalFunc := evalFunc s; constrainFunc := constrainFunc s; v := x; f := f s;
     vr := vr s; ve := ve s; vc := vc s; vm := vm s; evalCount := evalCount s; vs := vs s;
     vh := vh s; vg := vg s; lastExecResults := lastExecResults s; evalLog := evalLog s;
     branchLog := branchLog s |}.

Definition set_f (x : list D) (s : NelderMead) : NelderMead :=
  {| configMaxIterations := configMaxIterations s;
     configReflectionCoefficient := configReflectionCoefficient s;
     configContractionCoefficient := configContractionCoefficient s;
     configExpansionCoefficient := configExpansionCoefficient s; size := size s;
     evalFunc := evalFunc s; constrainFunc := constrainFunc s; v := v s; f := x;
     vr := vr s; ve := ve s; vc := vc s; vm := vm s; evalCount := evalCount s; vs := vs s;
     vh := vh s; vg := vg s; lastExecResults := lastExecResults s; evalLog := evalLog s;
     branchLog := branchLog s |}.

Definition set_vr (x : list D) (s : NelderMead) : NelderMead :=
  {| configMaxIterations := configMaxIterations s;
     configReflectionCoefficient := configReflectionCoefficient s;
     configContractionCoefficient := configContractionCoefficient s;
     configExpansionCoefficient := configExpansionCoefficient s; size := size s;
     evalFunc := evalFunc s; constrainFunc := constrainFunc s; v := v s; f := f s; vr := x;
     ve := ve s; vc := vc s; vm := vm s; evalCount := evalCount s; vs := vs s; vh := vh s;
     vg := vg s; lastExecResults := lastExecResults s; evalLog := evalLog s;
     branchLog := branchLog s |}.

Definition set_ve (x : list D) (s : NelderMead) : NelderMead :=
  {| configMaxIterations := configMaxIterations s;
     configReflectionCoefficient := configReflectionCoefficient s;
     configContractionCoefficient := configContractionCoefficient s;
     configExpansionCoefficient := configExpansionCoefficient s; size := size s;
     evalFunc := evalFunc s; constrainFunc := constrainFunc s; v := v s; f := f s;
     vr := vr s; ve := x; vc := vc s; vm := vm s; evalCount := evalCount s; vs := vs s;
     vh := vh s; vg := vg s; lastExecResults := lastExecResults s; evalLog := evalLog s;
     branchLog := branchLog s |}.

Definition set_vc (x : list D) (s : NelderMead) : NelderMead :=
  {| configMaxIterations := configMaxIterations s;
     configReflectionCoefficient := configReflectionCoefficient s;
     configContractionCoefficient := configContractionCoefficient s;
     configExpansionCoefficient := configExpansionCoefficient s; size := size s;
     evalFunc := evalFunc s; constrainFunc := constrainFunc s; v := v s; f := f s;
     vr := vr s; ve := ve s; vc := x; vm := vm s; evalCount := evalCount s; vs := vs s;
     vh := vh s; vg := vg s; lastExecResults := lastExecResults s; evalLog := evalLog s;
     branchLog := branchLog s |}.

Definition set_vm (x : list D) (s : NelderMead) : NelderMead :=
  {| configMaxIterations := configMaxIterations s;
     configReflectionCoefficient := configReflectionCoefficient s;
     configContractionCoefficient := configContractionCoefficient s;
     configExpansionCoefficient := configExpansionCoefficient s; size := size s;
     evalFunc := evalFunc s; constrainFunc := constrainFunc s; v := v s; f := f s;
     vr := vr s; ve := ve s; vc := vc s; vm := x; evalCount := evalCount s; vs := vs s;
     vh := vh s; vg := vg s; lastExecResults := lastExecResults s; evalLog := evalLog s;
     branchLog := branchLog s |}.

Definition set_evalCount (x : Z) (s : NelderMead) : NelderMead :=
  {| configMaxIterations := configMaxIterations s;
     configReflectionCoefficient := configReflectionCoefficient s;
     configContractionCoefficient := configContractionCoefficient s;
     configExpansionCoefficient := configExpansionCoefficient s; size := size s;
     evalFunc := evalFunc s; constrainFunc := constrainFunc s; v := v s; f := f s;
     vr := vr s; ve := ve s; vc := vc s; vm := vm s; evalCount := x; vs := vs s;
     vh := vh s; vg := vg s; lastExecResults := lastExecResults s; evalLog := evalLog s;
     branchLog := branchLog s |}.

Definition set_vs (x : Z) (s : NelderMead) : NelderMead :=
  {| configMaxIterations := configMaxIterations s;
     configReflectionCoefficient := configReflectionCoefficient s;
     configContractionCoefficient := configContractionCoefficient s;
     configExpansionCoefficient := configExpansionCoefficient s; size := size s;
     evalFunc := evalFunc s; constrainFunc := constrainFunc s; v := v s; f := f s;
     vr := vr s; ve := ve s; vc := vc s; vm := vm s; evalCount := evalCount s; vs := x;
     vh := vh s; vg := vg s; lastExecResults := lastExecResults s; evalLog := evalLog s;
     branchLog := branchLog s |}.

Definition set_vh (x : Z) (s : NelderMead) : NelderMead :=
  {| configMaxIterations := configMaxIterations s;
     configReflectionCoefficient := configReflectionCoefficient s;
     configContractionCoefficient := configContractionCoefficient s;
     configExpansionCoefficient := configExpansionCoefficient s; size := size s;
     evalFunc := evalFunc s; constrainFunc := constrainFunc s; v := v s; f := f s;
     vr := vr s; ve := ve s; vc := vc s; vm := vm s; evalCount := evalCount s; vs := vs s;
     vh := x; vg := vg s; lastExecResults := lastExecResults s; evalLog := evalLog s;
     branchLog := branchLog s |}.

Definition set_vg (x : Z) (s : NelderMead) : NelderMead :=
  {| configMaxIterations := configMaxIterations s;
     configReflectionCoefficient := configReflectionCoefficient s;
     configContractionCoefficient := configContractionCoefficient s;
     configExpansionCoefficient := configExpansionCoefficient s; size := size s;
     evalFunc := evalFunc s; constrainFunc := constrainFunc s; v := v s; f := f s;
     vr := vr s; ve := ve s; vc := vc s; vm := vm s; evalCount := evalCount s; vs := vs s;
     vh := vh s; vg := x; lastExecResults := lastExecResults s; evalLog := evalLog s;
     branchLog := branchLog s |}.

Definition set_lastExecResults (x : NelderMeadResults) (s : NelderMead) : NelderMead :=
  {| configMaxIterations := configMaxIterations s;
     configReflectionCoefficient := configReflectionCoefficient s;
     configContractionCoefficient := configContractionCoefficient s;
     configExpansionCoefficient := configExpansionCoefficient s; size := size s;
     evalFunc := evalFunc s; constrainFunc := constrainFunc s; v := v s; f := f s;
     vr := vr s; ve := ve s; vc := vc s; vm := vm s; evalCount := evalCount s; vs := vs s;
     vh := vh s; vg := vg s; lastExecResults := x; evalLog := evalLog s;
     branchLog := branchLog s |}.

Definition set_evalLog (x : list site) (s : NelderMead) : NelderMead :=
  {| configMaxIterations := configMaxIterations s;
     configReflectionCoefficient := configReflectionCoefficient s;
     configContractionCoefficient := configContractionCoefficient s;
     configExpansionCoefficient := configExpansionCoefficient s; size := size s;
     evalFunc := evalFunc s; constrainFunc := constrainFunc s; v := v s; f := f s;
     vr := vr s; ve := ve s; vc := vc s; vm := vm s; evalCount := evalCount s; vs := vs s;
     vh := vh s; vg := vg s; lastExecResults := lastExecResults s; evalLog := x;
     branchLog := branchLog s |}.

Definition set_branchLog (x : list branch) (s : NelderMead) : NelderMead :=
  {| configMaxIterations := configMaxIterations s;
     configReflectionCoefficient := configReflectionCoefficient s;
     configContractionCoefficient := configContractionCoefficient s;
     configExpansionCoefficient := configExpansionCoefficient s; size := size s;
     evalFunc := evalFunc s; constrainFunc := constrainFunc s; v := v s; f := f s;
     vr := vr s; ve := ve s; vc := vc s; vm := vm s; evalCount := evalCount s; vs := vs s;
     vh := vh s; vg := vg s; lastExecResults := lastExecResults s; evalLog := evalLog s;
     branchLog := x |}.

Local Open Scope double_scope.

(** [doEvaluate] of nm.h: count the call, then call the objective. *)
Definition doEvaluate (from : site) (x : list D) (s : NelderMead) : D * NelderMead :=
  let s := set_evalCount (u32 (evalCount s + 1)%Z) s in
  let s := set_evalLog (from :: evalLog s) s in
  (evalFunc s x, s).

(** The constructor: [resize] value-initialises the new doubles to 0.0.
    [lastExecResults] is left indeterminate by the code; the model zeroes it. *)
Definition NelderMead_new (fuel : nat) (inSize : Z) (inEvalFunc : list D -> D)
    (inConstrainFunc : option (list D -> list D)) : outcome NelderMead :=
  let size := u32 inSize in
  let rows := replicate (Z.to_nat (u32 (size + 1)%Z)) ([] : list D) in
  rows <- for_loop fuel (fun i => (i <=? size)%Z)
            (fun i rows => _ <- at_ rows i ;; put rows i (replicate (Z.to_nat size) (dof 0)))
            0%Z rows ;;
  Ok {| configMaxIterations := 1000;
        configReflectionCoefficient := dof 1;
        configContractionCoefficient := dof 1 / dof 2;
        configExpansionCoefficient := dof 2;
        size := size;
        evalFunc := inEvalFunc;
        constrainFunc := inConstrainFunc;
        v := rows;
        f := replicate (Z.to_nat (u32 (size + 1)%Z)) (dof 0);
        vr := replicate (Z.to_nat size) (dof 0);
        ve := replicate (Z.to_nat size) (dof 0);
        vc := replicate (Z.to_nat size) (dof 0);
        vm := replicate (Z.to_nat size) (dof 0);
        evalCount := 0;
        vs := 0;
        vh := 0;
        vg := 0;
        lastExecResults :=
          {| iterationCount := 0; r_evalCount := 0; minValues := []; r_min := dof 0 |};
        evalLog := [];
        branchLog := [] |}.

(** [v[i][j] = x] and [constrainFunc(v[i])] on the simplex of the object. *)
Definition set_vertex_coord (i j : Z) (x : D) (s : NelderMead) : outcome NelderMead :=
  v' <- put2 (v s) i j x ;; Ok (set_v v' s).

Definition constrain_vertex (c : list D -> list D) (i : Z) (s : NelderMead)
    : outcome NelderMead :=
  row <- at_ (v s) i ;;
  v' <- put (v s) i (c row) ;;
  Ok (set_v v' s).

(** [doInitialize]: the counter, the role indices and the two ghost logs are
    reset, then the regular simplex is written over the old one. *)
Definition doInitialize (fuel : nat) (start : list D) (scale : D) (s : NelderMead)
    : outcome NelderMead :=
  let s := set_evalCount 0 s in
  let s := set_evalLog [] (set_branchLog [] s) in
  let s := set_vs 0 s in
  let s := set_vh 0 s in
  let s := set_vg 0 s in
  let pn := scale * (dsqrt (dof (u32 (size s + 1)%Z)) - dof 1 + dof (size s))
            / (dof (size s) * dsqrt (dof 2)) in
  let qn := scale * (dsqrt (dof (u32 (size s + 1)%Z)) - dof 1)
            / (dof (size s) * dsqrt (dof 2)) in
  s <- for_loop fuel (fun i => (i <? size s)%Z)
         (fun i s => x <- at_ start i ;; set_vertex_coord 0 i x s) 0%Z s ;;
  for_loop fuel (fun i => (i <=? size s)%Z)
    (fun i s =>
       for_loop fuel (fun j => (j <? size s)%Z)
         (fun j s =>
            x <- at_ start j ;;
            if (u32 (i - 1) =? j)%Z then set_vertex_coord i j (pn + x) s
            else set_vertex_coord i j (qn + x) s)
         0%Z s)
    1%Z s.

(** [doIndexes]: [vg] and [vs] start from the values they had before. *)
Definition doIndexes (fuel : nat) (s : NelderMead) : outcome NelderMead :=
  let s := set_vh (vs s) s in
  s <- for_loop fuel (fun j => (j <=? size s)%Z)
         (fun j s =>
            fj <- at_ (f s) j ;;
            fvg <- at_ (f s) (vg s) ;;
            let s := if fj >? fvg then set_vg j s else s in
            fj <- at_ (f s) j ;;
            fvs <- at_ (f s) (vs s) ;;
            Ok (if fj <? fvs then set_vs j s else s))
         0%Z s ;;
  let s := set_vh (vs s) s in
  for_loop fuel (fun j => (j <=? size s)%Z)
    (fun j s =>
       fj <- at_ (f s) j ;;
       fvh <- at_ (f s) (vh s) ;;
       if fj >? fvh then
         fj <- at_ (f s) j ;;
         fvg <- at_ (f s) (vg s) ;;
         Ok (if fj <? fvg then set_vh j s else s)
       else Ok s)
    0%Z s.

(** The centroid of all vertices but [vg], into [vm]. *)
Definition centroid (fuel : nat) (s : NelderMead) : outcome NelderMead :=
  for_loop fuel (fun j => (j <=? u32 (size s - 1))%Z)
    (fun j s =>
       cent <- for_loop fuel (fun m => (m <=? size s)%Z)
                 (fun m cent =>
                    if negb (m =? vg s)%Z then x <- at2 (v s) m j ;; Ok (cent + x)
                    else Ok cent)
                 0%Z (dof 0) ;;
       vm' <- put (vm s) j (cent / dof (size s)) ;;
       Ok (set_vm vm' s))
    0%Z s.

(** [vr[j] = vm[j] + configReflectionCoefficient * (vm[j] - v[vg][j])]. *)
Definition reflect (fuel : nat) (s : NelderMead) : outcome NelderMead :=
  for_loop fuel (fun j => (j <=? u32 (size s - 1))%Z)
    (fun j s =>
       a <- at_ (vm s) j ;;
       b <- at2 (v s) (vg s) j ;;
       vr' <- put (vr s) j (a + configReflectionCoefficient s * (a - b)) ;;
       Ok (set_vr vr' s))
    0%Z s.

(** [ve[j] = vm[j] + configExpansionCoefficient * (vr[j] - vm[j])]. *)
Definition expand (fuel : nat) (s : NelderMead) : outcome NelderMead :=
  for_loop fuel (fun j => (j <=? u32 (size s - 1))%Z)
    (fun j s =>
       a <- at_ (vm s) j ;;
       b <- at_ (vr s) j ;;
       ve' <- put (ve s) j (a + configExpansionCoefficient s * (b - a)) ;;
       Ok (set_ve ve' s))
    0%Z s.

(** Outside contraction:
    [vc[j] = vm[j] + configContractionCoefficient * (vr[j] - vm[j])]. *)
Definition contract_outside (fuel : nat) (s : NelderMead) : outcome NelderMead :=
  for_loop fuel (fun j => (j <=? u32 (size s - 1))%Z)
    (fun j s =>
       a <- at_ (vm s) j ;;
       b <- at_ (vr s) j ;;
       vc' <- put (vc s) j (a + configContractionCoefficient s * (b - a)) ;;
       Ok (set_vc vc' s))
    0%Z s.

(** Inside contraction:
    [vc[j] = vm[j] - configContractionCoefficient * (vm[j] - v[vg][j])]. *)
Definition contract_inside (fuel : nat) (s : NelderMead) : outcome NelderMead :=
  for_loop fuel (fun j => (j <=? u32 (size s - 1))%Z)
    (fun j s =>
       a <- at_ (vm s) j ;;
       b <- at2 (v s) (vg s) j ;;
       vc' <- put (vc s) j (a - configContractionCoefficient s * (a - b)) ;;
       Ok (set_vc vc' s))
    0%Z s.

(** [if (constrainFunc) constrainFunc(buf)] on a scratch buffer. *)
Definition constrain (buf : list D) (s : NelderMead) : list D :=
  match constrainFunc s with
  | Some c => c buf
  | None => buf
  end.

(** [for (j ...) v[vg][j] = src[j];  f[vg] = fx;] *)
Definition replace_worst (fuel : nat) (src : NelderMead -> list D) (fx : D)
    (s : NelderMead) : outcome NelderMead :=
  s <- for_loop fuel (fun j => (j <=? u32 (size s - 1))%Z)
         (fun j s => x <- at_ (src s) j ;; set_vertex_coord (vg s) j x s) 0%Z s ;;
  f' <- put (f s) (vg s) fx ;;
  Ok (set_f f' s).

(** [f[j] = doEvaluate(v[j])] for every vertex. *)
Definition evaluate_all (fuel : nat) (from : site) (s : NelderMead) : outcome NelderMead :=
  for_loop fuel (fun j => (j <=? size s)%Z)
    (fun j s =>
       row <- at_ (v s) j ;;
       let (y, s) := doEvaluate from row s in
       f' <- put (f s) j y ;;
       Ok (set_f f' s))
    0%Z s.

(** [if (constrainFunc != NULL) constrainFunc(v[i]);  f[i] = doEvaluate(v[i]);] *)
Definition reconstrain_vertex (from : site) (i : Z) (s : NelderMead) : outcome NelderMead :=
  s <- match constrainFunc s with
       | Some c => constrain_vertex c i s
       | None => Ok s
       end ;;
  row <- at_ (v s) i ;;
  let (y, s) := doEvaluate from row s in
  f' <- put (f s) i y ;;
  Ok (set_f f' s).

(** The shrink of lines 235-261: halve the distance to [v[vs]], re-evaluate
    every vertex, recompute the indices, then constrain and evaluate the new
    [vg] and [vh] once more. *)
Definition shrink (fuel : nat) (s : NelderMead) : outcome NelderMead :=
  let s := set_branchLog (Shrink :: branchLog s) s in
  s <- for_loop fuel (fun row => (row <=? size s)%Z)
         (fun row s =>
            if negb (row =? vs s)%Z then
              for_loop fuel (fun j => (j <=? u32 (size s - 1))%Z)
                (fun j s =>
                   a <- at2 (v s) (vs s) j ;;
                   b <- at2 (v s) row j ;;
                   set_vertex_coord row j (a + (b - a) / dof 2) s)
                0%Z s
            else Ok s)
         0%Z s ;;
  s <- evaluate_all fuel ShrinkEval s ;;
  s <- doIndexes fuel s ;;
  s <- reconstrain_vertex ShrinkWorstEval (vg s) s ;;
  reconstrain_vertex ShrinkSecondEval (vh s) s.

(** The three [if] statements of lines 172-263, in the order of the code.
    Each one reads the value table as the previous one left it. *)
Definition accept_reflection (fuel : nat) (fr : D) (s : NelderMead) : outcome NelderMead :=
  fvh <- at_ (f s) (vh s) ;;
  if fr <? fvh then
    fvs <- at_ (f s) (vs s) ;;
    if fr >=? fvs then
      replace_worst fuel vr fr (set_branchLog (AcceptReflection :: branchLog s) s)
    else Ok s
  else Ok s.

Definition expansion (fuel : nat) (fr : D) (s : NelderMead) : outcome NelderMead :=
  fvs <- at_ (f s) (vs s) ;;
  if fr <? fvs then
    let s := set_branchLog (Expansion :: branchLog s) s in
    s <- expand fuel s ;;
    let s := set_ve (constrain (ve s) s) s in
    let (fe, s) := doEvaluate ExpansionEval (ve s) s in
    if fe <? fr then replace_worst fuel ve fe s
    else replace_worst fuel vr fr s
  else Ok s.

Definition contraction (fuel : nat) (fr : D) (s : NelderMead) : outcome NelderMead :=
  fvh <- at_ (f s) (vh s) ;;
  if fr >=? fvh then
    let s := set_branchLog (Contraction :: branchLog s) s in
    fvg <- at_ (f s) (vg s) ;;
    outside <- (if fr <? fvg then fvh <- at_ (f s) (vh s) ;; Ok (fr >=? fvh)
                else Ok false) ;;
    s <- (if outside : bool then contract_outside fuel s else contract_inside fuel s) ;;
    let s := set_vc (constrain (vc s) s) s in
    let (fc, s) := doEvaluate ContractionEval (vc s) s in
    fvg <- at_ (f s) (vg s) ;;
    if fc <? fvg then replace_worst fuel vc fc s
    else shrink fuel s
  else Ok s.

(** The body of the [while] loop up to the convergence test. *)
Definition iteration (fuel : nat) (s : NelderMead) : outcome NelderMead :=
  s <- doIndexes fuel s ;;
  s <- centroid fuel s ;;
  s <- reflect fuel s ;;
  let s := set_vr (constrain (vr s) s) s in
  let s := set_branchLog (Reflection :: branchLog s) s in
  let (fr, s) := doEvaluate ReflectionEval (vr s) s in
  s <- accept_reflection fuel fr s ;;
  s <- expansion fuel fr s ;;
  contraction fuel fr s.

(** The convergence test of lines 270-284: [s < tolerancee]. *)
Definition converged (fuel : nat) (tolerancee : D) (s : NelderMead) : outcome bool :=
  fsum <- for_loop fuel (fun j => (j <=? size s)%Z)
            (fun j fsum => fj <- at_ (f s) j ;; Ok (fsum + fj)) 0%Z (dof 0) ;;
  let favg := fsum / dof (u32 (size s + 1)%Z) in
  s2 <- for_loop fuel (fun j => (j <=? size s)%Z)
          (fun j acc => fj <- at_ (f s) j ;;
                        Ok (acc + dpow (fj - favg) (dof 2) / dof (size s)))
          0%Z (dof 0) ;;
  Ok (dsqrt s2 <? tolerancee).

(** [while (++iterationCount <= configMaxIterations) { ...; if (s < tolerancee) break; }]
    [n] bounds the number of passes of the model; [fuel] is for the inner
    loops. *)
Fixpoint exec_loop (n fuel : nat) (tolerancee : D) (iterationCount : Z) (s : NelderMead)
    : outcome (Z * NelderMead) :=
  match n with
  | O => OutOfFuel
  | S n' =>
      let iterationCount := u32 (iterationCount + 1)%Z in
      if (iterationCount <=? configMaxIterations s)%Z then
        s <- iteration fuel s ;;
        stop <- converged fuel tolerancee s ;;
        if stop : bool then Ok (iterationCount, s)
        else exec_loop n' fuel tolerancee iterationCount s
      else Ok (iterationCount, s)
  end.

(** Lines 122-135: initialise, constrain every vertex, evaluate every vertex. *)
Definition exec_begin (fuel : nat) (start : list D) (scale : D) (s : NelderMead)
    : outcome NelderMead :=
  s <- doInitialize fuel start scale s ;;
  s <- match constrainFunc s with
       | Some c => for_loop fuel (fun j => (j <=? size s)%Z) (constrain_vertex c) 0%Z s
       | None => Ok s
       end ;;
  evaluate_all fuel InitialEval s.

(** Lines 287-297: the indices once more, the minimum, the results. *)
Definition exec_end (fuel : nat) (iterationCount : Z) (s : NelderMead) : outcome NelderMead :=
  s <- doIndexes fuel s ;;
  best <- at_ (v s) (vs s) ;;
  let (m, s) := doEvaluate FinalEval best s in
  values <- for_loop fuel (fun j => (j <? size s)%Z)
              (fun j values => x <- at2 (v s) (vs s) j ;; Ok (values ++ [x])) 0%Z [] ;;
  Ok (set_lastExecResults
        {| iterationCount := iterationCount; r_evalCount := evalCount s;
           minValues := values; r_min := m |} s).

(** [NelderMead::exec]. *)
Definition exec (fuel : nat) (start : list D) (tolerancee scale : D) (s : NelderMead)
    : outcome NelderMead :=
  s <- exec_begin fuel start scale s ;;
  p <- exec_loop fuel fuel tolerancee 0%Z s ;;
  exec_end fuel (fst p) (snd p).

End Optimizer.

Arguments NelderMead D : clear implicits.
Arguments NelderMeadResults D : clear implicits.


(** ** What the loops compute

    Closed forms of the loops above, as total functions on lists.  They are
    not a second model: each one is proved equal to the code it describes
    (Section "The loops and their closed forms"), and every theorem about a
    run is stated on [exec] and its parts. *)

Section ClosedForms.
Context {D : Type} {ops : DoubleOps D}.
Local Open Scope double_scope.

Definition val (l : list D) (i : Z) : D := nth (Z.to_nat i) l (dof 0).
Definition vertex (V : list (list D)) (i : Z) : list D := nth (Z.to_nat i) V [].
Definition coord (V : list (list D)) (i j : Z) : D := val (vertex V i) j.
Definition tabulate {B : Type} (n : Z) (h : Z -> B) : list B := h <$> seqZ 0 n.

(** The buffer after [j] rounds of a loop that overwrites it from the left. *)
Definition partly {B : Type} (j : Z) (h : Z -> B) (b0 : list B) : list B :=
  tabulate j h ++ drop (Z.to_nat j) b0.

(** The class invariant established by the constructor. *)
Record wf (s : NelderMead D) : Prop := {
  wf_size : (0 <= size s < 2 ^ 32 - 1)%Z;
  wf_v : length (v s) = Z.to_nat (size s + 1);
  wf_rows : Forall (fun row => length row = Z.to_nat (size s)) (v s);
  wf_f : length (f s) = Z.to_nat (size s + 1);
  wf_vr : length (vr s) = Z.to_nat (size s);
  wf_ve : length (ve s) = Z.to_nat (size s);
  wf_vc : length (vc s) = Z.to_nat (size s);
  wf_vm : length (vm s) = Z.to_nat (size s);
  wf_vs : (0 <= vs s <= size s)%Z;
  wf_vh : (0 <= vh s <= size s)%Z;
  wf_vg : (0 <= vg s <= size s)%Z;
  wf_evalCount : (0 <= evalCount s < 2 ^ 32)%Z;
  wf_max : (0 <= configMaxIterations s < 2 ^ 32)%Z
}.

(** The contract of the constraint callback (spec, section 6): it returns a
    point of the same size. *)
Definition length_preserving (s : NelderMead D) : Prop :=
  match constrainFunc s with
  | Some c => forall x, length (c x) = length x
  | None => True
  end.

(** The object that the constructor builds. *)
Definition blank (inSize : Z) (inEvalFunc : list D -> D)
    (inConstrainFunc : option (list D -> list D)) : NelderMead D :=
  {| configMaxIterations := 1000;
     configReflectionCoefficient := dof 1;
     configContractionCoefficient := dof 1 / dof 2;
     configExpansionCoefficient := dof 2;
     size := inSize;
     evalFunc := inEvalFunc;
     constrainFunc := inConstrainFunc;
     v := replicate (Z.to_nat (inSize + 1)) (replicate (Z.to_nat inSize) (dof 0));
     f := replicate (Z.to_nat (inSize + 1)) (dof 0);
     vr := replicate (Z.to_nat inSize) (dof 0);
     ve := replicate (Z.to_nat inSize) (dof 0);
     vc := replicate (Z.to_nat inSize) (dof 0);
     vm := replicate (Z.to_nat inSize) (dof 0);
     evalCount := 0;
     vs := 0;
     vh := 0;
     vg := 0;
     lastExecResults :=
       {| iterationCount := 0; r_evalCount := 0; minValues := []; r_min := dof 0 |};
     evalLog := [];
     branchLog := [] |}.

(** What every step of a run relies on: a constructed object of dimension at
    least one whose constraint callback keeps to its contract. *)
Definition ready (s : NelderMead D) : Prop :=
  wf s /\ (1 <= size s)%Z /\ length_preserving s.

(** The three scratch buffers that [replace_worst] copies from. *)
Definition scratch (src : NelderMead D -> list D) : Prop :=
  (forall V s, src (set_v V s) = src s) /\
  (forall s, wf s -> length (src s) = Z.to_nat (size s)).

(** Fuel for the loops over the vertices and the coordinates. *)
Definition enough (fuel : nat) (s : NelderMead D) : Prop :=
  (Z.to_nat (size s + 1) < fuel)%nat.

(** What a run may not change: the dimension, the callbacks and the
    configuration. *)
Definition same_setup (s1 s2 : NelderMead D) : Prop :=
  size s1 = size s2 /\ evalFunc s1 = evalFunc s2 /\ constrainFunc s1 = constrainFunc s2 /\
  configMaxIterations s1 = configMaxIterations s2 /\
  configReflectionCoefficient s1 = configReflectionCoefficient s2 /\
  configContractionCoefficient s1 = configContractionCoefficient s2 /\
  configExpansionCoefficient s1 = configExpansionCoefficient s2.

Definition simplex_of (N : Z) (start : list D) (pn qn : D) : list (list D) :=
  tabulate (N + 1) (fun i =>
    if (i =? 0)%Z then tabulate N (val start)
    else tabulate N (fun j => (if (i - 1 =? j)%Z then pn else qn) + val start j)).

Definition doInitialize_fn (start : list D) (scale : D) (s : NelderMead D) : NelderMead D :=
  let pn := scale * (dsqrt (dof (size s + 1)%Z) - dof 1 + dof (size s))
            / (dof (size s) * dsqrt (dof 2)) in
  let qn := scale * (dsqrt (dof (size s + 1)%Z) - dof 1)
            / (dof (size s) * dsqrt (dof 2)) in
  set_v (simplex_of (size s) start pn qn)
    (set_vg 0 (set_vh 0 (set_vs 0 (set_evalLog [] (set_branchLog [] (set_evalCount 0 s)))))).

Definition step_worst_best (F : list D) (p : Z * Z) (j : Z) : Z * Z :=
  let vg := if val F j >? val F (fst p) then j else fst p in
  let vs := if val F j <? val F (snd p) then j else snd p in
  (vg, vs).

Definition step_second (F : list D) (vg vh j : Z) : Z :=
  if (val F j >? val F vh) && (val F j <? val F vg) then j else vh.

Definition worst_best (F : list D) (N vg vs : Z) : Z * Z :=
  fold_left (step_worst_best F) (seqZ 0 (N + 1)) (vg, vs).

Definition second (F : list D) (N vg vs : Z) : Z :=
  fold_left (step_second F vg) (seqZ 0 (N + 1)) vs.

Definition doIndexes_fn (s : NelderMead D) : NelderMead D :=
  let p := worst_best (f s) (size s) (vg s) (vs s) in
  set_vh (second (f s) (size s) (fst p) (snd p)) (set_vs (snd p) (set_vg (fst p) s)).

Definition centroid_of (V : list (list D)) (N vg : Z) : list D :=
  tabulate N (fun j =>
    fold_left (fun cent m => if negb (m =? vg)%Z then cent + coord V m j else cent)
      (seqZ 0 (N + 1)) (dof 0) / dof N).

Definition centroid_fn (s : NelderMead D) : NelderMead D :=
  set_vm (centroid_of (v s) (size s) (vg s)) s.

Definition reflect_fn (s : NelderMead D) : NelderMead D :=
  set_vr (tabulate (size s) (fun j =>
            val (vm s) j + configReflectionCoefficient s
                           * (val (vm s) j - coord (v s) (vg s) j))) s.

Definition expand_fn (s : NelderMead D) : NelderMead D :=
  set_ve (tabulate (size s) (fun j =>
            val (vm s) j + configExpansionCoefficient s * (val (vr s) j - val (vm s) j))) s.

Definition contract_outside_fn (s : NelderMead D) : NelderMead D :=
  set_vc (tabulate (size s) (fun j =>
            val (vm s) j + configContractionCoefficient s * (val (vr s) j - val (vm s) j))) s.

Definition contract_inside_fn (s : NelderMead D) : NelderMead D :=
  set_vc (tabulate (size s) (fun j =>
            val (vm s) j - configContractionCoefficient s
                           * (val (vm s) j - coord (v s) (vg s) j))) s.

Definition replace_worst_fn (src : NelderMead D -> list D) (fx : D) (s : NelderMead D)
    : NelderMead D :=
  set_f (<[Z.to_nat (vg s) := fx]> (f s)) (set_v (<[Z.to_nat (vg s) := src s]> (v s)) s).

Definition evaluate_all_fn (from : site) (s : NelderMead D) : NelderMead D :=
  set_f (evalFunc s <$> v s)
    (set_evalLog (replicate (Z.to_nat (size s + 1)) from ++ evalLog s)
       (set_evalCount (u32 (evalCount s + (size s + 1))%Z) s)).

Definition reconstrain_vertex_fn (from : site) (i : Z) (s : NelderMead D) : NelderMead D :=
  let row := constrain (vertex (v s) i) s in
  set_f (<[Z.to_nat i := evalFunc s row]> (f s))
    (set_evalLog (from :: evalLog s)
       (set_evalCount (u32 (evalCount s + 1)%Z) (set_v (<[Z.to_nat i := row]> (v s)) s))).

Definition halve_towards (best row : list D) (N : Z) : list D :=
  tabulate N (fun j => val best j + (val row j - val best j) / dof 2).

Definition shrink_rows (V : list (list D)) (N vs : Z) : list (list D) :=
  tabulate (N + 1) (fun row =>
    if negb (row =? vs)%Z then halve_towards (vertex V vs) (vertex V row) N
    else vertex V row).

Definition shrink_fn (s : NelderMead D) : NelderMead D :=
  let s := set_branchLog (Shrink :: branchLog s) s in
  let s := set_v (shrink_rows (v s) (size s) (vs s)) s in
  let s := evaluate_all_fn ShrinkEval s in
  let s := doIndexes_fn s in
  let s := reconstrain_vertex_fn ShrinkWorstEval (vg s) s in
  reconstrain_vertex_fn ShrinkSecondEval (vh s) s.

Definition accept_reflection_fn (fr : D) (s : NelderMead D) : NelderMead D :=
  if (fr <? val (f s) (vh s)) && (fr >=? val (f s) (vs s)) then
    replace_worst_fn vr fr (set_branchLog (AcceptReflection :: branchLog s) s)
  else s.

Definition expansion_fn (fr : D) (s : NelderMead D) : NelderMead D :=
  if fr <? val (f s) (vs s) then
    let s := set_branchLog (Expansion :: branchLog s) s in
    let s := expand_fn s in
    let s := set_ve (constrain (ve s) s) s in
    let (fe, s) := doEvaluate ExpansionEval (ve s) s in
    if fe <? fr then replace_worst_fn ve fe s else replace_worst_fn vr fr s
  else s.

Definition contraction_fn (fr : D) (s : NelderMead D) : NelderMead D :=
  if fr >=? val (f s) (vh s) then
    let s := set_branchLog (Contraction :: branchLog s) s in
    let s := if (fr <? val (f s) (vg s)) && (fr >=? val (f s) (vh s))
             then contract_outside_fn s else contract_inside_fn s in
    let s := set_vc (constrain (vc s) s) s in
    let (fc, s) := doEvaluate ContractionEval (vc s) s in
    if fc <? val (f s) (vg s) then replace_worst_fn vc fc s else shrink_fn s
  else s.

(** An iteration in two halves: up to the constrained reflection point, and
    from its evaluation through the three [if] statements. *)
Definition reflected_fn (s : NelderMead D) : NelderMead D :=
  let s := doIndexes_fn s in
  let s := centroid_fn s in
  let s := reflect_fn s in
  let s := set_vr (constrain (vr s) s) s in
  set_branchLog (Reflection :: branchLog s) s.

Definition accepted_fn (s : NelderMead D) : NelderMead D :=
  let (fr, s) := doEvaluate ReflectionEval (vr s) s in
  let s := accept_reflection_fn fr s in
  let s := expansion_fn fr s in
  contraction_fn fr s.

Definition iteration_fn (s : NelderMead D) : NelderMead D :=
  accepted_fn (reflected_fn s).

(** The spread statistic in the words of the specification:
    [sqrt(sum over j of (f[j] - mean)^2 / N)], [mean] the arithmetic mean of
    the [N+1] values. *)
Definition mean (F : list D) (N : Z) : D :=
  fold_left dadd F (dof 0) / dof (N + 1)%Z.

Definition spread (F : list D) (N : Z) : D :=
  dsqrt (fold_left (fun acc fj => acc + dpow (fj - mean F N) (dof 2) / dof N) F (dof 0)).

Definition exec_begin_fn (start : list D) (scale : D) (s : NelderMead D) : NelderMead D :=
  let s := doInitialize_fn start scale s in
  let s := match constrainFunc s with
           | Some c => set_v (c <$> v s) s
           | None => s
           end in
  evaluate_all_fn InitialEval s.

Definition exec_end_fn (iterationCount : Z) (s : NelderMead D) : NelderMead D :=
  let s := doIndexes_fn s in
  let best := vertex (v s) (vs s) in
  let (m, s) := doEvaluate FinalEval best s in
  set_lastExecResults
    {| iterationCount := iterationCount; r_evalCount := evalCount s;
       minValues := best; r_min := m |} s.

Fixpoint exec_loop_fn (n : nat) (tolerancee : D) (iterationCount : Z) (s : NelderMead D)
    : outcome (Z * NelderMead D) :=
  match n with
  | O => OutOfFuel
  | S n' =>
      let iterationCount := u32 (iterationCount + 1)%Z in
      if (iterationCount <=? configMaxIterations s)%Z then
        let s := iteration_fn s in
        if spread (f s) (size s) <? tolerancee then Ok (iterationCount, s)
        else exec_loop_fn n' tolerancee iterationCount s
      else Ok (iterationCount, s)
  end.

Definition exec_fn (n : nat) (start : list D) (tolerancee scale : D) (s : NelderMead D)
    : outcome (NelderMead D) :=
  p <- exec_loop_fn n tolerancee 0%Z (exec_begin_fn start scale s) ;;
  Ok (exec_end_fn (fst p) (snd p)).

(** ** Observation points of a run

    The states of the object after the initial evaluation pass and at the
    end of each iteration of the loop. *)
Inductive observable (fuel : nat) (start : list D) (scale : D) (s0 : NelderMead D)
    : NelderMead D -> Prop :=
| observable_begin (s : NelderMead D) :
    exec_begin fuel start scale s0 = Ok s -> observable fuel start scale s0 s
| observable_iteration (s s' : NelderMead D) :
    observable fuel start scale s0 s -> iteration fuel s = Ok s' ->
    observable fuel start scale s0 s'.

End ClosedForms.

(** ** Counting in the branch log *)

Definition branch_eqb (a b : branch) : bool :=
  match a, b with
  | Reflection, Reflection => true
  | AcceptReflection, AcceptReflection => true
  | Expansion, Expansion => true
  | Contraction, Contraction => true
  | Shrink, Shrink => true
  | _, _ => false
  end.

(** How often the branch [b] was taken. *)
Fixpoint times (b : branch) (l : list branch) : nat :=
  match l with
  | [] => 0
  | x :: l' => (if branch_eqb b x then 1 else 0) + times b l'
  end.

(** ** Invariants of a run *)

Section Invariants.
Context {D : Type} {ops : DoubleOps D}.

(** The value table and the simplex are in step: [f[i]] is the objective at
    [v[i]] for every [i] in [0..N]. *)
Definition in_sync (s : NelderMead D) : Prop :=
  forall i, (0 <= i <= size s)%Z ->
  exists x, at_ (v s) i = Ok x /\ at_ (f s) i = Ok (evalFunc s x).

Definition synced (s : NelderMead D) : Prop := f s = evalFunc s <$> v s.

(** Every coordinate of every vertex lies in [[lo, hi]]. *)
Definition inside (lo hi x : D) : Prop := dle lo x = true /\ dle x hi = true.

Definition in_box (lo hi : D) (s : NelderMead D) : Prop :=
  Forall (Forall (inside lo hi)) (v s).

(** The evaluations that the branch log accounts for: one per reflection,
    expansion and contraction, [N + 3] per shrink. *)
Definition accounted (N : Z) (l : list branch) : Z :=
  (Z.of_nat (times Reflection l) + Z.of_nat (times Expansion l)
   + Z.of_nat (times Contraction l) + (N + 3) * Z.of_nat (times Shrink l))%Z.

(** From [s] to [s'] the objective was called [a] more times, shown by the
    counter (modulo [2^32]) and by the evaluation log, and the branches
    logged since account for [b] calls. *)
Definition moves (a : nat) (b : Z) (s s' : NelderMead D) : Prop :=
  size s' = size s /\
  u32 (evalCount s') = u32 (evalCount s + Z.of_nat a)%Z /\
  length (evalLog s') = (length (evalLog s) + a)%nat /\
  accounted (size s) (branchLog s') = (accounted (size s) (branchLog s) + b)%Z.

(** The calls made are exactly those that the branches account for. *)
Definition advances (s s' : NelderMead D) : Prop :=
  exists k : nat, moves k (Z.of_nat k) s s'.

(** What one entry of the branch log accounts for. *)
Definition weight (N : Z) (b : branch) : Z :=
  match b with
  | Reflection | Expansion | Contraction => 1
  | Shrink => N + 3
  | AcceptReflection => 0
  end.

(** The counter is the number of logged evaluations modulo [2^32], and the
    log holds the [N + 1] initial evaluations and those of the branches. *)
Definition tallied (s : NelderMead D) : Prop :=
  evalCount s = u32 (Z.of_nat (length (evalLog s))) /\
  Z.of_nat (length (evalLog s)) = (size s + 1 + accounted (size s) (branchLog s))%Z.

(** [f[i] < f[j]], the one comparison of [doIndexes]. *)
Definition below (F : list D) (i j : Z) : bool := dlt (val F i) (val F j).

(** On the values of the table [<] is a strict weak order: true of every
    table of doubles without a NaN. *)
Record strict_weak_order_on (F : list D) (N : Z) : Prop := {
  swo_irrefl : forall i, (0 <= i <= N)%Z -> below F i i = false;
  swo_trans : forall i j k, (0 <= i <= N)%Z -> (0 <= j <= N)%Z -> (0 <= k <= N)%Z ->
    below F i j = true -> below F j k = true -> below F i k = true;
  swo_neg : forall i j k, (0 <= i <= N)%Z -> (0 <= j <= N)%Z -> (0 <= k <= N)%Z ->
    below F i j = false -> below F j k = false -> below F i k = false
}.

(** Two objects that differ at most in the scratch buffers and the stored
    results. *)
Definition agree (s1 s2 : NelderMead D) : Prop :=
  same_setup s1 s2 /\ v s1 = v s2 /\ f s1 = f s2 /\ evalCount s1 = evalCount s2 /\
  vs s1 = vs s2 /\ vh s1 = vh s2 /\ vg s1 = vg s2 /\
  evalLog s1 = evalLog s2 /\ branchLog s1 = branchLog s2.

(** In the second half of an iteration the centroid and the reflection
    point agree too. *)
Definition alike (s1 s2 : NelderMead D) : Prop :=
  agree s1 s2 /\ vm s1 = vm s2 /\ vr s1 = vr s2.

(** The loop ends the same way from both objects. *)
Definition agree_loops (o1 o2 : outcome (Z * NelderMead D)) : Prop :=
  match o1, o2 with
  | Ok p1, Ok p2 => fst p1 = fst p2 /\ agree (snd p1) (snd p2)
  | OutOfBounds, OutOfBounds => True
  | OutOfFuel, OutOfFuel => True
  | _, _ => False
  end.

End Invariants.

(** ** Everything but the configuration *)

Section Frame.
Context {D : Type}.

(** The part of the object that the four setters must leave alone. *)
Definition untouched (s s' : NelderMead D) : Prop :=
  size s' = size s /\ evalFunc s' = evalFunc s /\ constrainFunc s' = constrainFunc s /\
  v s' = v s /\ f s' = f s /\ vr s' = vr s /\ ve s' = ve s /\ vc s' = vc s /\
  vm s' = vm s /\ evalCount s' = evalCount s /\ vs s' = vs s /\ vh s' = vh s /\
  vg s' = vg s /\ lastExecResults s' = lastExecResults s /\
  evalLog s' = evalLog s /\ branchLog s' = branchLog s.

End Frame.

(** ** Concrete problems in double precision *)

Module Examples.

(** The one-dimensional line search of the specification, section 8:
    [f(x) = (x - 5)^2]. *)
Definition quadratic (x : list float) : float :=
  match x with
  | [a] => PrimFloat.mul (PrimFloat.sub a 5) (PrimFloat.sub a 5)
  | _ => 0%float
  end.

Definition line_search : NelderMead float := blank 1 quadratic None.

(** [f(x) = x (1 - x)]: the two vertices of the initial simplex, 0 and 1, have
    the same value, and the reflection point 2 has a smaller one. *)
Definition parabola (x : list float) : float :=
  match x with
  | [a] => PrimFloat.mul a (PrimFloat.sub 1 a)
  | _ => 0%float
  end.

(** [f(x) = max(x, 0)] and the constant [f(x) = 0]. *)
Definition ramp (x : list float) : float :=
  match x with
  | [a] => if PrimFloat.ltb 0 a then a else 0%float
  | _ => 0%float
  end.

Definition flat (x : list float) : float := 0%float.

Definition ramp_search : NelderMead float := blank 1 ramp None.

Definition parabola_search : NelderMead float := blank 1 parabola None.

(** The same object with traces of earlier use in the value table, the
    counter and the role indices. *)
Definition used_search : NelderMead float :=
  set_vg 1 (set_vs 1 (set_evalCount 7 (set_f [1%float; 2%float] line_search))).

(** Enough iterations of the constant objective for more than [2^32]
    evaluations: each one costs 6, and [3 + 6 * 715827883 = 2^32 + 5]. *)
Definition many : Z := 715827883.

Definition flat_search : NelderMead float := setMaxIterations many (blank 1 flat None).

(** What the loop keeps on the constant objective. *)
Definition flat_state (s : NelderMead float) : Prop :=
  ready s /\ size s = 1%Z /\ evalFunc s = flat /\ configMaxIterations s = many /\
  synced s.

(** A box whose width [hi - lo] is not a finite double. *)
Definition lo : float := (-0x1p1023)%float.
Definition hi : float := 0x1p1023%float.

Definition clamp1 (x : float) : float :=
  if PrimFloat.leb lo x then (if PrimFloat.leb x hi then x else hi) else lo.

Definition clamp (x : list float) : list float := map clamp1 x.

(** 0 in the lower corner of the box, 1 everywhere else. *)
Definition corner (x : list float) : float :=
  match x with
  | [a; b] => if PrimFloat.leb a lo && PrimFloat.leb b lo then 0%float else 1%float
  | _ => 0%float
  end.

(** The same box and objective in exact arithmetic, between -1 and 1. *)
Definition clampQ (x : list Q) : list Q :=
  map (fun a => if Qle_bool (-1) a then (if Qle_bool a 1 then a else 1%Q) else (-1)%Q) x.

Definition cornerQ (x : list Q) : Q :=
  match x with
  | [a; b] => if Qle_bool a (-1) && Qle_bool b (-1) then 0%Q else 1%Q
  | _ => 0%Q
  end.

End Examples.

(** ** The rest of the interface *)

Section Interface.
Context {D : Type} {ops : DoubleOps D}.

(** [getLastExecResults] of nm.h. *)
Definition getLastExecResults (s : NelderMead D) : NelderMeadResults D :=
  lastExecResults s.

(** The two offsets of the regular simplex that [doInitialize] computes. *)
Definition pn_of (N : Z) (scale : D) : D :=
  (scale * (dsqrt (dof (N + 1)%Z) - dof 1 + dof N) / (dof N * dsqrt (dof 2)))%D.

Definition qn_of (N : Z) (scale : D) : D :=
  (scale * (dsqrt (dof (N + 1)%Z) - dof 1) / (dof N * dsqrt (dof 2)))%D.

End Interface.

(** ** The branches of one iteration

    What one pass of the loop may add to the branch log, oldest entry last:
    the reflection, then at most one accepted reflection, at most one
    expansion, and at most one contraction, itself followed by a shrink or
    not. *)
Definition iteration_trace (l : list branch) : Prop :=
  exists a e c : list branch,
    l = c ++ e ++ a ++ [Reflection] /\
    (a = [] \/ a = [AcceptReflection]) /\
    (e = [] \/ e = [Expansion]) /\
    (c = [] \/ c = [Contraction] \/ c = [Shrink; Contraction]).

Section Branches.
Context {D : Type} {ops : DoubleOps D}.

(** The three [if] statements of an iteration (nm.cpp, lines 172-263), which
    [iteration] runs on the value [fr] of the reflection point. *)
Definition branches (fuel : nat) (fr : D) (s : NelderMead D) : outcome (NelderMead D) :=
  s <- accept_reflection fuel fr s ;;
  s <- expansion fuel fr s ;;
  contraction fuel fr s.

Definition branches_fn (fr : D) (s : NelderMead D) : NelderMead D :=
  contraction_fn fr (expansion_fn fr (accept_reflection_fn fr s)).

End Branches.

(** ** Other callbacks on the same object *)

Section Callbacks.
Context {D : Type} {ops : DoubleOps D}.

Definition with_callbacks (g : list D -> D) (c : option (list D -> list D))
    (s : NelderMead D) : NelderMead D :=
  {| configMaxIterations := configMaxIterations s;
     configReflectionCoefficient := configReflectionCoefficient s;
     configContractionCoefficient := configContractionCoefficient s;
     configExpansionCoefficient := configExpansionCoefficient s; size := size s;
     evalFunc := g; constrainFunc := c; v := v s; f := f s;
     vr := vr s; ve := ve s; vc := vc s; vm := vm s; evalCount := evalCount s; vs := vs s;
     vh := vh s; vg := vg s; lastExecResults := lastExecResults s; evalLog := evalLog s;
     branchLog := branchLog s |}.

(** [g] and [c] do on vectors of [N] coordinates what the callbacks of [s]
    do. *)
Definition stands_in (g : list D -> D) (c : option (list D -> list D))
    (s : NelderMead D) : Prop :=
  (forall x, length x = Z.to_nat (size s) -> g x = evalFunc s x) /\
  match constrainFunc s, c with
  | Some c0, Some c1 => forall x, length x = Z.to_nat (size s) -> c1 x = c0 x
  | None, None => True
  | _, _ => False
  end.

End Callbacks.

(** ** Descent *)

Section Descent.
Context {D : Type} {ops : DoubleOps D}.

(** On the values that [g] takes [<] is a strict weak order: true of an
    objective on doubles that never returns a NaN. *)
Record ordered_values (g : list D -> D) : Prop := {
  ov_irrefl : forall x, dlt (g x) (g x) = false;
  ov_trans : forall x y z,
    dlt (g x) (g y) = true -> dlt (g y) (g z) = true -> dlt (g x) (g z) = true;
  ov_neg : forall x y z,
    dlt (g x) (g y) = false -> dlt (g y) (g z) = false -> dlt (g x) (g z) = false
}.

(** Some entry of the value table [F] is not above [B]. *)
Definition no_worse (F : list D) (N : Z) (B : D) : Prop :=
  exists j, (0 <= j <= N)%Z /\ dlt B (val F j) = false.

End Descent.

(** * The example program (src/example.cpp) *)

Module Example.

Local Open Scope float_scope.

(** [myFunction]: the distance of [(x0^2 - x1, x1^2 - x0)] from
    [(b^2 - a, a^2 - b)], with [a = -1.23456] and [b = 6.54321] (written as
    the doubles that the literals denote).  The reads of [x[0]] and [x[1]]
    are checked. *)
Definition myFunction (x : list float) : outcome float :=
  let a := -0x1.3c0c1fc8f3238p+0 in
  let b := 0x1.a2c3f3e0370cep+2 in
  let v1 := b * b - a in
  x0 <- at_ x 0%Z ;;
  x1 <- at_ x 1%Z ;;
  let v2 := x0 * x0 - x1 in
  let w1 := a * a - b in
  let w2 := x1 * x1 - x0 in
  Ok (PrimFloat.sqrt ((v1 - v2) * (v1 - v2) + (w1 - w2) * (w1 - w2))).

(** The objective as a callback of the optimizer; it is only ever called
    on vectors of two coordinates, so the value chosen elsewhere is of no
    consequence. *)
Definition objective (x : list float) : float :=
  match myFunction x with
  | Ok y => y
  | _ => nan
  end.



(** The object of [main] after [setMaxIterations(100000)]. *)
Definition search : NelderMead float := setMaxIterations 100000 (blank 2 objective None).

(** [main], without the printing: the results that the two calls of
    [printResults] are given. *)
Definition main (fuel : nat)
    : outcome (NelderMeadResults float * NelderMeadResults float) :=
  simp <- NelderMead_new fuel 2 objective None ;;
  let simp := setMaxIterations 100000 simp in
  simp <- exec fuel [1; 1] 0x1.0c6f7a0b5ed8dp-20 1 simp ;;
  let first := getLastExecResults simp in
  simp <- exec fuel [1; 1] 0x1.19799812dea11p-40 1 simp ;;
  Ok (first, getLastExecResults simp).

End Example.

(** ** More objects to run the theorems on *)

Module MoreExamples.
Import Examples.

(** The line search with the value table [[1; 2]] and the role indices
    that [doIndexes] gives it. *)
Definition ranked : NelderMead float :=
  set_vg 1 (set_vh 0 (set_vs 0 (set_f [1%float; 2%float] line_search))).

(** [(x - 5)^2] on one coordinate, 1 on any other number of them. *)
Definition quadratic_or_one (x : list float) : float :=
  match x with
  | [a] => PrimFloat.mul (PrimFloat.sub a 5) (PrimFloat.sub a 5)
  | _ => 1%float
  end.

(** An object of dimension zero. *)
Definition pointless : NelderMead float := blank 0 flat None.

End MoreExamples.

(** * Proofs *)

(** Reduce the projections of an updated object, and nothing else. *)
Ltac frame :=
  cbn [size evalFunc constrainFunc configMaxIterations configReflectionCoefficient
       configContractionCoefficient configExpansionCoefficient v f vr ve vc vm evalCount
       vs vh vg lastExecResults evalLog branchLog
       set_v set_f set_vr set_ve set_vc set_vm set_evalCount set_vs set_vh set_vg
       set_lastExecResults set_evalLog set_branchLog doEvaluate fst snd
       doIndexes_fn centroid_fn reflect_fn expand_fn contract_outside_fn
       contract_inside_fn replace_worst_fn evaluate_all_fn reconstrain_vertex_fn].

(** ** Machine integers and the generic loop *)

Lemma u32_small z : 0 <= z < 2 ^ 32 -> u32 z = z.
Proof. intros. unfold u32. apply Z.mod_small. lia. Qed.

Lemma u32_add_l a b : u32 (u32 a + b) = u32 (a + b).
Proof. unfold u32. apply Zplus_mod_idemp_l. Qed.

Lemma u32_u32 z : u32 (u32 z) = u32 z.
Proof. unfold u32. apply Z.mod_mod. lia. Qed.

Lemma u32_range z : 0 <= u32 z < 2 ^ 32.
Proof. unfold u32. apply Z.mod_pos_bound. lia. Qed.

(** A loop whose counter runs from [a] to [b] without wrapping goes through
    the states [st a], ..., [st b]. *)
Lemma for_loop_states {A : Type} (st : Z -> A) (cond : Z -> bool)
    (body : Z -> A -> outcome A) (fuel : nat) (a b : Z) :
  0 <= a <= b -> b < 2 ^ 32 ->
  (forall j, a <= j < b -> cond j = true /\ body j (st j) = Ok (st (j + 1))) ->
  cond b = false ->
  (Z.to_nat (b - a) < fuel)%nat ->
  for_loop fuel cond body a (st a) = Ok (st b).
Proof.
  intros Hab Hb Hstep Hend.
  remember (Z.to_nat (b - a)) as n eqn:Hn.
  revert a Hab Hstep Hn fuel.
  induction n as [|n IH]; intros a Hab Hstep Hn fuel Hfuel.
  - assert (a = b) by lia. subst a.
    destruct fuel as [|fuel]; [lia|]. simpl. now rewrite Hend.
  - destruct fuel as [|fuel]; [lia|]. simpl.
    destruct (Hstep a) as [Hc Hbody]; [lia|].
    rewrite Hc, Hbody. simpl.
    rewrite u32_small by lia.
    apply IH; try lia.
    intros j Hj. apply Hstep. lia.
Qed.

Lemma for_loop_between {A : Type} (st : Z -> A) (cond : Z -> bool)
    (body : Z -> A -> outcome A) (fuel : nat) (a b : Z) (first last : A) :
  st a = first -> st b = last ->
  0 <= a <= b -> b < 2 ^ 32 ->
  (forall j, a <= j < b -> cond j = true /\ body j (st j) = Ok (st (j + 1))) ->
  cond b = false ->
  (Z.to_nat (b - a) < fuel)%nat ->
  for_loop fuel cond body a first = Ok last.
Proof. intros <- <-. apply for_loop_states. Qed.

(** ** Checked vector accesses *)

Lemma at_ok {A : Type} (d : A) (l : list A) (i : Z) :
  (Z.to_nat i < length l)%nat -> at_ l i = Ok (nth (Z.to_nat i) l d).
Proof.
  intros Hi. unfold at_.
  destruct (lookup_lt_is_Some_2 l (Z.to_nat i) Hi) as [x Hx].
  rewrite Hx. f_equal. symmetry. now apply nth_lookup_Some.
Qed.

Lemma put_ok {A : Type} (l : list A) (i : Z) (a : A) :
  (Z.to_nat i < length l)%nat -> put l i a = Ok (<[Z.to_nat i := a]> l).
Proof.
  intros Hi. unfold put.
  destruct (Nat.ltb_spec (Z.to_nat i) (length l)); [reflexivity | lia].
Qed.

Lemma at_not_out_of_fuel {A : Type} (l : list A) (i : Z) : at_ l i <> OutOfFuel.
Proof. unfold at_. now destruct (l !! Z.to_nat i). Qed.

(** ** Tabulated lists *)

Lemma length_tabulate {B : Type} (n : Z) (h : Z -> B) :
  length (tabulate n h) = Z.to_nat n.
Proof. unfold tabulate. now rewrite length_fmap, length_seqZ. Qed.

Lemma tabulate_0 {B : Type} (h : Z -> B) : tabulate 0 h = [].
Proof. reflexivity. Qed.

Lemma tabulate_succ {B : Type} (j : Z) (h : Z -> B) :
  0 <= j -> tabulate (j + 1) h = tabulate j h ++ [h j].
Proof.
  intros Hj. unfold tabulate.
  rewrite seqZ_app by lia. rewrite fmap_app. simpl. reflexivity.
Qed.

Lemma nth_tabulate {B : Type} (d : B) (n k : Z) (h : Z -> B) :
  0 <= k < n -> nth (Z.to_nat k) (tabulate n h) d = h k.
Proof.
  intros Hk. apply nth_lookup_Some. unfold tabulate.
  rewrite list_lookup_fmap, lookup_seqZ_lt by lia.
  cbn [fmap option_fmap option_map]. 
  f_equal. f_equal. lia.
Qed.

Lemma tabulate_ext {B : Type} (n : Z) (h h' : Z -> B) :
  (forall j, 0 <= j < n -> h j = h' j) -> tabulate n h = tabulate n h'.
Proof.
  intros Hh. unfold tabulate. apply list_fmap_ext.
  intros i x Hx. apply lookup_seqZ in Hx. apply Hh. lia.
Qed.

Lemma tabulate_nth {B : Type} (d : B) (l : list B) (n : Z) :
  length l = Z.to_nat n -> 0 <= n ->
  tabulate n (fun j => nth (Z.to_nat j) l d) = l.
Proof.
  intros Hl Hn. apply list_eq. intros i. unfold tabulate.
  rewrite list_lookup_fmap.
  destruct (Nat.lt_ge_cases i (length l)) as [Hi|Hi].
  - rewrite lookup_seqZ_lt by lia. simpl.
    replace (Z.to_nat (0 + Z.of_nat i)) with i by lia.
    destruct (lookup_lt_is_Some_2 l i Hi) as [x Hx].
    rewrite Hx. f_equal. now apply nth_lookup_Some.
  - rewrite lookup_seqZ_ge by lia. simpl. symmetry. now apply lookup_ge_None_2.
Qed.


Lemma length_partly {B : Type} (j : Z) (h : Z -> B) (b0 : list B) :
  0 <= j -> (Z.to_nat j <= length b0)%nat -> length (partly j h b0) = length b0.
Proof.
  intros. unfold partly. rewrite length_app, length_tabulate, length_drop. lia.
Qed.

Lemma nth_partly_old {B : Type} (d : B) (j k : Z) (h : Z -> B) (b0 : list B) :
  0 <= j <= k -> nth (Z.to_nat k) (partly j h b0) d = nth (Z.to_nat k) b0 d.
Proof.
  intros Hk. unfold partly. rewrite !nth_lookup.
  rewrite lookup_app_r by (rewrite length_tabulate; lia).
  rewrite length_tabulate, lookup_drop. do 2 f_equal. lia.
Qed.

Lemma nth_partly_new {B : Type} (d : B) (j k : Z) (h : Z -> B) (b0 : list B) :
  0 <= k < j -> nth (Z.to_nat k) (partly j h b0) d = h k.
Proof.
  intros Hk. unfold partly. rewrite !nth_lookup.
  rewrite lookup_app_l by (rewrite length_tabulate; lia).
  rewrite <- nth_lookup. now apply nth_tabulate.
Qed.

Lemma insert_partly {B : Type} (j : Z) (h : Z -> B) (b0 : list B) :
  0 <= j -> (Z.to_nat j < length b0)%nat ->
  <[Z.to_nat j := h j]> (partly j h b0) = partly (j + 1) h b0.
Proof.
  intros Hj Hlen. unfold partly.
  rewrite tabulate_succ by lia.
  rewrite insert_app_r_alt by (rewrite length_tabulate; lia).
  rewrite length_tabulate, Nat.sub_diag.
  destruct (drop (Z.to_nat j) b0) as [|x rest] eqn:Hd.
  - apply (f_equal length) in Hd. rewrite length_drop in Hd. simpl in Hd. lia.
  - simpl. rewrite <- app_assoc. simpl. do 2 f_equal.
    replace (Z.to_nat (j + 1)) with (S (Z.to_nat j)) by lia.
    assert (Hx : b0 !! Z.to_nat j = Some x).
    { rewrite <- (Nat.add_0_r (Z.to_nat j)), <- lookup_drop, Hd. reflexivity. }
    rewrite (drop_S _ _ _ Hx) in Hd. congruence.
Qed.

Lemma partly_0 {B : Type} (h : Z -> B) (b0 : list B) : partly 0 h b0 = b0.
Proof. reflexivity. Qed.

Lemma partly_all {B : Type} (n : Z) (h : Z -> B) (b0 : list B) :
  length b0 = Z.to_nat n -> partly n h b0 = tabulate n h.
Proof.
  intros Hl. unfold partly. rewrite drop_ge by lia. apply app_nil_r.
Qed.

(** A loop that overwrites one buffer of the state from left to right. *)
Lemma for_fill {S B : Type} (get : S -> list B) (set : list B -> S -> S)
    (h : Z -> B) (cond : Z -> bool) (body : Z -> S -> outcome S)
    (fuel : nat) (n : Z) (s0 : S) :
  0 <= n < 2 ^ 32 ->
  length (get s0) = Z.to_nat n ->
  set (get s0) s0 = s0 ->
  (forall j, 0 <= j < n -> cond j = true) ->
  cond n = false ->
  (forall j, 0 <= j < n ->
     body j (set (partly j h (get s0)) s0)
     = Ok (set (<[Z.to_nat j := h j]> (partly j h (get s0))) s0)) ->
  (Z.to_nat n < fuel)%nat ->
  for_loop fuel cond body 0 s0 = Ok (set (tabulate n h) s0).
Proof.
  intros Hn Hlen Hid Hcond Hend Hbody Hfuel.
  pose (st := fun j => set (partly j h (get s0)) s0).
  replace s0 with (st 0) at 1 by (unfold st; now rewrite partly_0).
  replace (set (tabulate n h) s0) with (st n)
    by (unfold st; now rewrite partly_all).
  apply for_loop_states; try lia; [|assumption].
  intros j Hj. split; [now apply Hcond|].
  unfold st. rewrite Hbody by lia. now rewrite insert_partly by lia.
Qed.

(** A loop that accumulates into a local variable. *)
Lemma for_accumulate {A : Type} (g : A -> Z -> A) (cond : Z -> bool)
    (body : Z -> A -> outcome A) (fuel : nat) (n : Z) (a0 : A) :
  0 <= n < 2 ^ 32 ->
  (forall j, 0 <= j < n -> cond j = true) ->
  cond n = false ->
  (forall j a, 0 <= j < n -> body j a = Ok (g a j)) ->
  (Z.to_nat n < fuel)%nat ->
  for_loop fuel cond body 0 a0 = Ok (fold_left g (seqZ 0 n) a0).
Proof.
  intros Hn Hcond Hend Hbody Hfuel.
  pose (st := fun j => fold_left g (seqZ 0 j) a0).
  change a0 with (st 0) at 1.
  change (fold_left g (seqZ 0 n) a0) with (st n).
  apply for_loop_states; try lia; [|assumption].
  intros j Hj. split; [now apply Hcond|].
  unfold st. rewrite Hbody by lia.
  rewrite seqZ_app by lia. rewrite fold_left_app. simpl. reflexivity.
Qed.

(** ** The loops and their closed forms *)

Lemma fold_seqZ_inv {A : Type} (P : A -> Prop) (g : A -> Z -> A) (n : Z) (a0 : A) :
  P a0 -> (forall a j, 0 <= j < n -> P a -> P (g a j)) ->
  P (fold_left g (seqZ 0 n) a0).
Proof.
  intros H0 Hstep.
  destruct (Z.le_gt_cases 0 n) as [Hn|Hn].
  - revert Hstep. pattern n. apply natlike_ind; [|intros x Hx IH|exact Hn]; intros Hstep.
    + exact H0.
    + unfold Z.succ. rewrite seqZ_app by lia. rewrite fold_left_app. simpl.
      apply Hstep; [lia|]. apply IH. intros a j Hj. apply Hstep. lia.
  - unfold seqZ. replace (Z.to_nat n) with 0%nat by lia. exact H0.
Qed.

Lemma seqZ_succ (j : Z) : 0 <= j -> seqZ 0 (j + 1) = seqZ 0 j ++ [j].
Proof. intros Hj. rewrite seqZ_app by lia. reflexivity. Qed.

Lemma fold_seqZ_succ {A : Type} (g : A -> Z -> A) (j : Z) (a0 : A) :
  0 <= j -> fold_left g (seqZ 0 (j + 1)) a0 = g (fold_left g (seqZ 0 j) a0) j.
Proof. intros Hj. rewrite seqZ_succ by lia. now rewrite fold_left_app. Qed.

Lemma bind_ok {A B : Type} (m : outcome A) (k : A -> outcome B) (a : A) (r : outcome B) :
  m = Ok a -> k a = r -> bind m k = r.
Proof. intros -> <-. reflexivity. Qed.

Section Loops.
Context {D : Type} {ops : DoubleOps D}.
Implicit Types s : NelderMead D.

Lemma val_at (l : list D) (i : Z) :
  (Z.to_nat i < length l)%nat -> at_ l i = Ok (val l i).
Proof. apply at_ok. Qed.

Lemma vertex_at (V : list (list D)) (i : Z) :
  (Z.to_nat i < length V)%nat -> at_ V i = Ok (vertex V i).
Proof. apply at_ok. Qed.

Lemma length_vertex (V : list (list D)) (n : nat) (i : Z) :
  Forall (fun row => length row = n) V -> (Z.to_nat i < length V)%nat ->
  length (vertex V i) = n.
Proof.
  intros HV Hi. unfold vertex.
  destruct (lookup_lt_is_Some_2 V (Z.to_nat i) Hi) as [row Hrow].
  rewrite (nth_lookup_Some _ _ _ _ Hrow).
  rewrite Forall_lookup in HV. now apply (HV _ _ Hrow).
Qed.

Lemma coord_at (V : list (list D)) (n : nat) (i j : Z) :
  Forall (fun row => length row = n) V -> (Z.to_nat i < length V)%nat ->
  (Z.to_nat j < n)%nat -> at2 V i j = Ok (coord V i j).
Proof.
  intros HV Hi Hj. unfold at2. rewrite vertex_at by assumption. simpl.
  apply val_at. now rewrite (length_vertex V n).
Qed.

Lemma worst_best_range (F : list D) (N n vg0 vs0 : Z) :
  0 <= vg0 <= N -> 0 <= vs0 <= N -> n <= N + 1 ->
  let p := fold_left (step_worst_best F) (seqZ 0 n) (vg0, vs0) in
  0 <= fst p <= N /\ 0 <= snd p <= N.
Proof.
  intros Hg Hs Hn. cbv zeta.
  apply (fold_seqZ_inv (fun p => 0 <= fst p <= N /\ 0 <= snd p <= N)); [simpl; lia|].
  intros [a b] j Hj [Ha Hb]. unfold step_worst_best. simpl in *.
  destruct (val F a <? val F j)%D, (val F j <? val F b)%D; lia.
Qed.

Lemma second_range (F : list D) (N n vg0 vs0 : Z) :
  0 <= vs0 <= N -> n <= N + 1 ->
  0 <= fold_left (step_second F vg0) (seqZ 0 n) vs0 <= N.
Proof.
  intros Hs Hn.
  apply (fold_seqZ_inv (fun p => 0 <= p <= N)); [lia|].
  intros a j Hj Ha. unfold step_second.
  destruct ((val F a <? val F j)%D && (val F j <? val F vg0)%D); lia.
Qed.

Lemma doIndexes_closed fuel s :
  wf s -> (Z.to_nat (size s + 1) < fuel)%nat ->
  doIndexes fuel s = Ok (doIndexes_fn s).
Proof.
  intros Hwf Hfuel. destruct Hwf. unfold doIndexes.
  pose (st1 := fun j =>
          let p := fold_left (step_worst_best (f s)) (seqZ 0 j) (vg s, vs s) in
          set_vs (snd p) (set_vg (fst p) (set_vh (vs s) s))).
  pose (p := worst_best (f s) (size s) (vg s) (vs s)).
  pose (st2 := fun j =>
          set_vh (fold_left (step_second (f s) (fst p)) (seqZ 0 j) (snd p))
            (set_vs (snd p) (set_vg (fst p) s))).
  assert (Hp : 0 <= fst p <= size s /\ 0 <= snd p <= size s)
    by (apply worst_best_range; lia).
  eapply bind_ok.
  { apply (for_loop_states st1 _ _ fuel 0 (size s + 1)); try lia.
    - intros j Hj. split; [simpl; lia|].
      destruct (worst_best_range (f s) (size s) j (vg s) (vs s)) as [Hpg Hps];
        try lia. cbv zeta in Hpg, Hps.
      unfold st1. cbv zeta. rewrite fold_seqZ_succ by lia.
      set (q := fold_left (step_worst_best (f s)) (seqZ 0 j) (vg s, vs s)) in *.
      cbn [f vh vg vs set_vh set_vs set_vg].
      rewrite !val_at by lia. cbn [bind].
      unfold step_worst_best. cbn [fst snd].
      destruct (val (f s) j >? val (f s) (fst q))%D;
        cbn [f vh vg vs set_vh set_vs set_vg];
        rewrite !val_at by lia; cbn [bind];
        destruct (val (f s) j <? val (f s) (snd q))%D; reflexivity.
    - simpl. lia. }
  apply (for_loop_states st2 _ _ fuel 0 (size s + 1)); try lia.
  - intros j Hj. split; [simpl; lia|].
    pose proof (second_range (f s) (size s) j (fst p) (snd p)
                  ltac:(lia) ltac:(lia)) as Hh.
    unfold st2. rewrite fold_seqZ_succ by lia.
    set (h := fold_left (step_second (f s) (fst p)) (seqZ 0 j) (snd p)) in *.
    cbn [f vh vg vs set_vh set_vs set_vg].
    rewrite !val_at by lia. cbn [bind].
    unfold step_second.
    destruct (val (f s) j >? val (f s) h)%D; cbn [andb bind]; [|reflexivity].
    destruct (val (f s) j <? val (f s) (fst p))%D; reflexivity.
  - simpl. lia.
Qed.


Lemma u32_pred_size s : wf s -> 1 <= size s -> u32 (size s - 1) = size s - 1.
Proof. intros [] H1. apply u32_small. lia. Qed.

Lemma centroid_closed fuel s :
  wf s -> 1 <= size s -> (Z.to_nat (size s + 1) < fuel)%nat ->
  centroid fuel s = Ok (centroid_fn s).
Proof.
  intros Hwf H1 Hfuel. pose proof (u32_pred_size s Hwf H1) as Hpred.
  destruct Hwf. unfold centroid, centroid_fn, centroid_of.
  apply (for_fill vm set_vm); try lia.
  - now destruct s.
  - intros j Hj. cbn [v vg vm size set_vm].
    eapply bind_ok.
    { apply (for_accumulate
               (fun cent m => if negb (m =? vg s)%Z then (cent + coord (v s) m j)%D else cent)
               _ _ fuel (size s + 1));
        try lia.
      intros m cent Hm. destruct (negb (m =? vg s)%Z); [|reflexivity].
      rewrite (coord_at _ (Z.to_nat (size s))) by (assumption || lia). reflexivity. }
    rewrite put_ok by (rewrite length_partly; lia). reflexivity.
Qed.

Lemma reflect_closed fuel s :
  wf s -> 1 <= size s -> (Z.to_nat (size s + 1) < fuel)%nat ->
  reflect fuel s = Ok (reflect_fn s).
Proof.
  intros Hwf H1 Hfuel. pose proof (u32_pred_size s Hwf H1) as Hpred.
  destruct Hwf. unfold reflect, reflect_fn.
  apply (for_fill vr set_vr); try lia.
  - now destruct s.
  - intros j Hj. cbn [v vg vm vr size set_vr configReflectionCoefficient].
    rewrite val_at by lia. cbn [bind].
    rewrite (coord_at _ (Z.to_nat (size s))) by (assumption || lia). cbn [bind].
    rewrite put_ok by (rewrite length_partly; lia). reflexivity.
Qed.

Lemma expand_closed fuel s :
  wf s -> 1 <= size s -> (Z.to_nat (size s + 1) < fuel)%nat ->
  expand fuel s = Ok (expand_fn s).
Proof.
  intros Hwf H1 Hfuel. pose proof (u32_pred_size s Hwf H1) as Hpred.
  destruct Hwf. unfold expand, expand_fn.
  apply (for_fill ve set_ve); try lia.
  - now destruct s.
  - intros j Hj. cbn [v vg vm vr ve size set_ve configExpansionCoefficient].
    rewrite !val_at by lia. cbn [bind].
    rewrite put_ok by (rewrite length_partly; lia). reflexivity.
Qed.

Lemma contract_outside_closed fuel s :
  wf s -> 1 <= size s -> (Z.to_nat (size s + 1) < fuel)%nat ->
  contract_outside fuel s = Ok (contract_outside_fn s).
Proof.
  intros Hwf H1 Hfuel. pose proof (u32_pred_size s Hwf H1) as Hpred.
  destruct Hwf. unfold contract_outside, contract_outside_fn.
  apply (for_fill vc set_vc); try lia.
  - now destruct s.
  - intros j Hj. cbn [v vg vm vr vc size set_vc configContractionCoefficient].
    rewrite !val_at by lia. cbn [bind].
    rewrite put_ok by (rewrite length_partly; lia). reflexivity.
Qed.

Lemma contract_inside_closed fuel s :
  wf s -> 1 <= size s -> (Z.to_nat (size s + 1) < fuel)%nat ->
  contract_inside fuel s = Ok (contract_inside_fn s).
Proof.
  intros Hwf H1 Hfuel. pose proof (u32_pred_size s Hwf H1) as Hpred.
  destruct Hwf. unfold contract_inside, contract_inside_fn.
  apply (for_fill vc set_vc); try lia.
  - now destruct s.
  - intros j Hj. cbn [v vg vm vr vc size set_vc configContractionCoefficient].
    rewrite val_at by lia. cbn [bind].
    rewrite (coord_at _ (Z.to_nat (size s))) by (assumption || lia). cbn [bind].
    rewrite put_ok by (rewrite length_partly; lia). reflexivity.
Qed.

Lemma vertex_insert_eq (V : list (list D)) (i : Z) (row : list D) :
  (Z.to_nat i < length V)%nat -> vertex (<[Z.to_nat i := row]> V) i = row.
Proof.
  intros Hi. unfold vertex. apply nth_lookup_Some. now apply list_lookup_insert_eq.
Qed.

Lemma vertex_insert_ne (V : list (list D)) (i k : Z) (row : list D) :
  Z.to_nat i <> Z.to_nat k -> vertex (<[Z.to_nat i := row]> V) k = vertex V k.
Proof.
  intros Hi. unfold vertex. rewrite !nth_lookup.
  now rewrite list_lookup_insert_ne.
Qed.

Lemma insert_vertex_id (V : list (list D)) (i : Z) :
  (Z.to_nat i < length V)%nat -> <[Z.to_nat i := vertex V i]> V = V.
Proof.
  intros Hi. apply list_insert_id. unfold vertex.
  destruct (lookup_lt_is_Some_2 V (Z.to_nat i) Hi) as [row Hrow].
  rewrite Hrow. f_equal. symmetry. now apply nth_lookup_Some.
Qed.

Lemma Forall_insert_row (V : list (list D)) (n i : nat) (row : list D) :
  Forall (fun r => length r = n) V -> length row = n ->
  Forall (fun r => length r = n) (<[i := row]> V).
Proof. intros HV Hrow. now apply Forall_insert. Qed.

(** Overwriting row [i] of the simplex coordinate by coordinate. *)
Lemma fill_vertex fuel s (i : Z) (h : Z -> D) (cond : Z -> bool)
    (body : Z -> NelderMead D -> outcome (NelderMead D)) :
  wf s -> 0 <= i <= size s ->
  (forall j, 0 <= j < size s -> cond j = true) ->
  cond (size s) = false ->
  (forall j b, 0 <= j < size s ->
     b = partly j h (vertex (v s) i) ->
     body j (set_v (<[Z.to_nat i := b]> (v s)) s)
     = Ok (set_v (<[Z.to_nat i := <[Z.to_nat j := h j]> b]> (v s)) s)) ->
  (Z.to_nat (size s + 1) < fuel)%nat ->
  for_loop fuel cond body 0 s
  = Ok (set_v (<[Z.to_nat i := tabulate (size s) h]> (v s)) s).
Proof.
  intros Hwf Hi Hcond Hend Hbody Hfuel. destruct Hwf.
  pose (get := fun s' : NelderMead D => vertex (v s') i).
  pose (set := fun (r : list D) (s' : NelderMead D) =>
                 set_v (<[Z.to_nat i := r]> (v s)) s').
  assert (Hget : get s = vertex (v s) i) by reflexivity.
  assert (Hset : forall r, set r s = set_v (<[Z.to_nat i := r]> (v s)) s) by reflexivity.
  rewrite <- Hset.
  apply (for_fill get set); try lia; try assumption.
  - rewrite Hget. rewrite (length_vertex _ (Z.to_nat (size s))); (assumption || lia).
  - rewrite Hset, Hget, insert_vertex_id by lia. now destruct s.
  - intros j Hj. rewrite !Hset, Hget. now apply Hbody.
Qed.

Lemma set_vertex_coord_row s (V : list (list D)) (i j : Z) (b : list D) (x : D) :
  (Z.to_nat i < length V)%nat -> (Z.to_nat j < length b)%nat ->
  set_vertex_coord i j x (set_v (<[Z.to_nat i := b]> V) s)
  = Ok (set_v (<[Z.to_nat i := <[Z.to_nat j := x]> b]> V) s).
Proof.
  intros Hi Hj. unfold set_vertex_coord, put2. cbn [v set_v].
  rewrite vertex_at by (rewrite length_insert; lia). cbn [bind].
  rewrite vertex_insert_eq by lia.
  rewrite put_ok by lia. cbn [bind].
  rewrite put_ok by (rewrite length_insert; lia). cbn [bind].
  rewrite list_insert_insert_eq. reflexivity.
Qed.

Lemma replace_worst_closed fuel (src : NelderMead D -> list D) (fx : D) s :
  wf s -> 1 <= size s -> (Z.to_nat (size s + 1) < fuel)%nat ->
  (forall V s', src (set_v V s') = src s') ->
  length (src s) = Z.to_nat (size s) ->
  replace_worst fuel src fx s = Ok (replace_worst_fn src fx s).
Proof.
  intros Hwf H1 Hfuel Hsrc Hlen. pose proof (u32_pred_size s Hwf H1) as Hpred.
  pose proof Hwf as Hwf'. destruct Hwf'.
  unfold replace_worst, replace_worst_fn.
  eapply bind_ok.
  { apply (fill_vertex fuel s (vg s) (val (src s))); try assumption; try lia.
    intros j b Hj Hb. rewrite Hsrc. cbn [vg set_v].
    rewrite val_at by lia. cbn [bind].
    apply set_vertex_coord_row; [lia|].
    rewrite Hb, length_partly; rewrite ?(length_vertex _ (Z.to_nat (size s)));
      (assumption || lia). }
  cbn [f vg set_v]. rewrite put_ok by lia. cbn [bind].
  unfold val. rewrite tabulate_nth by lia. reflexivity.
Qed.

Lemma tabulate_vertex {B : Type} (g : list D -> B) (V : list (list D)) (n : Z) :
  length V = Z.to_nat n -> 0 <= n ->
  tabulate n (fun i => g (vertex V i)) = g <$> V.
Proof.
  intros Hl Hn.
  transitivity (g <$> tabulate n (fun i => nth (Z.to_nat i) V [])).
  - unfold tabulate. now rewrite <- list_fmap_compose.
  - now rewrite tabulate_nth.
Qed.

Lemma evaluate_all_closed fuel (from : site) s :
  wf s -> (Z.to_nat (size s + 1) < fuel)%nat ->
  evaluate_all fuel from s = Ok (evaluate_all_fn from s).
Proof.
  intros Hwf Hfuel. destruct Hwf. unfold evaluate_all, evaluate_all_fn.
  pose (h := fun i => evalFunc s (vertex (v s) i)).
  pose (st := fun j =>
          set_f (partly j h (f s))
            (set_evalLog (replicate (Z.to_nat j) from ++ evalLog s)
               (set_evalCount (u32 (evalCount s + j)) s))).
  apply (for_loop_between st _ _ fuel 0 (size s + 1)); try lia.
  - unfold st. rewrite partly_0, Z.add_0_r, u32_small by lia. now destruct s.
  - unfold st. rewrite partly_all by lia. unfold h.
    rewrite tabulate_vertex by lia. reflexivity.
  - intros j Hj. split; [lia|].
    unfold st. cbn [v f set_f set_evalLog set_evalCount].
    rewrite vertex_at by lia. cbn [bind].
    cbn [doEvaluate evalFunc evalCount evalLog f set_f set_evalLog set_evalCount].
    rewrite put_ok by (rewrite length_partly; lia). cbn [bind].
    change (evalFunc s (vertex (v s) j)) with (h j).
    rewrite insert_partly by lia.
    rewrite u32_add_l, Z.add_assoc.
    replace (Z.to_nat (j + 1)) with (S (Z.to_nat j)) by lia.
    reflexivity.
Qed.

Lemma constrain_vertex_closed (c : list D -> list D) (i : Z) s :
  (Z.to_nat i < length (v s))%nat ->
  constrain_vertex c i s = Ok (set_v (<[Z.to_nat i := c (vertex (v s) i)]> (v s)) s).
Proof.
  intros Hi. unfold constrain_vertex.
  rewrite vertex_at by lia. cbn [bind]. rewrite put_ok by lia. reflexivity.
Qed.

Lemma reconstrain_vertex_closed (from : site) (i : Z) s :
  wf s -> 0 <= i <= size s ->
  reconstrain_vertex from i s = Ok (reconstrain_vertex_fn from i s).
Proof.
  intros Hwf Hi. destruct Hwf. unfold reconstrain_vertex, reconstrain_vertex_fn, constrain.
  destruct (constrainFunc s) as [c|] eqn:Hc.
  - rewrite constrain_vertex_closed by lia. cbn [bind v set_v].
    rewrite vertex_at by (rewrite length_insert; lia). cbn [bind].
    rewrite vertex_insert_eq by lia.
    cbn [doEvaluate evalFunc evalCount evalLog f set_f set_v set_evalLog set_evalCount].
    rewrite put_ok by lia. reflexivity.
  - cbn [bind]. rewrite vertex_at by lia. cbn [bind].
    cbn [doEvaluate evalFunc evalCount evalLog f set_f set_v set_evalLog set_evalCount].
    rewrite put_ok by lia. cbn [bind].
    rewrite insert_vertex_id by lia. now destruct s.
Qed.

(** *** The class invariant under updates *)

Lemma wf_set_v s (V : list (list D)) :
  wf s -> length V = Z.to_nat (size s + 1) ->
  Forall (fun row => length row = Z.to_nat (size s)) V -> wf (set_v V s).
Proof. intros [] HV Hrows. now constructor. Qed.

Lemma wf_set_f s (F : list D) :
  wf s -> length F = Z.to_nat (size s + 1) -> wf (set_f F s).
Proof. intros [] HF. now constructor. Qed.

Lemma wf_set_vr s (x : list D) : wf s -> length x = Z.to_nat (size s) -> wf (set_vr x s).
Proof. intros [] Hx. now constructor. Qed.

Lemma wf_set_ve s (x : list D) : wf s -> length x = Z.to_nat (size s) -> wf (set_ve x s).
Proof. intros [] Hx. now constructor. Qed.

Lemma wf_set_vc s (x : list D) : wf s -> length x = Z.to_nat (size s) -> wf (set_vc x s).
Proof. intros [] Hx. now constructor. Qed.

Lemma wf_set_vm s (x : list D) : wf s -> length x = Z.to_nat (size s) -> wf (set_vm x s).
Proof. intros [] Hx. now constructor. Qed.

Lemma wf_set_vs s (i : Z) : wf s -> 0 <= i <= size s -> wf (set_vs i s).
Proof. intros [] Hi. now constructor. Qed.

Lemma wf_set_vh s (i : Z) : wf s -> 0 <= i <= size s -> wf (set_vh i s).
Proof. intros [] Hi. now constructor. Qed.

Lemma wf_set_vg s (i : Z) : wf s -> 0 <= i <= size s -> wf (set_vg i s).
Proof. intros [] Hi. now constructor. Qed.

Lemma wf_set_evalCount s (n : Z) : wf s -> wf (set_evalCount (u32 n) s).
Proof. intros []. constructor; try assumption. apply u32_range. Qed.

Lemma wf_set_evalLog s (l : list site) : wf s -> wf (set_evalLog l s).
Proof. intros []. now constructor. Qed.

Lemma wf_set_branchLog s (l : list branch) : wf s -> wf (set_branchLog l s).
Proof. intros []. now constructor. Qed.

Lemma wf_set_lastExecResults s (r : NelderMeadResults D) :
  wf s -> wf (set_lastExecResults r s).
Proof. intros []. now constructor. Qed.

Lemma wf_doEvaluate (from : site) (x : list D) s : wf s -> wf (snd (doEvaluate from x s)).
Proof.
  intros Hwf. unfold doEvaluate. cbn [snd].
  apply wf_set_evalLog. now apply wf_set_evalCount.
Qed.

(** *** The shrink *)

Lemma vertex_partly_old (j k : Z) (h : Z -> list D) (V : list (list D)) :
  0 <= j <= k -> vertex (partly j h V) k = vertex V k.
Proof. apply nth_partly_old. Qed.

Lemma vertex_partly_new (j k : Z) (h : Z -> list D) (V : list (list D)) :
  0 <= k < j -> vertex (partly j h V) k = h k.
Proof. apply nth_partly_new. Qed.

Lemma Forall_tabulate {B : Type} (P : B -> Prop) (n : Z) (h : Z -> B) :
  (forall j, 0 <= j < n -> P (h j)) -> Forall P (tabulate n h).
Proof.
  intros Hh. unfold tabulate. apply Forall_fmap, Forall_forall.
  intros j Hj. apply elem_of_seqZ in Hj. apply Hh. lia.
Qed.

Lemma Forall_partly {B : Type} (P : B -> Prop) (j : Z) (h : Z -> B) (b0 : list B) :
  (forall k, 0 <= k < j -> P (h k)) -> Forall P b0 -> Forall P (partly j h b0).
Proof.
  intros Hh Hb. unfold partly. apply Forall_app. split.
  - now apply Forall_tabulate.
  - now apply Forall_drop.
Qed.

Lemma length_halve_towards (best row : list D) (N : Z) :
  length (halve_towards best row N) = Z.to_nat N.
Proof. apply length_tabulate. Qed.

Lemma shrink_rows_closed fuel s :
  wf s -> 1 <= size s -> (Z.to_nat (size s + 1) < fuel)%nat ->
  for_loop fuel (fun row => (row <=? size s)%Z)
    (fun row s =>
       if negb (row =? vs s)%Z then
         for_loop fuel (fun j => (j <=? u32 (size s - 1))%Z)
           (fun j s =>
              a <- at2 (v s) (vs s) j ;;
              b <- at2 (v s) row j ;;
              set_vertex_coord row j (a + (b - a) / dof 2)%D s)
           0%Z s
       else Ok s)
    0%Z s
  = Ok (set_v (shrink_rows (v s) (size s) (vs s)) s).
Proof.
  intros Hwf H1 Hfuel. pose proof (u32_pred_size s Hwf H1) as Hpred.
  pose proof Hwf as Hwf'. destruct Hwf'.
  unfold shrink_rows.
  set (h := fun row => if negb (row =? vs s)%Z
                       then halve_towards (vertex (v s) (vs s)) (vertex (v s) row) (size s)
                       else vertex (v s) row).
  assert (Hh : forall k, 0 <= k <= size s -> length (h k) = Z.to_nat (size s)).
  { intros k Hk. unfold h. destruct (negb (k =? vs s)%Z).
    - apply length_halve_towards.
    - apply (length_vertex _ (Z.to_nat (size s))); (assumption || lia). }
  apply (for_fill v set_v h); try lia.
  - now destruct s.
  - intros row Hrow. cbn [vs v size set_v].
    set (b := partly row h (v s)).
    assert (Hlb : length b = Z.to_nat (size s + 1))
      by (unfold b; rewrite length_partly; lia).
    assert (Hold : vertex b row = vertex (v s) row)
      by (apply vertex_partly_old; lia).
    destruct (row =? vs s)%Z eqn:Hrv; cbn [negb].
    + (* the best vertex stays *)
      do 2 f_equal. symmetry. replace (h row) with (vertex b row).
      * apply insert_vertex_id. lia.
      * rewrite Hold. unfold h. now rewrite Hrv.
    + assert (Hwfb : wf (set_v b s)).
      { apply wf_set_v; [assumption|exact Hlb|].
        apply Forall_partly; [|assumption]. intros k Hk. apply Hh. lia. }
      assert (Hbest : vertex b (vs s) = vertex (v s) (vs s)).
      { destruct (Z.lt_ge_cases (vs s) row).
        - unfold b. rewrite vertex_partly_new by lia. unfold h.
          now rewrite Z.eqb_refl.
        - apply vertex_partly_old. lia. }
      pose (h' := fun j => (val (vertex (v s) (vs s)) j
                            + (val (vertex (v s) row) j - val (vertex (v s) (vs s)) j)
                              / dof 2)%D).
      rewrite (fill_vertex fuel (set_v b s) row h'); try assumption;
        cbn [size v vs set_v]; try lia.
      * unfold h. rewrite Hrv. reflexivity.
      * intros j b' Hj Hb'.
        assert (Hlb' : length b' = Z.to_nat (size s)).
        { assert (length (vertex (v s) row) = Z.to_nat (size s))
            by (apply (length_vertex _ (Z.to_nat (size s))); (assumption || lia)).
          rewrite Hb', length_partly; rewrite ?Hold; lia. }
        unfold at2.
        rewrite !vertex_at by (rewrite length_insert; lia). cbn [bind].
        rewrite vertex_insert_ne by lia.
        rewrite vertex_insert_eq by lia.
        rewrite Hbest.
        rewrite !val_at by (rewrite ?(length_vertex _ (Z.to_nat (size s))); (assumption || lia)).
        cbn [bind].
        replace (val b' j) with (val (vertex (v s) row) j).
        2:{ rewrite Hb', Hold. unfold val. symmetry. apply nth_partly_old. lia. }
        apply (set_vertex_coord_row s b); lia.
Qed.

(** *** Readiness is kept by every step *)

Lemma ready_intro s s' :
  ready s -> wf s' -> size s' = size s -> constrainFunc s' = constrainFunc s -> ready s'.
Proof.
  intros (Hwf & H1 & Hlp) Hwf' Hsize Hc. unfold ready, length_preserving.
  rewrite Hsize, Hc. auto.
Qed.

Lemma length_constrain (x : list D) s : length_preserving s -> length (constrain x s) = length x.
Proof.
  unfold length_preserving, constrain. destruct (constrainFunc s); auto.
Qed.

Lemma ready_doIndexes_fn s : ready s -> ready (doIndexes_fn s).
Proof.
  intros Hr. apply (ready_intro s); try reflexivity; try assumption.
  destruct Hr as (Hwf & _). pose proof Hwf as Hwf'. destruct Hwf'.
  unfold doIndexes_fn.
  destruct (worst_best_range (f s) (size s) (size s + 1) (vg s) (vs s)) as [Hg Hs];
    try lia. cbv zeta in Hg, Hs.
  apply wf_set_vh; [apply wf_set_vs; [apply wf_set_vg|]|]; try assumption.
  unfold second, worst_best. cbn [size set_vs set_vg].
  apply second_range; (assumption || lia).
Qed.

Lemma ready_centroid_fn s : ready s -> ready (centroid_fn s).
Proof.
  intros Hr. apply (ready_intro s); try reflexivity; try assumption.
  destruct Hr as (Hwf & _). apply wf_set_vm; [assumption|]. apply length_tabulate.
Qed.

Lemma ready_reflect_fn s : ready s -> ready (reflect_fn s).
Proof.
  intros Hr. apply (ready_intro s); try reflexivity; try assumption.
  destruct Hr as (Hwf & _). apply wf_set_vr; [assumption|]. apply length_tabulate.
Qed.

Lemma ready_expand_fn s : ready s -> ready (expand_fn s).
Proof.
  intros Hr. apply (ready_intro s); try reflexivity; try assumption.
  destruct Hr as (Hwf & _). apply wf_set_ve; [assumption|]. apply length_tabulate.
Qed.

Lemma ready_contract_outside_fn s : ready s -> ready (contract_outside_fn s).
Proof.
  intros Hr. apply (ready_intro s); try reflexivity; try assumption.
  destruct Hr as (Hwf & _). apply wf_set_vc; [assumption|]. apply length_tabulate.
Qed.

Lemma ready_contract_inside_fn s : ready s -> ready (contract_inside_fn s).
Proof.
  intros Hr. apply (ready_intro s); try reflexivity; try assumption.
  destruct Hr as (Hwf & _). apply wf_set_vc; [assumption|]. apply length_tabulate.
Qed.

Lemma ready_constrain_vr s : ready s -> ready (set_vr (constrain (vr s) s) s).
Proof.
  intros Hr. apply (ready_intro s); try reflexivity; try assumption.
  destruct Hr as (Hwf & _ & Hlp). apply wf_set_vr; [assumption|].
  rewrite length_constrain by assumption. now destruct Hwf.
Qed.

Lemma ready_constrain_ve s : ready s -> ready (set_ve (constrain (ve s) s) s).
Proof.
  intros Hr. apply (ready_intro s); try reflexivity; try assumption.
  destruct Hr as (Hwf & _ & Hlp). apply wf_set_ve; [assumption|].
  rewrite length_constrain by assumption. now destruct Hwf.
Qed.

Lemma ready_constrain_vc s : ready s -> ready (set_vc (constrain (vc s) s) s).
Proof.
  intros Hr. apply (ready_intro s); try reflexivity; try assumption.
  destruct Hr as (Hwf & _ & Hlp). apply wf_set_vc; [assumption|].
  rewrite length_constrain by assumption. now destruct Hwf.
Qed.

Lemma ready_doEvaluate (from : site) (x : list D) s :
  ready s -> ready (snd (doEvaluate from x s)).
Proof.
  intros Hr. apply (ready_intro s); try reflexivity; try assumption.
  apply wf_doEvaluate. now destruct Hr.
Qed.

Lemma ready_set_branchLog (l : list branch) s : ready s -> ready (set_branchLog l s).
Proof.
  intros Hr. apply (ready_intro s); try reflexivity; try assumption.
  apply wf_set_branchLog. now destruct Hr.
Qed.


Lemma scratch_vr : scratch (@vr D).
Proof. split; [reflexivity | now intros s []]. Qed.

Lemma scratch_ve : scratch (@ve D).
Proof. split; [reflexivity | now intros s []]. Qed.

Lemma scratch_vc : scratch (@vc D).
Proof. split; [reflexivity | now intros s []]. Qed.

Lemma replace_worst_ok fuel (src : NelderMead D -> list D) (fx : D) s :
  scratch src -> ready s -> enough fuel s ->
  replace_worst fuel src fx s = Ok (replace_worst_fn src fx s).
Proof.
  intros [Hframe Hlen] (Hwf & H1 & _) Hfuel.
  apply replace_worst_closed; auto.
Qed.

Lemma enough_same fuel s s' : size s' = size s -> enough fuel s -> enough fuel s'.
Proof. unfold enough. now intros ->. Qed.

Lemma ready_replace_worst_fn (src : NelderMead D -> list D) (fx : D) s :
  scratch src -> ready s -> ready (replace_worst_fn src fx s).
Proof.
  intros [_ Hlen] Hr. apply (ready_intro s); try reflexivity; try assumption.
  destruct Hr as (Hwf & _). pose proof Hwf as Hwf'. destruct Hwf'.
  unfold replace_worst_fn.
  apply wf_set_f; [apply wf_set_v|]; try assumption; cbn [size set_v];
    rewrite ?length_insert; try assumption.
  apply Forall_insert_row; [assumption|]. now apply Hlen.
Qed.

Lemma ready_evaluate_all_fn (from : site) s : ready s -> ready (evaluate_all_fn from s).
Proof.
  intros Hr. apply (ready_intro s); try reflexivity; try assumption.
  destruct Hr as (Hwf & _). pose proof Hwf as Hwf'. destruct Hwf'.
  unfold evaluate_all_fn.
  apply wf_set_f; [apply wf_set_evalLog, wf_set_evalCount; assumption|].
  cbn [size set_evalLog set_evalCount]. now rewrite length_fmap.
Qed.

Lemma ready_reconstrain_vertex_fn (from : site) (i : Z) s :
  ready s -> 0 <= i <= size s -> ready (reconstrain_vertex_fn from i s).
Proof.
  intros Hr Hi. apply (ready_intro s); try reflexivity; try assumption.
  destruct Hr as (Hwf & _ & Hlp). pose proof Hwf as Hwf'. destruct Hwf'.
  unfold reconstrain_vertex_fn.
  apply wf_set_f; [apply wf_set_evalLog, wf_set_evalCount, wf_set_v|];
    try assumption; cbn [size set_v set_evalLog set_evalCount];
    rewrite ?length_insert; try assumption.
  apply Forall_insert_row; [assumption|].
  rewrite length_constrain by assumption.
  apply (length_vertex _ (Z.to_nat (size s))); (assumption || lia).
Qed.

Lemma ready_shrink_rows s :
  ready s -> ready (set_v (shrink_rows (v s) (size s) (vs s)) s).
Proof.
  intros Hr. apply (ready_intro s); try reflexivity; try assumption.
  destruct Hr as (Hwf & _). pose proof Hwf as Hwf'. destruct Hwf'.
  apply wf_set_v; [assumption| |]; unfold shrink_rows.
  - apply length_tabulate.
  - apply Forall_tabulate. intros k Hk. destruct (negb (k =? vs s)%Z).
    + apply length_halve_towards.
    + apply (length_vertex _ (Z.to_nat (size s))); (assumption || lia).
Qed.

Lemma vg_range s : ready s -> 0 <= vg s <= size s.
Proof. now intros ([] & _). Qed.

Lemma vh_range s : ready s -> 0 <= vh s <= size s.
Proof. now intros ([] & _). Qed.

Lemma vs_range s : ready s -> 0 <= vs s <= size s.
Proof. now intros ([] & _). Qed.

Lemma ready_shrink_fn s : ready s -> ready (shrink_fn s).
Proof.
  intros Hr. unfold shrink_fn. cbv zeta.
  apply ready_reconstrain_vertex_fn; [|apply vh_range];
    (apply ready_reconstrain_vertex_fn; [|apply vg_range]);
    apply ready_doIndexes_fn, ready_evaluate_all_fn;
    apply (ready_shrink_rows (set_branchLog _ s)), ready_set_branchLog, Hr.
Qed.

Lemma ready_accept_reflection_fn (fr : D) s : ready s -> ready (accept_reflection_fn fr s).
Proof.
  intros Hr. unfold accept_reflection_fn.
  destruct (_ && _); [|assumption].
  apply ready_replace_worst_fn; [apply scratch_vr|]. now apply ready_set_branchLog.
Qed.

Lemma ready_expansion_fn (fr : D) s : ready s -> ready (expansion_fn fr s).
Proof.
  intros Hr. unfold expansion_fn.
  destruct (fr <? _)%D; [|assumption]. cbv zeta.
  set (s1 := set_ve _ _).
  assert (Hr1 : ready s1).
  { apply ready_constrain_ve, ready_expand_fn, ready_set_branchLog, Hr. }
  pose proof (ready_doEvaluate ExpansionEval (ve s1) s1 Hr1) as Hr2.
  destruct (doEvaluate ExpansionEval (ve s1) s1) as [fe s2]. cbn [snd] in Hr2.
  destruct (fe <? fr)%D; apply ready_replace_worst_fn;
    (apply scratch_ve || apply scratch_vr || assumption).
Qed.

Lemma ready_contraction_fn (fr : D) s : ready s -> ready (contraction_fn fr s).
Proof.
  intros Hr. unfold contraction_fn.
  destruct (fr >=? _)%D; [|assumption]. cbv zeta.
  set (s1 := set_vc _ _).
  assert (Hr1 : ready s1).
  { apply ready_constrain_vc.
    destruct (_ && _); [apply ready_contract_outside_fn | apply ready_contract_inside_fn];
      apply ready_set_branchLog, Hr. }
  pose proof (ready_doEvaluate ContractionEval (vc s1) s1 Hr1) as Hr2.
  destruct (doEvaluate ContractionEval (vc s1) s1) as [fc s2]. cbn [snd] in Hr2.
  destruct (fc <? _)%D.
  - apply ready_replace_worst_fn; [apply scratch_vc | assumption].
  - now apply ready_shrink_fn.
Qed.

Lemma ready_iteration_fn s : ready s -> ready (iteration_fn s).
Proof.
  intros Hr. unfold iteration_fn, accepted_fn, reflected_fn. cbv zeta.
  set (s1 := set_branchLog _ _).
  assert (Hr1 : ready s1).
  { apply ready_set_branchLog, ready_constrain_vr, ready_reflect_fn, ready_centroid_fn,
      ready_doIndexes_fn, Hr. }
  pose proof (ready_doEvaluate ReflectionEval (vr s1) s1 Hr1) as Hr2.
  destruct (doEvaluate ReflectionEval (vr s1) s1) as [fr s2]. cbn [snd] in Hr2.
  now apply ready_contraction_fn, ready_expansion_fn, ready_accept_reflection_fn.
Qed.

(** *** No step touches the dimension, the callbacks or the configuration *)

Lemma same_setup_refl s : same_setup s s.
Proof. repeat split. Qed.

Lemma same_setup_trans s1 s2 s3 : same_setup s1 s2 -> same_setup s2 s3 -> same_setup s1 s3.
Proof.
  unfold same_setup. intros (?&?&?&?&?&?&?) (?&?&?&?&?&?&?).
  repeat split; congruence.
Qed.

Lemma same_setup_sym s1 s2 : same_setup s1 s2 -> same_setup s2 s1.
Proof. unfold same_setup. intros (?&?&?&?&?&?&?). repeat split; congruence. Qed.

Lemma setup_doEvaluate (from : site) (x : list D) s :
  same_setup s (snd (doEvaluate from x s)).
Proof. repeat split. Qed.

Lemma setup_replace_worst_fn (src : NelderMead D -> list D) (fx : D) s :
  same_setup s (replace_worst_fn src fx s).
Proof. repeat split. Qed.

Lemma setup_shrink_fn s : same_setup s (shrink_fn s).
Proof. repeat split. Qed.

Lemma setup_accept_reflection_fn (fr : D) s : same_setup s (accept_reflection_fn fr s).
Proof. unfold accept_reflection_fn. destruct (_ && _); repeat split. Qed.

Lemma setup_expansion_fn (fr : D) s : same_setup s (expansion_fn fr s).
Proof.
  unfold expansion_fn. destruct (fr <? _)%D; [|apply same_setup_refl].
  cbv zeta. cbn [doEvaluate].
  match goal with |- same_setup _ (if ?c then _ else _) => destruct c end; repeat split.
Qed.

Lemma setup_contraction_fn (fr : D) s : same_setup s (contraction_fn fr s).
Proof.
  unfold contraction_fn. destruct (fr >=? _)%D; [|apply same_setup_refl].
  cbv zeta.
  set (s1 := if _ && _ then _ else _).
  assert (H : same_setup s s1) by (unfold s1; destruct (_ && _); repeat split).
  cbn [doEvaluate].
  match goal with |- same_setup _ (if ?c then _ else _) => destruct c end;
    (eapply same_setup_trans; [exact H|]).
  - repeat split.
  - eapply same_setup_trans; [|apply setup_shrink_fn]. repeat split.
Qed.

Lemma setup_iteration_fn s : same_setup s (iteration_fn s).
Proof.
  unfold iteration_fn, accepted_fn, reflected_fn. cbv zeta. cbn [doEvaluate].
  eapply same_setup_trans; [|apply setup_contraction_fn].
  eapply same_setup_trans; [|apply setup_expansion_fn].
  eapply same_setup_trans; [|apply setup_accept_reflection_fn].
  repeat split.
Qed.

(** *** The steps of an iteration *)


Lemma shrink_closed fuel s :
  ready s -> enough fuel s -> shrink fuel s = Ok (shrink_fn s).
Proof.
  intros Hr Hfuel. unfold shrink, shrink_fn. cbv zeta.
  set (s0 := set_branchLog _ s).
  assert (Hr0 : ready s0) by now apply ready_set_branchLog.
  eapply bind_ok.
  { apply shrink_rows_closed; [apply Hr0 | apply Hr0 | exact Hfuel]. }
  set (s1 := set_v _ s0). assert (Hr1 : ready s1) by now apply ready_shrink_rows.
  eapply bind_ok. { apply evaluate_all_closed; [apply Hr1 | exact Hfuel]. }
  set (s2 := evaluate_all_fn _ s1).
  assert (Hr2 : ready s2) by now apply ready_evaluate_all_fn.
  eapply bind_ok. { apply doIndexes_closed; [apply Hr2 | exact Hfuel]. }
  set (s3 := doIndexes_fn s2). assert (Hr3 : ready s3) by now apply ready_doIndexes_fn.
  eapply bind_ok.
  { apply reconstrain_vertex_closed; [apply Hr3 | now apply vg_range]. }
  apply reconstrain_vertex_closed; [|apply vh_range];
    now apply ready_reconstrain_vertex_fn; [|apply vg_range].
Qed.

Lemma accept_reflection_closed fuel (fr : D) s :
  ready s -> enough fuel s ->
  accept_reflection fuel fr s = Ok (accept_reflection_fn fr s).
Proof.
  intros Hr Hfuel. unfold accept_reflection, accept_reflection_fn.
  pose proof Hr as (Hwf & H1 & _). pose proof Hwf as Hwf'. destruct Hwf'.
  rewrite val_at by lia. cbn [bind].
  destruct (fr <? val (f s) (vh s))%D; cbn [andb]; [|reflexivity].
  rewrite val_at by lia. cbn [bind].
  destruct (fr >=? val (f s) (vs s))%D; [|reflexivity].
  apply replace_worst_ok; [apply scratch_vr | now apply ready_set_branchLog | exact Hfuel].
Qed.

Lemma expansion_closed fuel (fr : D) s :
  ready s -> enough fuel s -> expansion fuel fr s = Ok (expansion_fn fr s).
Proof.
  intros Hr Hfuel. unfold expansion, expansion_fn.
  pose proof Hr as (Hwf & H1 & _). pose proof Hwf as Hwf'. destruct Hwf'.
  rewrite val_at by lia. cbn [bind].
  destruct (fr <? val (f s) (vs s))%D; [|reflexivity]. cbv zeta.
  set (s0 := set_branchLog _ s).
  assert (Hr0 : ready s0) by now apply ready_set_branchLog.
  eapply bind_ok. { apply expand_closed; [apply Hr0 | apply Hr0 | exact Hfuel]. }
  set (s1 := set_ve _ _).
  assert (Hr1 : ready s1) by now apply ready_constrain_ve, ready_expand_fn.
  pose proof (ready_doEvaluate ExpansionEval (ve s1) s1 Hr1) as Hr2.
  destruct (doEvaluate ExpansionEval (ve s1) s1) as [fe s2] eqn:He.
  cbn [snd] in Hr2.
  assert (Hs2 : size s2 = size s)
    by (apply (f_equal snd) in He; cbn [snd] in He; now subst s2).
  pose proof (enough_same fuel s s2 Hs2 Hfuel) as Hf2.
  destruct (fe <? fr)%D; apply replace_worst_ok;
    (apply scratch_ve || apply scratch_vr || assumption).
Qed.

Lemma f_at s (i : Z) : ready s -> 0 <= i <= size s -> at_ (f s) i = Ok (val (f s) i).
Proof. intros ([] & _) Hi. apply val_at. lia. Qed.

Lemma contraction_tail fuel (fc : D) s :
  ready s -> enough fuel s ->
  (fvg <- at_ (f s) (vg s) ;;
   if (fc <? fvg)%D then replace_worst fuel vc fc s else shrink fuel s)
  = Ok (if (fc <? val (f s) (vg s))%D then replace_worst_fn vc fc s else shrink_fn s).
Proof.
  intros Hr Hfuel. rewrite f_at by auto using vg_range. cbn [bind].
  destruct (fc <? val (f s) (vg s))%D.
  - now apply replace_worst_ok; [apply scratch_vc | |].
  - now apply shrink_closed.
Qed.

Lemma contraction_closed fuel (fr : D) s :
  ready s -> enough fuel s -> contraction fuel fr s = Ok (contraction_fn fr s).
Proof.
  intros Hr Hfuel. unfold contraction, contraction_fn.
  rewrite f_at by auto using vh_range. cbn [bind].
  destruct (fr >=? val (f s) (vh s))%D eqn:Hge; [|reflexivity]. cbv zeta.
  assert (Hr0 : ready (set_branchLog (Contraction :: branchLog s) s))
    by now apply ready_set_branchLog.
  cbn [f vg vh set_branchLog] in *.
  rewrite f_at by auto using vg_range. cbn [bind].
  rewrite f_at by auto using vh_range. rewrite Hge.
  set (s0 := set_branchLog _ s) in *.
  assert (Hf0 : enough fuel s0) by exact Hfuel.
  destruct (fr <? val (f s) (vg s))%D; cbn [andb bind]; rewrite ?Hge; cbn [andb].
  - eapply bind_ok.
    { apply contract_outside_closed; [apply Hr0 | apply Hr0 | exact Hfuel]. }
    set (s1 := set_vc _ (contract_outside_fn s0)).
    assert (Hr1 : ready s1) by now apply ready_constrain_vc, ready_contract_outside_fn.
    pose proof (ready_doEvaluate ContractionEval (vc s1) s1 Hr1) as Hr2.
    pose proof (setup_doEvaluate ContractionEval (vc s1) s1) as (Hs2 & _).
    destruct (doEvaluate ContractionEval (vc s1) s1) as [fc s2].
    apply contraction_tail; [exact Hr2|]. now apply (enough_same fuel s).
  - eapply bind_ok.
    { apply contract_inside_closed; [apply Hr0 | apply Hr0 | exact Hfuel]. }
    set (s1 := set_vc _ (contract_inside_fn s0)).
    assert (Hr1 : ready s1) by now apply ready_constrain_vc, ready_contract_inside_fn.
    pose proof (ready_doEvaluate ContractionEval (vc s1) s1 Hr1) as Hr2.
    pose proof (setup_doEvaluate ContractionEval (vc s1) s1) as (Hs2 & _).
    destruct (doEvaluate ContractionEval (vc s1) s1) as [fc s2].
    apply contraction_tail; [exact Hr2|]. now apply (enough_same fuel s).
Qed.

Lemma iteration_closed fuel s :
  ready s -> enough fuel s -> iteration fuel s = Ok (iteration_fn s).
Proof.
  intros Hr Hfuel. unfold iteration, iteration_fn, accepted_fn, reflected_fn. cbv zeta.
  eapply bind_ok. { apply doIndexes_closed; [apply Hr | exact Hfuel]. }
  set (s1 := doIndexes_fn s). assert (Hr1 : ready s1) by now apply ready_doIndexes_fn.
  eapply bind_ok. { apply centroid_closed; [apply Hr1 | apply Hr1 | exact Hfuel]. }
  set (s2 := centroid_fn s1). assert (Hr2 : ready s2) by now apply ready_centroid_fn.
  eapply bind_ok. { apply reflect_closed; [apply Hr2 | apply Hr2 | exact Hfuel]. }
  set (s3 := set_branchLog _ _).
  assert (Hr3 : ready s3)
    by now apply ready_set_branchLog, ready_constrain_vr, ready_reflect_fn.
  pose proof (ready_doEvaluate ReflectionEval (vr s3) s3 Hr3) as Hr4.
  destruct (doEvaluate ReflectionEval (vr s3) s3) as [fr s4] eqn:He.
  cbn [snd] in Hr4.
  assert (Hs4 : size s4 = size s)
    by (apply (f_equal snd) in He; cbn [snd] in He; now subst s4).
  assert (Hf4 : enough fuel s4) by (unfold enough in *; now rewrite Hs4).
  eapply bind_ok. { now apply accept_reflection_closed. }
  pose proof (setup_accept_reflection_fn fr s4) as (Hs5 & _).
  eapply bind_ok.
  { apply expansion_closed; [now apply ready_accept_reflection_fn|].
    unfold enough in *. now rewrite <- Hs5. }
  pose proof (setup_expansion_fn fr (accept_reflection_fn fr s4)) as (Hs6 & _).
  apply contraction_closed.
  - now apply ready_expansion_fn, ready_accept_reflection_fn.
  - unfold enough in *. now rewrite <- Hs6, <- Hs5.
Qed.

(** *** Initialisation *)

Lemma fold_left_fmap_list {A B C : Type} (g : A -> B -> A) (h : C -> B) (l : list C) (a : A) :
  fold_left g (h <$> l) a = fold_left (fun a x => g a (h x)) l a.
Proof. revert a. induction l as [|x l IH]; intros a; simpl; [reflexivity|apply IH]. Qed.

Lemma fold_seqZ_val {A : Type} (g : A -> D -> A) (F : list D) (n : Z) (a0 : A) :
  length F = Z.to_nat n -> 0 <= n ->
  fold_left (fun a j => g a (val F j)) (seqZ 0 n) a0 = fold_left g F a0.
Proof.
  intros Hl Hn.
  transitivity (fold_left g (tabulate n (fun j => nth (Z.to_nat j) F (dof 0))) a0).
  - unfold tabulate. now rewrite fold_left_fmap_list.
  - now rewrite tabulate_nth.
Qed.

Lemma fold_snoc_tabulate {B : Type} (h : Z -> B) (n : Z) (l0 : list B) :
  0 <= n -> fold_left (fun l j => l ++ [h j]) (seqZ 0 n) l0 = l0 ++ tabulate n h.
Proof.
  intros Hn. pattern n. apply natlike_ind; [| |exact Hn].
  - simpl. now rewrite app_nil_r.
  - intros x Hx IH. unfold Z.succ. rewrite fold_seqZ_succ, tabulate_succ by lia.
    rewrite IH. now rewrite app_assoc.
Qed.

Lemma length_simplex_of (N : Z) (start : list D) (pn qn : D) :
  length (simplex_of N start pn qn) = Z.to_nat (N + 1).
Proof. apply length_tabulate. Qed.

Lemma rows_simplex_of (N : Z) (start : list D) (pn qn : D) :
  Forall (fun row => length row = Z.to_nat N) (simplex_of N start pn qn).
Proof.
  apply Forall_tabulate. intros i Hi. destruct (i =? 0)%Z; apply length_tabulate.
Qed.

Lemma ready_doInitialize_fn (start : list D) (scale : D) s :
  ready s -> ready (doInitialize_fn start scale s).
Proof.
  intros Hr. apply (ready_intro s); try reflexivity; try assumption.
  destruct Hr as (Hwf & _). destruct Hwf.
  constructor; cbn; try assumption; try lia.
  - apply length_simplex_of.
  - apply rows_simplex_of.
Qed.

Lemma simplex_loops_closed fuel (start : list D) (pn qn : D) s :
  ready s -> enough fuel s -> (Z.to_nat (size s) <= length start)%nat ->
  (s1 <- for_loop fuel (fun i => (i <? size s)%Z)
           (fun i s => x <- at_ start i ;; set_vertex_coord 0 i x s) 0%Z s ;;
   for_loop fuel (fun i => (i <=? size s1)%Z)
     (fun i s =>
        for_loop fuel (fun j => (j <? size s)%Z)
          (fun j s =>
             x <- at_ start j ;;
             if (u32 (i - 1) =? j)%Z then set_vertex_coord i j (pn + x)%D s
             else set_vertex_coord i j (qn + x)%D s)
          0%Z s)
     1%Z s1)
  = Ok (set_v (simplex_of (size s) start pn qn) s).
Proof.
  intros Hr Hfuel Hstart. unfold enough in Hfuel.
  pose proof Hr as (Hwf & H1 & _). pose proof Hwf as Hwf'. destruct Hwf'.
  pose (H := fun i : Z =>
          if (i =? 0)%Z then tabulate (size s) (val start)
          else tabulate (size s)
                 (fun j => ((if (i - 1 =? j)%Z then pn else qn) + val start j)%D)).
  assert (HH : forall k, length (H k) = Z.to_nat (size s)).
  { intros k. unfold H. destruct (k =? 0)%Z; apply length_tabulate. }
  pose (st := fun i => set_v (partly i H (v s)) s).
  assert (Hwfst : forall i, 0 <= i <= size s -> wf (st i)).
  { intros i Hi. apply wf_set_v; [assumption| |].
    - rewrite length_partly; lia.
    - apply Forall_partly; [|assumption]. intros k _. apply HH. }
  eapply bind_ok.
  { apply (fill_vertex fuel s 0 (val start)); try assumption; try lia.
    intros j b Hj Hb. rewrite val_at by lia. cbn [bind].
    apply (set_vertex_coord_row s (v s) 0); [lia|].
    rewrite Hb, length_partly; rewrite ?(length_vertex _ (Z.to_nat (size s)));
      (assumption || lia). }
  cbn [size set_v].
  apply (for_loop_between st _ _ fuel 1 (size s + 1)); try lia.
  - unfold st. rewrite <- (insert_partly 0) by lia. rewrite partly_0.
    unfold H. rewrite Z.eqb_refl. reflexivity.
  - unfold st. rewrite partly_all by lia. reflexivity.
  - intros i Hi. split; [lia|].
    pose (h := fun j => ((if (i - 1 =? j)%Z then pn else qn) + val start j)%D).
    assert (Hsi : size (st i) = size s) by reflexivity.
    assert (HHi : H i = tabulate (size s) h).
    { unfold H. destruct (i =? 0)%Z eqn:E; [lia|reflexivity]. }
    rewrite (fill_vertex fuel (st i) i h).
    + rewrite Hsi. unfold st. cbn [v set_v].
      rewrite <- insert_partly by lia. rewrite HHi. reflexivity.
    + apply Hwfst; lia.
    + rewrite Hsi. lia.
    + rewrite Hsi. intros j Hj. lia.
    + rewrite Hsi. lia.
    + rewrite Hsi. intros j b Hj Hb. rewrite val_at by lia. cbn [bind].
      rewrite u32_small by lia.
      assert (Hlb : (Z.to_nat j < length b)%nat).
      { rewrite Hb. unfold st. cbn [v set_v].
        rewrite length_partly; rewrite ?vertex_partly_old by lia;
          rewrite ?(length_vertex _ (Z.to_nat (size s))); (assumption || lia). }
      unfold st. cbn [v set_v].
      assert (Hli : (Z.to_nat i < length (partly i H (v s)))%nat)
        by (rewrite length_partly; lia).
      unfold h.
      destruct (i - 1 =? j)%Z;
        apply (set_vertex_coord_row (set_v (partly i H (v s)) s) (partly i H (v s)) i);
        assumption.
    + rewrite Hsi. exact Hfuel.
Qed.

Lemma doInitialize_closed fuel (start : list D) (scale : D) s :
  ready s -> enough fuel s -> (Z.to_nat (size s) <= length start)%nat ->
  doInitialize fuel start scale s = Ok (doInitialize_fn start scale s).
Proof.
  intros Hr Hfuel Hstart. unfold doInitialize, doInitialize_fn. cbv zeta.
  cbn [size set_vg set_vh set_vs set_evalLog set_branchLog set_evalCount].
  rewrite (u32_small (size s + 1)) by (destruct Hr as ([] & _); lia).
  apply (simplex_loops_closed fuel start _ _
           (set_vg 0 (set_vh 0 (set_vs 0 (set_evalLog [] (set_branchLog []
              (set_evalCount 0 s))))))).
  - apply (ready_intro s); try reflexivity; try assumption.
    destruct Hr as (Hwf & _). destruct Hwf. constructor; cbn; try assumption; lia.
  - exact Hfuel.
  - exact Hstart.
Qed.

Lemma ready_constrain_all (c : list D -> list D) s :
  ready s -> constrainFunc s = Some c -> ready (set_v (c <$> v s) s).
Proof.
  intros Hr Hc. apply (ready_intro s); try reflexivity; try assumption.
  destruct Hr as (Hwf & _ & Hlp). unfold length_preserving in Hlp. rewrite Hc in Hlp.
  pose proof Hwf as Hwf'. destruct Hwf'.
  apply wf_set_v; [assumption|now rewrite length_fmap|].
  apply Forall_fmap. eapply Forall_impl; [eassumption|].
  intros row Hrow. cbn. now rewrite Hlp.
Qed.

Lemma ready_exec_begin_fn (start : list D) (scale : D) s :
  ready s -> ready (exec_begin_fn start scale s).
Proof.
  intros Hr. unfold exec_begin_fn. cbv zeta.
  apply ready_evaluate_all_fn.
  pose proof (ready_doInitialize_fn start scale s Hr) as Hr1.
  destruct (constrainFunc (doInitialize_fn start scale s)) eqn:Hc; [|assumption].
  now apply ready_constrain_all.
Qed.

Lemma exec_begin_closed fuel (start : list D) (scale : D) s :
  ready s -> enough fuel s -> (Z.to_nat (size s) <= length start)%nat ->
  exec_begin fuel start scale s = Ok (exec_begin_fn start scale s).
Proof.
  intros Hr Hfuel Hstart. unfold exec_begin, exec_begin_fn. cbv zeta.
  eapply bind_ok. { now apply doInitialize_closed. }
  assert (Hr1 : ready (doInitialize_fn start scale s)) by now apply ready_doInitialize_fn.
  assert (Hf1 : enough fuel (doInitialize_fn start scale s)) by exact Hfuel.
  generalize dependent (doInitialize_fn start scale s). intros s1 Hr1 Hf1.
  destruct (constrainFunc s1) as [c|] eqn:Hc.
  - eapply bind_ok.
    2:{ apply evaluate_all_closed; [|exact Hf1]. now apply (ready_constrain_all c s1). }
    pose proof Hr1 as (Hwf1 & _). pose proof Hwf1 as Hwf1'. destruct Hwf1'.
    rewrite <- (tabulate_vertex c (v s1) (size s1 + 1)) by lia.
    apply (for_fill v set_v); try lia.
    + now destruct s1.
    + intros j Hj.
      rewrite constrain_vertex_closed by (cbn [v set_v]; rewrite length_partly; lia).
      cbn [v set_v]. rewrite vertex_partly_old by lia. reflexivity.
    + exact Hf1.
  - cbn [bind]. apply evaluate_all_closed; [apply Hr1 | exact Hf1].
Qed.

(** *** The convergence test and the end of a run *)

Lemma converged_closed fuel (tolerancee : D) s :
  ready s -> enough fuel s ->
  converged fuel tolerancee s = Ok (spread (f s) (size s) <? tolerancee)%D.
Proof.
  intros Hr Hfuel. pose proof Hr as (Hwf & _). destruct Hwf.
  unfold enough in Hfuel. unfold converged, spread, mean.
  eapply bind_ok.
  { apply (for_accumulate (fun fsum j => (fsum + val (f s) j)%D) _ _ fuel (size s + 1));
      try lia.
    intros j a Hj. rewrite val_at by lia. reflexivity. }
  rewrite fold_seqZ_val by lia. rewrite (u32_small (size s + 1)) by lia.
  set (favg := (fold_left dadd (f s) (dof 0) / dof (size s + 1))%D).
  eapply bind_ok.
  { apply (for_accumulate
             (fun acc j => (acc + dpow (val (f s) j - favg) (dof 2) / dof (size s))%D)
             _ _ fuel (size s + 1)); try lia.
    intros j a Hj. rewrite val_at by lia. reflexivity. }
  rewrite (fold_seqZ_val (fun acc fj => (acc + dpow (fj - favg) (dof 2) / dof (size s))%D))
    by lia.
  reflexivity.
Qed.

Lemma exec_end_closed fuel (iterationCount : Z) s :
  ready s -> enough fuel s ->
  exec_end fuel iterationCount s = Ok (exec_end_fn iterationCount s).
Proof.
  intros Hr Hfuel. unfold exec_end, exec_end_fn. cbv zeta.
  eapply bind_ok. { apply doIndexes_closed; [apply Hr | exact Hfuel]. }
  set (s1 := doIndexes_fn s). assert (Hr1 : ready s1) by now apply ready_doIndexes_fn.
  pose proof Hr1 as (Hwf1 & H1 & _). pose proof Hwf1 as Hwf1'. destruct Hwf1'.
  rewrite vertex_at by lia. cbn [bind].
  cbn [doEvaluate v vs size set_evalLog set_evalCount].
  eapply bind_ok.
  { apply (for_accumulate (fun values j => values ++ [coord (v s1) (vs s1) j])
             _ _ fuel (size s1)); try lia.
    - intros j a Hj.
      rewrite (coord_at _ (Z.to_nat (size s1))) by (assumption || lia). reflexivity.
    - unfold enough in Hfuel. change (size s1) with (size s). lia. }
  rewrite fold_snoc_tabulate by lia. cbn [app].
  unfold coord, val. rewrite tabulate_nth; [reflexivity| |lia].
  apply (length_vertex _ (Z.to_nat (size s1))); (assumption || lia).
Qed.

End Loops.

(** ** The loop of [exec] *)

Section Run.
Context {D : Type} {ops : DoubleOps D}.
Implicit Types s : NelderMead D.

Lemma size_iteration_fn s : size (iteration_fn s) = size s.
Proof. symmetry. apply setup_iteration_fn. Qed.

Lemma max_iteration_fn s : configMaxIterations (iteration_fn s) = configMaxIterations s.
Proof. symmetry. apply setup_iteration_fn. Qed.

Lemma exec_loop_closed (n fuel : nat) (tol : D) (ic : Z) s :
  ready s -> enough fuel s ->
  exec_loop n fuel tol ic s = exec_loop_fn n tol ic s.
Proof.
  revert ic s. induction n as [|n IH]; intros ic s Hr Hfuel; [reflexivity|].
  cbn [exec_loop exec_loop_fn]. cbv zeta.
  destruct (u32 (ic + 1) <=? configMaxIterations s)%Z; [|reflexivity].
  rewrite iteration_closed by assumption. cbn [bind].
  assert (Hr' : ready (iteration_fn s)) by now apply ready_iteration_fn.
  assert (Hf' : enough fuel (iteration_fn s))
    by (apply (enough_same fuel s); [apply size_iteration_fn | assumption]).
  rewrite converged_closed by assumption. cbn [bind].
  destruct (spread _ _ <? tol)%D; [reflexivity|]. now apply IH.
Qed.

Lemma setup_exec_begin_fn (start : list D) (scale : D) s :
  same_setup s (exec_begin_fn start scale s).
Proof.
  unfold exec_begin_fn. cbv zeta.
  destruct (constrainFunc (doInitialize_fn start scale s)); repeat split.
Qed.

Lemma exec_tail_closed (n fuel : nat) (tol : D) (ic : Z) s :
  ready s -> enough fuel s ->
  (p <- exec_loop_fn n tol ic s ;; exec_end fuel (fst p) (snd p))
  = (p <- exec_loop_fn n tol ic s ;; Ok (exec_end_fn (fst p) (snd p))).
Proof.
  revert ic s. induction n as [|n IH]; intros ic s Hr Hfuel; [reflexivity|].
  cbn [exec_loop_fn]. cbv zeta.
  destruct (u32 (ic + 1) <=? configMaxIterations s)%Z.
  - assert (Hr2 : ready (iteration_fn s)) by now apply ready_iteration_fn.
    assert (Hf2 : enough fuel (iteration_fn s))
      by (apply (enough_same fuel s); [apply size_iteration_fn | assumption]).
    destruct (spread _ _ <? tol)%D.
    + cbn [bind fst snd]. now apply exec_end_closed.
    + now apply IH.
  - cbn [bind fst snd]. now apply exec_end_closed.
Qed.

Lemma exec_closed (fuel : nat) (start : list D) (tol scale : D) s :
  ready s -> enough fuel s -> (Z.to_nat (size s) <= length start)%nat ->
  exec fuel start tol scale s = exec_fn fuel start tol scale s.
Proof.
  intros Hr Hfuel Hstart. unfold exec, exec_fn.
  rewrite exec_begin_closed by assumption. cbn [bind].
  assert (Hr1 : ready (exec_begin_fn start scale s)) by now apply ready_exec_begin_fn.
  assert (Hf1 : enough fuel (exec_begin_fn start scale s)).
  { apply (enough_same fuel s); [|assumption]. symmetry. apply setup_exec_begin_fn. }
  rewrite exec_loop_closed by assumption.
  now apply exec_tail_closed.
Qed.

End Run.

(** ** The constructor *)

Section Constructor.
Context {D : Type} {ops : DoubleOps D}.
Implicit Types s : NelderMead D.

Lemma tabulate_const {B : Type} (n : Z) (x : B) :
  tabulate n (fun _ => x) = replicate (Z.to_nat n) x.
Proof.
  apply list_eq. intros i. unfold tabulate. rewrite list_lookup_fmap.
  destruct (Nat.lt_ge_cases i (Z.to_nat n)) as [Hi|Hi].
  - rewrite lookup_seqZ_lt by lia. simpl. symmetry. now apply lookup_replicate_2.
  - rewrite lookup_seqZ_ge by lia. simpl. symmetry. apply lookup_replicate_None. lia.
Qed.

Lemma NelderMead_new_closed (fuel : nat) (inSize : Z) (inEvalFunc : list D -> D)
    (inConstrainFunc : option (list D -> list D)) :
  0 <= inSize < 2 ^ 32 - 1 -> (Z.to_nat (inSize + 1) < fuel)%nat ->
  NelderMead_new fuel inSize inEvalFunc inConstrainFunc
  = Ok (blank inSize inEvalFunc inConstrainFunc).
Proof.
  intros HN Hfuel. unfold NelderMead_new. cbv zeta.
  rewrite (u32_small inSize) by lia. rewrite (u32_small (inSize + 1)) by lia.
  eapply bind_ok; [|reflexivity].
  rewrite <- (tabulate_const (inSize + 1) (replicate (Z.to_nat inSize) (dof 0))).
  apply (for_fill (fun rows : list (list D) => rows) (fun rows _ => rows)); try lia.
  - apply length_replicate.
  - reflexivity.
  - intros j Hj.
    rewrite (at_ok []) by (rewrite length_partly; rewrite ?length_replicate; lia).
    cbn [bind]. apply put_ok. rewrite length_partly; rewrite ?length_replicate; lia.
Qed.

(** The dimension [2^32 - 1] cannot be constructed: [size + 1] wraps to zero
    rows. *)
Lemma NelderMead_new_too_large (fuel : nat) (inEvalFunc : list D -> D)
    (inConstrainFunc : option (list D -> list D)) :
  NelderMead_new (S fuel) (2 ^ 32 - 1) inEvalFunc inConstrainFunc = OutOfBounds.
Proof. reflexivity. Qed.

Lemma wf_blank (inSize : Z) (inEvalFunc : list D -> D)
    (inConstrainFunc : option (list D -> list D)) :
  0 <= inSize < 2 ^ 32 - 1 -> wf (blank inSize inEvalFunc inConstrainFunc).
Proof.
  intros HN. constructor; cbn; rewrite ?length_replicate; try lia.
  apply Forall_replicate. apply length_replicate.
Qed.

Lemma wf_setMaxIterations (x : Z) s : wf s -> wf (setMaxIterations x s).
Proof. intros []. constructor; try assumption. apply u32_range. Qed.

Lemma wf_setReflectionCoefficient (x : D) s : wf s -> wf (setReflectionCoefficient x s).
Proof. intros []. now constructor. Qed.

Lemma wf_setContractionCoefficient (x : D) s : wf s -> wf (setContractionCoefficient x s).
Proof. intros []. now constructor. Qed.

Lemma wf_setExpansionCoefficient (x : D) s : wf s -> wf (setExpansionCoefficient x s).
Proof. intros []. now constructor. Qed.

End Constructor.

(** ** How the loop ends *)

Section LoopEnd.
Context {D : Type} {ops : DoubleOps D}.
Implicit Types s : NelderMead D.


(** Any property kept by an iteration holds when the loop is left. *)
Lemma exec_loop_fn_invariant (P : NelderMead D -> Prop) (n : nat) (tol : D) (ic ic' : Z)
    s s' :
  (forall s, ready s -> P s -> P (iteration_fn s)) ->
  ready s -> P s ->
  exec_loop_fn n tol ic s = Ok (ic', s') -> ready s' /\ same_setup s s' /\ P s'.
Proof.
  intros Hstep. revert ic s. induction n as [|n IH]; intros ic s Hr HP; [discriminate|].
  cbn [exec_loop_fn]. cbv zeta.
  destruct (_ <=? _)%Z.
  - destruct (_ <? tol)%D.
    + intros Hp. inversion Hp; subst.
      split; [now apply ready_iteration_fn|].
      split; [apply setup_iteration_fn | now apply Hstep].
    + intros Hp. apply IH in Hp; [|now apply ready_iteration_fn | now apply Hstep].
      destruct Hp as (Hr' & Hset & HP'). split; [assumption|]. split; [|assumption].
      eapply same_setup_trans; [apply setup_iteration_fn | exact Hset].
  - intros Hp. inversion Hp; subst. split; [assumption|].
    split; [apply same_setup_refl | assumption].
Qed.

Lemma exec_loop_fn_returns (n : nat) (tol : D) (ic : Z) s :
  0 <= ic <= configMaxIterations s -> configMaxIterations s < 2 ^ 32 - 1 ->
  (Z.to_nat (configMaxIterations s - ic) < n)%nat ->
  exists p, exec_loop_fn n tol ic s = Ok p.
Proof.
  revert ic s. induction n as [|n IH]; intros ic s Hic Hmax Hn; [lia|].
  cbn [exec_loop_fn]. cbv zeta. rewrite u32_small by lia.
  destruct (ic + 1 <=? configMaxIterations s)%Z eqn:Hle; [|eauto].
  destruct (_ <? tol)%D; [eauto|].
  apply IH; rewrite max_iteration_fn; lia.
Qed.

(** The counter that the loop hands over: the number of the iteration that
    passed the convergence test, or one more than the maximum. *)
Lemma exec_loop_fn_count (n : nat) (tol : D) (ic ic' : Z) s s' :
  0 <= ic <= configMaxIterations s -> configMaxIterations s < 2 ^ 32 - 1 ->
  exec_loop_fn n tol ic s = Ok (ic', s') ->
  (ic < ic' <= configMaxIterations s /\ (spread (f s') (size s') <? tol)%D = true)
  \/ ic' = configMaxIterations s + 1.
Proof.
  revert ic s. induction n as [|n IH]; intros ic s Hic Hmax; [discriminate|].
  cbn [exec_loop_fn]. cbv zeta. rewrite u32_small by lia.
  destruct (ic + 1 <=? configMaxIterations s)%Z eqn:Hle.
  - destruct (spread (f (iteration_fn s)) (size (iteration_fn s)) <? tol)%D eqn:Hconv.
    + intros Hp. inversion Hp; subst. left. split; [lia|assumption].
    + intros Hrun. apply IH in Hrun; rewrite ?max_iteration_fn in *; try lia.
      destruct Hrun as [[Hlt Hc]|Heq]; [left|right]; [split|]; (lia || assumption).
  - intros Hp. inversion Hp; subst. right. lia.
Qed.

End LoopEnd.

(** ** Observation points *)

Section Observation.
Context {D : Type} {ops : DoubleOps D}.
Implicit Types s : NelderMead D.

(** A property that holds after the initial pass and is kept by an
    iteration holds at every observation point. *)
Lemma observable_invariant (P : NelderMead D -> Prop) (fuel : nat) (start : list D)
    (scale : D) s0 :
  ready s0 -> enough fuel s0 -> (Z.to_nat (size s0) <= length start)%nat ->
  P (exec_begin_fn start scale s0) ->
  (forall s, ready s -> same_setup s0 s -> P s -> P (iteration_fn s)) ->
  forall s, observable fuel start scale s0 s ->
  ready s /\ same_setup s0 s /\ P s /\ iteration fuel s = Ok (iteration_fn s).
Proof.
  intros Hr0 Hfuel Hstart Hbegin Hstep s Hobs.
  assert (Hgoal : ready s /\ same_setup s0 s /\ P s).
  { induction Hobs as [s Hs | s s' Hobs IH Hs].
    - rewrite exec_begin_closed in Hs by assumption. inversion Hs; subst.
      split; [now apply ready_exec_begin_fn|]. split; [apply setup_exec_begin_fn|assumption].
    - destruct IH as (Hr & Hset & HP).
      rewrite iteration_closed in Hs; [|assumption|].
      + inversion Hs; subst. split; [now apply ready_iteration_fn|].
        split; [|now apply Hstep].
        eapply same_setup_trans; [exact Hset|apply setup_iteration_fn].
      + apply (enough_same fuel s0); [|assumption]. symmetry. apply Hset. }
  destruct Hgoal as (Hr & Hset & HP).
  split; [assumption|]. split; [assumption|]. split; [assumption|].
  apply iteration_closed; [assumption|].
  apply (enough_same fuel s0); [|assumption]. symmetry. apply Hset.
Qed.

(** The state in which the loop of a run is left is an observation point. *)
Lemma exec_loop_observable (n fuel : nat) (start : list D) (tol scale : D) (ic ic' : Z)
    s0 s s' :
  ready s0 -> enough fuel s0 -> (Z.to_nat (size s0) <= length start)%nat ->
  observable fuel start scale s0 s ->
  exec_loop n fuel tol ic s = Ok (ic', s') ->
  observable fuel start scale s0 s'.
Proof.
  intros Hr0 Hfuel Hstart. revert ic s.
  induction n as [|n IH]; intros ic s Hobs; [discriminate|].
  cbn [exec_loop]. cbv zeta.
  destruct (_ <=? _)%Z; [|intros Hp; inversion Hp; now subst].
  destruct (observable_invariant (fun _ => True) fuel start scale s0 Hr0 Hfuel Hstart I
              ltac:(auto) s Hobs) as (_ & _ & _ & Hit).
  rewrite Hit. cbn [bind].
  assert (Hobs' : observable fuel start scale s0 (iteration_fn s))
    by (eapply observable_iteration; eassumption).
  destruct (converged fuel tol (iteration_fn s)) as [[|]| |]; cbn [bind]; try discriminate.
  - intros Hp. inversion Hp. now subst.
  - now apply IH.
Qed.

(** *** The value table follows the simplex *)

Lemma synced_in_sync s : wf s -> synced s -> in_sync s.
Proof.
  intros [] Hs i Hi. exists (vertex (v s) i).
  rewrite vertex_at by lia. split; [reflexivity|].
  rewrite Hs. unfold at_. rewrite list_lookup_fmap.
  destruct (lookup_lt_is_Some_2 (v s) (Z.to_nat i) ltac:(lia)) as [row Hrow].
  rewrite Hrow. cbn. unfold vertex. now rewrite (nth_lookup_Some _ _ _ _ Hrow).
Qed.

Lemma synced_frame s s' :
  v s' = v s -> f s' = f s -> evalFunc s' = evalFunc s -> synced s -> synced s'.
Proof. unfold synced. now intros -> -> ->. Qed.

Lemma synced_evaluate_all_fn (from : site) s : synced (evaluate_all_fn from s).
Proof. reflexivity. Qed.

Lemma synced_replace_worst_fn (src : NelderMead D -> list D) (fx : D) s :
  synced s -> fx = evalFunc s (src s) -> synced (replace_worst_fn src fx s).
Proof.
  unfold synced, replace_worst_fn. cbn. intros -> ->. now rewrite list_fmap_insert.
Qed.

Lemma synced_reconstrain_vertex_fn (from : site) (i : Z) s :
  synced s -> synced (reconstrain_vertex_fn from i s).
Proof.
  unfold synced, reconstrain_vertex_fn. cbn. intros ->. now rewrite list_fmap_insert.
Qed.

Lemma synced_shrink_fn s : synced (shrink_fn s).
Proof.
  unfold shrink_fn. cbv zeta.
  set (s1 := evaluate_all_fn ShrinkEval _).
  apply synced_reconstrain_vertex_fn, synced_reconstrain_vertex_fn.
  apply (synced_frame s1); [reflexivity..|]. apply synced_evaluate_all_fn.
Qed.

Lemma synced_accept_reflection_fn (fr : D) s :
  synced s -> fr = evalFunc s (vr s) -> synced (accept_reflection_fn fr s).
Proof.
  intros Hs Hfr. unfold accept_reflection_fn. destruct (_ && _); [|assumption].
  apply synced_replace_worst_fn; assumption.
Qed.

Lemma synced_expansion_fn (fr : D) s :
  synced s -> fr = evalFunc s (vr s) -> synced (expansion_fn fr s).
Proof.
  intros Hs Hfr. unfold expansion_fn. destruct (fr <? _)%D; [|assumption].
  cbv zeta. cbn [doEvaluate].
  match goal with |- synced (if ?c then _ else _) => destruct c end;
    apply synced_replace_worst_fn; try assumption; reflexivity.
Qed.

Lemma synced_contraction_fn (fr : D) s : synced s -> synced (contraction_fn fr s).
Proof.
  intros Hs. unfold contraction_fn. destruct (fr >=? _)%D; [|assumption].
  cbv zeta. cbn [doEvaluate].
  match goal with |- synced (if ?c then _ else _) => destruct c end.
  - apply synced_replace_worst_fn; [|reflexivity].
    destruct (_ && _); exact Hs.
  - apply synced_shrink_fn.
Qed.

Lemma vr_accept_reflection_fn (fr : D) s : vr (accept_reflection_fn fr s) = vr s.
Proof. unfold accept_reflection_fn. now destruct (_ && _). Qed.

Lemma synced_iteration_fn s : synced s -> synced (iteration_fn s).
Proof.
  intros Hs. unfold iteration_fn, accepted_fn, reflected_fn. cbv zeta. cbn [doEvaluate].
  apply synced_contraction_fn, synced_expansion_fn.
  - apply synced_accept_reflection_fn; [exact Hs|reflexivity].
  - rewrite vr_accept_reflection_fn.
    pose proof (setup_accept_reflection_fn
                  (evalFunc (doIndexes_fn s)
                     (constrain (vr (reflect_fn (centroid_fn (doIndexes_fn s))))
                        (reflect_fn (centroid_fn (doIndexes_fn s)))))) as Hset.
    match goal with |- _ = evalFunc (accept_reflection_fn ?fr ?s1) _ =>
      destruct (setup_accept_reflection_fn fr s1) as (_ & <- & _) end.
    reflexivity.
Qed.

Lemma synced_exec_begin_fn (start : list D) (scale : D) s :
  synced (exec_begin_fn start scale s).
Proof. unfold exec_begin_fn. cbv zeta. apply synced_evaluate_all_fn. Qed.

End Observation.

(** ** Vertices stay in the box of the constraint *)

Section Box.
Context {D : Type} {ops : DoubleOps D}.
Implicit Types s : NelderMead D.
Variables (lo hi : D) (c : list D -> list D).
Hypothesis clamps : forall x, Forall (inside lo hi) (c x).
Hypothesis halving :
  forall a b, inside lo hi a -> inside lo hi b -> inside lo hi (a + (b - a) / dof 2)%D.

Lemma box_frame s s' : v s' = v s -> in_box lo hi s -> in_box lo hi s'.
Proof. unfold in_box. now intros ->. Qed.

Lemma constrain_clamped (x : list D) s :
  constrainFunc s = Some c -> Forall (inside lo hi) (constrain x s).
Proof. unfold constrain. intros ->. apply clamps. Qed.

Lemma box_replace_worst_fn (src : NelderMead D -> list D) (fx : D) s :
  in_box lo hi s -> Forall (inside lo hi) (src s) ->
  in_box lo hi (replace_worst_fn src fx s).
Proof. unfold in_box, replace_worst_fn. cbn. intros HV Hsrc. now apply Forall_insert. Qed.

Lemma box_reconstrain_vertex_fn (from : site) (i : Z) s :
  constrainFunc s = Some c -> in_box lo hi s ->
  in_box lo hi (reconstrain_vertex_fn from i s).
Proof.
  unfold in_box, reconstrain_vertex_fn. cbn. intros Hc HV.
  apply Forall_insert; [assumption|]. now apply constrain_clamped.
Qed.

Lemma inside_vertex s (i : Z) :
  wf s -> in_box lo hi s -> 0 <= i <= size s -> Forall (inside lo hi) (vertex (v s) i).
Proof.
  intros [] HV Hi. unfold in_box in HV. rewrite Forall_lookup in HV.
  destruct (lookup_lt_is_Some_2 (v s) (Z.to_nat i) ltac:(lia)) as [row Hrow].
  unfold vertex. rewrite (nth_lookup_Some _ _ _ _ Hrow). now apply (HV _ _ Hrow).
Qed.

Lemma inside_coord s (i j : Z) :
  wf s -> in_box lo hi s -> 0 <= i <= size s -> 0 <= j < size s ->
  inside lo hi (coord (v s) i j).
Proof.
  intros Hwf HV Hi Hj. pose proof (inside_vertex s i Hwf HV Hi) as Hrow.
  assert (Hlen : length (vertex (v s) i) = Z.to_nat (size s)).
  { destruct Hwf. apply (length_vertex _ (Z.to_nat (size s))); (assumption || lia). }
  rewrite Forall_lookup in Hrow.
  destruct (lookup_lt_is_Some_2 (vertex (v s) i) (Z.to_nat j) ltac:(lia)) as [x Hx].
  unfold coord, val. rewrite (nth_lookup_Some _ _ _ _ Hx). now apply (Hrow _ _ Hx).
Qed.

Lemma box_shrink_rows s :
  ready s -> in_box lo hi s -> in_box lo hi (set_v (shrink_rows (v s) (size s) (vs s)) s).
Proof.
  intros (Hwf & _) HV. unfold in_box. cbn [v set_v]. unfold shrink_rows.
  apply Forall_tabulate. intros row Hrow.
  destruct (negb (row =? vs s)%Z).
  - unfold halve_towards. apply Forall_tabulate. intros j Hj.
    apply halving; apply inside_coord; try assumption; try lia.
    now destruct Hwf.
  - apply inside_vertex; (assumption || lia).
Qed.

Lemma box_shrink_fn s :
  ready s -> constrainFunc s = Some c -> in_box lo hi s -> in_box lo hi (shrink_fn s).
Proof.
  intros Hr Hc HV. unfold shrink_fn. cbv zeta.
  set (s1 := set_v _ (set_branchLog _ s)).
  assert (H1 : in_box lo hi s1).
  { apply (box_shrink_rows (set_branchLog (Shrink :: branchLog s) s)).
    - now apply ready_set_branchLog.
    - exact HV. }
  apply box_reconstrain_vertex_fn; [exact Hc|].
  apply box_reconstrain_vertex_fn; [exact Hc|].
  apply (box_frame s1); [reflexivity | exact H1].
Qed.

Lemma box_accept_reflection_fn (fr : D) s :
  in_box lo hi s -> Forall (inside lo hi) (vr s) ->
  in_box lo hi (accept_reflection_fn fr s).
Proof.
  intros HV Hvr. unfold accept_reflection_fn. destruct (_ && _); [|assumption].
  now apply box_replace_worst_fn.
Qed.

Lemma box_expansion_fn (fr : D) s :
  constrainFunc s = Some c -> in_box lo hi s -> Forall (inside lo hi) (vr s) ->
  in_box lo hi (expansion_fn fr s).
Proof.
  intros Hc HV Hvr. unfold expansion_fn. destruct (fr <? _)%D; [|assumption].
  cbv zeta. cbn [doEvaluate].
  match goal with |- in_box _ _ (if ?b then _ else _) => destruct b end;
    apply box_replace_worst_fn; try assumption.
  cbn. now apply constrain_clamped.
Qed.

Lemma box_contraction_fn (fr : D) s :
  ready s -> constrainFunc s = Some c -> in_box lo hi s ->
  in_box lo hi (contraction_fn fr s).
Proof.
  intros Hr Hc HV. unfold contraction_fn. destruct (fr >=? _)%D; [|assumption].
  cbv zeta.
  set (s1 := if _ && _ then _ else _).
  assert (Hr1 : ready s1).
  { unfold s1. destruct (_ && _);
      [apply ready_contract_outside_fn | apply ready_contract_inside_fn];
      now apply ready_set_branchLog. }
  assert (Hc1 : constrainFunc s1 = Some c) by (unfold s1; now destruct (_ && _)).
  assert (HV1 : in_box lo hi s1) by (unfold s1; now destruct (_ && _)).
  pose proof (ready_doEvaluate ContractionEval (vc (set_vc (constrain (vc s1) s1) s1))
                (set_vc (constrain (vc s1) s1) s1) (ready_constrain_vc s1 Hr1)) as Hr2.
  cbn [doEvaluate] in *.
  match goal with |- in_box _ _ (if ?b then _ else _) => destruct b end.
  - apply box_replace_worst_fn; [exact HV1|]. cbn. now apply constrain_clamped.
  - apply box_shrink_fn; [exact Hr2 | exact Hc1 | exact HV1].
Qed.

Lemma box_accepted_fn s :
  ready s -> constrainFunc s = Some c -> in_box lo hi s -> Forall (inside lo hi) (vr s) ->
  in_box lo hi (accepted_fn s).
Proof.
  intros Hr Hc HV Hvr. unfold accepted_fn.
  pose proof (ready_doEvaluate ReflectionEval (vr s) s Hr) as Hr2.
  assert (Hc2 : constrainFunc (snd (doEvaluate ReflectionEval (vr s) s)) = Some c)
    by exact Hc.
  assert (HV2 : in_box lo hi (snd (doEvaluate ReflectionEval (vr s) s))) by exact HV.
  assert (Hvr2 : Forall (inside lo hi) (vr (snd (doEvaluate ReflectionEval (vr s) s))))
    by exact Hvr.
  destruct (doEvaluate ReflectionEval (vr s) s) as [fr s2]. cbn [snd] in *.
  apply box_contraction_fn.
  - now apply ready_expansion_fn, ready_accept_reflection_fn.
  - destruct (setup_expansion_fn fr (accept_reflection_fn fr s2)) as (_ & _ & <- & _).
    destruct (setup_accept_reflection_fn fr s2) as (_ & _ & <- & _). exact Hc2.
  - apply box_expansion_fn.
    + destruct (setup_accept_reflection_fn fr s2) as (_ & _ & <- & _). exact Hc2.
    + now apply box_accept_reflection_fn.
    + now rewrite vr_accept_reflection_fn.
Qed.

Lemma ready_reflected_fn s : ready s -> ready (reflected_fn s).
Proof.
  intros Hr. unfold reflected_fn. cbv zeta.
  apply ready_set_branchLog, ready_constrain_vr, ready_reflect_fn, ready_centroid_fn,
    ready_doIndexes_fn, Hr.
Qed.

Lemma setup_reflected_fn s : same_setup s (reflected_fn s).
Proof. repeat split. Qed.

Lemma v_reflected_fn s : v (reflected_fn s) = v s.
Proof. reflexivity. Qed.

Lemma box_iteration_fn s :
  ready s -> constrainFunc s = Some c -> in_box lo hi s -> in_box lo hi (iteration_fn s).
Proof.
  intros Hr Hc HV. unfold iteration_fn.
  apply box_accepted_fn.
  - now apply ready_reflected_fn.
  - exact Hc.
  - exact HV.
  - unfold reflected_fn. cbv zeta. frame. apply constrain_clamped. exact Hc.
Qed.

Lemma box_exec_begin_fn (start : list D) (scale : D) s :
  constrainFunc s = Some c -> in_box lo hi (exec_begin_fn start scale s).
Proof.
  intros Hc. unfold exec_begin_fn. cbv zeta.
  change (constrainFunc (doInitialize_fn start scale s)) with (constrainFunc s).
  rewrite Hc. unfold in_box. cbn [v evaluate_all_fn set_f set_evalLog set_evalCount set_v].
  apply Forall_fmap, Forall_forall. intros row _. apply clamps.
Qed.

End Box.

(** ** Counting the evaluations *)

Section Tally.
Context {D : Type} {ops : DoubleOps D}.
Implicit Types s : NelderMead D.

Lemma moves_trans (a a' : nat) (b b' : Z) s s' s'' :
  moves a b s s' -> moves a' b' s' s'' -> moves (a + a') (b + b') s s''.
Proof.
  unfold moves. intros (Hs & Hc & Hl & Ha) (Hs' & Hc' & Hl' & Ha').
  rewrite Hs in *. split; [congruence|]. split; [|split; [lia|lia]].
  rewrite Hc'. rewrite <- u32_add_l, Hc, u32_add_l. apply (f_equal u32). lia.
Qed.

Lemma moves_frame s s' :
  size s' = size s -> evalCount s' = evalCount s -> evalLog s' = evalLog s ->
  branchLog s' = branchLog s -> moves 0 0 s s'.
Proof.
  unfold moves. intros -> -> -> ->. rewrite !Z.add_0_r, Nat.add_0_r. auto.
Qed.

Lemma accounted_cons (N : Z) (b : branch) (l : list branch) :
  accounted N (b :: l) = accounted N l + weight N b.
Proof. unfold accounted. destruct b; cbn [times branch_eqb weight]; lia. Qed.

Lemma moves_log (b : branch) s :
  moves 0 (weight (size s) b) s (set_branchLog (b :: branchLog s) s).
Proof.
  unfold moves. frame. rewrite accounted_cons, Z.add_0_r, Nat.add_0_r. auto.
Qed.

Lemma moves_doEvaluate (from : site) (x : list D) s :
  moves 1 0 s (snd (doEvaluate from x s)).
Proof.
  unfold moves. frame. rewrite Z.add_0_r. repeat split.
  - now rewrite u32_u32.
  - cbn [length]. lia.
Qed.

Lemma moves_evaluate_all_fn (from : site) s :
  0 <= size s -> moves (Z.to_nat (size s + 1)) 0 s (evaluate_all_fn from s).
Proof.
  intros HN. unfold moves. frame. rewrite Z.add_0_r. repeat split.
  - rewrite u32_u32. apply (f_equal u32). lia.
  - rewrite length_app, length_replicate. lia.
Qed.

Lemma moves_reconstrain_vertex_fn (from : site) (i : Z) s :
  moves 1 0 s (reconstrain_vertex_fn from i s).
Proof.
  unfold moves. frame. rewrite Z.add_0_r. repeat split.
  - now rewrite u32_u32.
  - cbn [length]. lia.
Qed.

Lemma moves_shrink_fn s :
  0 <= size s -> moves (Z.to_nat (size s + 3)) (size s + 3) s (shrink_fn s).
Proof.
  intros HN. unfold moves, shrink_fn. cbv zeta. frame.
  rewrite accounted_cons. cbn [weight length].
  rewrite length_app, length_replicate.
  split; [reflexivity|]. split; [|split; lia].
  rewrite u32_u32, u32_add_l, <- Z.add_assoc, u32_add_l. apply (f_equal u32). lia.
Qed.

Lemma advances_refl s : advances s s.
Proof. exists 0%nat. now apply moves_frame. Qed.

Lemma advances_trans s s' s'' : advances s s' -> advances s' s'' -> advances s s''.
Proof.
  intros [k H] [k' H']. exists (k + k')%nat.
  rewrite Nat2Z.inj_add. eapply moves_trans; eassumption.
Qed.

Lemma advances_of_moves (a : nat) (b : Z) s s' : moves a b s s' -> b = Z.of_nat a -> advances s s'.
Proof. intros H ->. now exists a. Qed.

Lemma advances_replace_worst_fn (src : NelderMead D -> list D) (fx : D) s :
  advances s (replace_worst_fn src fx s).
Proof. exists 0%nat. now apply moves_frame. Qed.

Lemma advances_accept_reflection_fn (fr : D) s : advances s (accept_reflection_fn fr s).
Proof.
  unfold accept_reflection_fn. destruct (_ && _); [|apply advances_refl].
  eapply advances_trans; [|apply advances_replace_worst_fn].
  eapply advances_of_moves; [apply (moves_log AcceptReflection)|reflexivity].
Qed.

Lemma advances_expansion_fn (fr : D) s : advances s (expansion_fn fr s).
Proof.
  unfold expansion_fn. destruct (fr <? _)%D; [|apply advances_refl]. cbv zeta.
  set (s1 := set_ve _ (expand_fn _)).
  assert (H1 : advances s (snd (doEvaluate ExpansionEval (ve s1) s1))).
  { apply (advances_of_moves (0 + (0 + 1)) (weight (size s) Expansion + (0 + 0)));
      [|reflexivity].
    eapply moves_trans; [apply moves_log|].
    eapply moves_trans; [apply (moves_frame _ s1); reflexivity|].
    apply moves_doEvaluate. }
  destruct (doEvaluate ExpansionEval (ve s1) s1) as [fe s2]. cbn [snd] in H1.
  destruct (fe <? fr)%D; (eapply advances_trans; [exact H1|apply advances_replace_worst_fn]).
Qed.

Lemma advances_contraction_fn (fr : D) s :
  0 <= size s -> advances s (contraction_fn fr s).
Proof.
  intros HN. unfold contraction_fn. destruct (fr >=? _)%D; [|apply advances_refl]. cbv zeta.
  set (s1 := set_vc _ _).
  assert (Hsize : size (snd (doEvaluate ContractionEval (vc s1) s1)) = size s)
    by (unfold s1; cbn [doEvaluate snd]; frame; now destruct (_ && _)).
  assert (H1 : advances s (snd (doEvaluate ContractionEval (vc s1) s1))).
  { apply (advances_of_moves (0 + (0 + 1)) (weight (size s) Contraction + (0 + 0)));
      [|reflexivity].
    eapply moves_trans; [apply moves_log|].
    eapply moves_trans; [|apply moves_doEvaluate].
    unfold s1. destruct (_ && _); apply moves_frame; reflexivity. }
  destruct (doEvaluate ContractionEval (vc s1) s1) as [fc s2]. cbn [snd] in H1, Hsize.
  destruct (fc <? _)%D; (eapply advances_trans; [exact H1|]).
  - apply advances_replace_worst_fn.
  - eapply advances_of_moves; [apply moves_shrink_fn; lia|]. rewrite Hsize. lia.
Qed.

Lemma advances_iteration_fn s : 0 <= size s -> advances s (iteration_fn s).
Proof.
  intros HN. unfold iteration_fn, accepted_fn.
  assert (H1 : advances s (snd (doEvaluate ReflectionEval (vr (reflected_fn s))
                                  (reflected_fn s)))).
  { exists 1%nat. unfold moves, reflected_fn. cbv zeta. frame.
    rewrite accounted_cons. cbn [weight length].
    split; [reflexivity|]. split; [now rewrite u32_u32|]. split; lia. }
  assert (Hsize : size (snd (doEvaluate ReflectionEval (vr (reflected_fn s))
                               (reflected_fn s))) = size s) by reflexivity.
  destruct (doEvaluate ReflectionEval (vr (reflected_fn s)) (reflected_fn s)) as [fr s2].
  cbn [snd] in H1, Hsize.
  eapply advances_trans; [exact H1|].
  eapply advances_trans; [apply advances_accept_reflection_fn|].
  eapply advances_trans; [apply advances_expansion_fn|].
  apply advances_contraction_fn.
  destruct (setup_expansion_fn fr (accept_reflection_fn fr s2)) as (<- & _).
  destruct (setup_accept_reflection_fn fr s2) as (<- & _). lia.
Qed.

Lemma tallied_advances s s' : wf s' -> tallied s -> advances s s' -> tallied s'.
Proof.
  intros Hwf [Hc Hl] (k & Hs & Hc' & Hl' & Ha). unfold tallied.
  rewrite Hs, Ha, Hl'. split; [|lia].
  rewrite <- (u32_small (evalCount s')) by now destruct Hwf.
  rewrite Hc', Hc, u32_add_l. apply (f_equal u32). lia.
Qed.

Lemma tallied_exec_begin_fn (start : list D) (scale : D) s :
  0 <= size s -> tallied (exec_begin_fn start scale s).
Proof.
  intros HN. unfold exec_begin_fn. cbv zeta.
  assert (H : forall s1, evalCount s1 = 0 -> evalLog s1 = [] -> branchLog s1 = [] ->
                         0 <= size s1 -> tallied (evaluate_all_fn InitialEval s1)).
  { intros s1 Hc Hl Hb HN1. unfold tallied. frame. rewrite Hc, Hl, Hb.
    rewrite app_nil_r, length_replicate. unfold accounted. cbn [times].
    split; [apply (f_equal u32); lia|lia]. }
  destruct (constrainFunc (doInitialize_fn start scale s)); apply H; try reflexivity;
    exact HN.
Qed.

End Tally.

Section TallyRun.
Context {D : Type} {ops : DoubleOps D}.
Implicit Types s : NelderMead D.

Lemma tallied_iteration_fn s : ready s -> tallied s -> tallied (iteration_fn s).
Proof.
  intros Hr Ht. apply (tallied_advances s); [|exact Ht|].
  - now apply ready_iteration_fn.
  - apply advances_iteration_fn. destruct Hr as ([] & _). lia.
Qed.

(** What a run that returns has counted and logged. *)
Lemma exec_fn_tally (n : nat) (start : list D) (tol scale : D) s r :
  ready s -> exec_fn n start tol scale s = Ok r ->
  r_evalCount (lastExecResults r) = u32 (Z.of_nat (length (evalLog r))) /\
  Z.of_nat (length (evalLog r))
  = size s + 1 + accounted (size s) (branchLog r) + 1.
Proof.
  intros Hr. unfold exec_fn.
  destruct (exec_loop_fn n tol 0 (exec_begin_fn start scale s)) as [[ic s1]| |] eqn:Hloop;
    try discriminate.
  cbn [bind fst snd]. intros Hp. inversion Hp; subst. clear Hp.
  apply (exec_loop_fn_invariant tallied) in Hloop.
  - destruct Hloop as (Hr1 & Hset & Hc & Hl).
    assert (Hsize : size s1 = size s).
    { destruct Hset as (<- & _). symmetry. apply setup_exec_begin_fn. }
    unfold exec_end_fn. cbv zeta. frame. cbn [length].
    rewrite Hc, u32_add_l, <- Hsize. split; [apply (f_equal u32); lia|lia].
  - intros s2 Hr2 Ht. now apply tallied_iteration_fn.
  - now apply ready_exec_begin_fn.
  - apply tallied_exec_begin_fn. destruct Hr as ([] & _). lia.
Qed.

(** A run returns when the iteration cap is below [2^32 - 1]. *)
Lemma exec_fn_returns (n : nat) (start : list D) (tol scale : D) s :
  wf s -> configMaxIterations s < 2 ^ 32 - 1 ->
  (Z.to_nat (configMaxIterations s) < n)%nat ->
  exists r, exec_fn n start tol scale s = Ok r.
Proof.
  intros Hwf Hmax Hn. unfold exec_fn.
  pose proof (setup_exec_begin_fn start scale s) as (_ & _ & _ & Hcfg & _).
  destruct (exec_loop_fn_returns n tol 0 (exec_begin_fn start scale s)) as [p Hp];
    rewrite <- ?Hcfg; try lia.
  { destruct Hwf. lia. }
  rewrite Hp. cbn [bind]. eauto.
Qed.

End TallyRun.

(** * The claims *)

Section Claims.
Context {D : Type} {ops : DoubleOps D}.
Implicit Types s : NelderMead D.

Lemma ready_of s : wf s -> 1 <= size s -> length_preserving s -> ready s.
Proof. unfold ready. auto. Qed.

(** What a run that returns reports as its iteration count: the number of
    the iteration that passed the convergence test, or one more than the
    configured maximum when none did. *)
Lemma exec_fn_iteration_count (n : nat) (start : list D) (tol scale : D) s r :
  ready s -> configMaxIterations s < 2 ^ 32 - 1 ->
  exec_fn n start tol scale s = Ok r ->
  1 <= iterationCount (lastExecResults r) <= configMaxIterations s
  \/ iterationCount (lastExecResults r) = configMaxIterations s + 1.
Proof.
  intros Hr Hmax. unfold exec_fn.
  destruct (exec_loop_fn n tol 0 (exec_begin_fn start scale s)) as [[ic s1]| |] eqn:Hloop;
    try discriminate.
  cbn [bind fst snd]. intros Hp. inversion Hp; subst. clear Hp.
  pose proof (setup_exec_begin_fn start scale s) as (_ & _ & _ & Hcfg & _).
  apply exec_loop_fn_count in Hloop; rewrite <- ?Hcfg in *.
  - cbn [exec_end_fn doEvaluate lastExecResults set_lastExecResults iterationCount].
    destruct Hloop as [[Hlt _]|Heq]; [left|right]; lia.
  - destruct Hr as ([] & _). lia.
  - assumption.
Qed.

(** C6: in every iteration the loop stops early exactly when the statistic
    [sqrt(sum over j of (f[j] - mean)^2 / N)], with [mean] the arithmetic mean
    of the [N+1] values and the divisor [N], is strictly below the
    tolerance: the pass that runs the iteration returns with its counter and
    state when the statistic is below, and goes on with the next pass
    otherwise. *)
Theorem convergence_test (n fuel : nat) (tol : D) (ic : Z) s :
  wf s -> 1 <= size s -> length_preserving s -> enough fuel s ->
  (u32 (ic + 1) <=? configMaxIterations s) = true ->
  exists s',
    iteration fuel s = Ok s' /\
    converged fuel tol s' = Ok (spread (f s') (size s') <? tol)%D /\
    exec_loop (S n) fuel tol ic s
    = if (spread (f s') (size s') <? tol)%D then Ok (u32 (ic + 1), s')
      else exec_loop n fuel tol (u32 (ic + 1)) s'.
Proof.
  intros Hwf H1 Hlp Hfuel Hle.
  pose proof (ready_of s Hwf H1 Hlp) as Hr.
  assert (Hr' : ready (iteration_fn s)) by now apply ready_iteration_fn.
  assert (Hf' : enough fuel (iteration_fn s))
    by (apply (enough_same fuel s); [apply size_iteration_fn | assumption]).
  exists (iteration_fn s). split; [now apply iteration_closed|].
  split; [now apply converged_closed|].
  cbn [exec_loop]. cbv zeta. rewrite Hle.
  rewrite iteration_closed by assumption. cbn [bind].
  rewrite converged_closed by assumption. reflexivity.
Qed.

(** C9: each of the four setters changes its own configuration field and
    nothing else; in particular the stored result of an earlier run stays as
    it was. *)
Theorem setters_frame (n : Z) (x : D) s :
  (untouched s (setMaxIterations n s) /\
   configMaxIterations (setMaxIterations n s) = u32 n /\
   configReflectionCoefficient (setMaxIterations n s) = configReflectionCoefficient s /\
   configContractionCoefficient (setMaxIterations n s) = configContractionCoefficient s /\
   configExpansionCoefficient (setMaxIterations n s) = configExpansionCoefficient s) /\
  (untouched s (setReflectionCoefficient x s) /\
   configMaxIterations (setReflectionCoefficient x s) = configMaxIterations s /\
   configReflectionCoefficient (setReflectionCoefficient x s) = x /\
   configContractionCoefficient (setReflectionCoefficient x s)
   = configContractionCoefficient s /\
   configExpansionCoefficient (setReflectionCoefficient x s)
   = configExpansionCoefficient s) /\
  (untouched s (setContractionCoefficient x s) /\
   configMaxIterations (setContractionCoefficient x s) = configMaxIterations s /\
   configReflectionCoefficient (setContractionCoefficient x s)
   = configReflectionCoefficient s /\
   configContractionCoefficient (setContractionCoefficient x s) = x /\
   configExpansionCoefficient (setContractionCoefficient x s)
   = configExpansionCoefficient s) /\
  (untouched s (setExpansionCoefficient x s) /\
   configMaxIterations (setExpansionCoefficient x s) = configMaxIterations s /\
   configReflectionCoefficient (setExpansionCoefficient x s)
   = configReflectionCoefficient s /\
   configContractionCoefficient (setExpansionCoefficient x s)
   = configContractionCoefficient s /\
   configExpansionCoefficient (setExpansionCoefficient x s) = x).
Proof. unfold untouched. repeat split. Qed.


(** C5: with a pure objective the value table and the simplex are in step
    at every observation point: after the initial evaluation pass (which
    succeeds) and at the end of every iteration (each of which succeeds),
    [f[i]] is the objective at the current [v[i]] for every [i] in [0..N]. *)
Theorem value_table_in_sync (fuel : nat) (start : list D) (scale : D) s0 :
  wf s0 -> 1 <= size s0 -> length_preserving s0 ->
  (Z.to_nat (size s0) <= length start)%nat -> enough fuel s0 ->
  (exists s, exec_begin fuel start scale s0 = Ok s) /\
  (forall s, observable fuel start scale s0 s ->
     in_sync s /\ exists s', iteration fuel s = Ok s').
Proof.
  intros Hwf H1 Hlp Hstart Hfuel.
  pose proof (ready_of s0 Hwf H1 Hlp) as Hr.
  split; [eexists; now apply exec_begin_closed|].
  intros s Hobs.
  destruct (observable_invariant synced fuel start scale s0 Hr Hfuel Hstart
              (synced_exec_begin_fn start scale s0)
              (fun s _ _ => synced_iteration_fn s) s Hobs) as (Hrs & _ & Hs & Hit).
  split; [|eauto]. apply synced_in_sync; [apply Hrs | exact Hs].
Qed.

(** C4, amended: with a constraint function that clamps every coordinate
    into [[lo, hi]], every coordinate of every vertex lies in [[lo, hi]]
    after the initial pass and after every iteration, provided that the
    halving step of the shrink, [a + (b - a) / 2.0], stays in [[lo, hi]] for
    [a] and [b] in [[lo, hi]]. *)
Theorem vertices_stay_in_box (lo hi : D) (c : list D -> list D) (fuel : nat)
    (start : list D) (scale : D) s0 :
  wf s0 -> 1 <= size s0 ->
  (Z.to_nat (size s0) <= length start)%nat -> enough fuel s0 ->
  constrainFunc s0 = Some c ->
  (forall x, length (c x) = length x) ->
  (forall x, Forall (inside lo hi) (c x)) ->
  (forall a b, inside lo hi a -> inside lo hi b -> inside lo hi (a + (b - a) / dof 2)%D) ->
  (exists s, exec_begin fuel start scale s0 = Ok s) /\
  (forall s, observable fuel start scale s0 s ->
     in_box lo hi s /\ exists s', iteration fuel s = Ok s').
Proof.
  intros Hwf H1 Hstart Hfuel Hc Hlen Hclamp Hhalf.
  assert (Hlp : length_preserving s0) by (unfold length_preserving; now rewrite Hc).
  pose proof (ready_of s0 Hwf H1 Hlp) as Hr.
  split; [eexists; now apply exec_begin_closed|].
  intros s Hobs.
  destruct (observable_invariant (in_box lo hi) fuel start scale s0 Hr Hfuel Hstart)
    with (s := s) as (_ & _ & HV & Hit); try assumption.
  - now apply (box_exec_begin_fn lo hi c).
  - intros s1 Hr1 Hset HV1. apply (box_iteration_fn lo hi c); try assumption.
    destruct Hset as (_ & _ & <- & _). exact Hc.
  - split; [exact HV|eauto].
Qed.

(** C7, amended: the [evalCount] of the result is the number of calls of
    the objective made by the run, modulo [2^32] (the counter is a
    [uint32_t]), and so that number itself when it is below [2^32].  The calls
    are the [N + 1] initial ones, one per reflection, one per expansion, one
    per contraction, [N + 3] per shrink, and the final one at [v[vs]].  A run
    returns when the iteration cap is below [2^32 - 1]. *)
Theorem evaluation_count (fuel : nat) (start : list D) (tol scale : D) s0 :
  wf s0 -> 1 <= size s0 -> length_preserving s0 ->
  (Z.to_nat (size s0) <= length start)%nat -> enough fuel s0 ->
  (configMaxIterations s0 < 2 ^ 32 - 1 ->
   (Z.to_nat (configMaxIterations s0) < fuel)%nat ->
   exists r, exec fuel start tol scale s0 = Ok r) /\
  (forall r, exec fuel start tol scale s0 = Ok r ->
     r_evalCount (lastExecResults r) = u32 (Z.of_nat (length (evalLog r))) /\
     (Z.of_nat (length (evalLog r)) < 2 ^ 32 ->
      r_evalCount (lastExecResults r) = Z.of_nat (length (evalLog r))) /\
     Z.of_nat (length (evalLog r))
     = (size s0 + 1)
       + Z.of_nat (times Reflection (branchLog r))
       + Z.of_nat (times Expansion (branchLog r))
       + Z.of_nat (times Contraction (branchLog r))
       + (size s0 + 3) * Z.of_nat (times Shrink (branchLog r))
       + 1).
Proof.
  intros Hwf H1 Hlp Hstart Hfuel.
  pose proof (ready_of s0 Hwf H1 Hlp) as Hr.
  rewrite exec_closed by assumption. split.
  - intros Hmax Hn. now apply exec_fn_returns.
  - intros r Hrun. destruct (exec_fn_tally _ _ _ _ _ _ Hr Hrun) as [Hc Hl].
    split; [exact Hc|]. split.
    + intros Hsmall. rewrite Hc. apply u32_small. lia.
    + rewrite Hl. unfold accounted. lia.
Qed.

End Claims.

(** ** The claims on concrete runs *)

Module Runs.
Import Examples.

Lemma ready_line_search : ready line_search.
Proof. split; [apply wf_blank; lia|]. split; [reflexivity|exact I]. Qed.

(** C1: with the maximum set to 2 and a tolerance that is not reached, the
    loop runs its two iterations (two reflections are logged, the statistic
    is still above the tolerance) and the stored [iterationCount] is 3, not
    the configured 2. *)
Theorem exhausted_run_reports_one_more :
  outcome_map
    (fun s => (configMaxIterations s, iterationCount (lastExecResults s),
               times Reflection (branchLog s),
               PrimFloat.ltb (spread (f s) (size s)) 0.0009765625%float))
    (exec 10 [0%float] 0.0009765625%float 1%float (setMaxIterations 2 line_search))
  = Ok (2, 3, 2%nat, false).
Proof. vm_compute. reflexivity. Qed.

Lemma convergence_test_witness :
  exists s',
    iteration 5 line_search = Ok s' /\
    converged 5 1%float s' = Ok (spread (f s') (size s') <? 1%float)%D /\
    exec_loop 3 5 1%float 0 line_search
    = if (spread (f s') (size s') <? 1%float)%D then Ok (u32 (0 + 1), s')
      else exec_loop 2 5 1%float (u32 (0 + 1)) s'.
Proof.
  apply (convergence_test 2 5 1%float 0 line_search).
  - apply wf_blank. lia.
  - simpl. lia.
  - exact I.
  - unfold enough. simpl. lia.
  - reflexivity.
Defined.


Lemma value_table_in_sync_witness :
  (exists s, exec_begin 5 [0%float] 1%float line_search = Ok s) /\
  (forall s, observable 5 [0%float] 1%float line_search s ->
     in_sync s /\ exists s', iteration 5 s = Ok s').
Proof.
  apply (value_table_in_sync 5 [0%float] 1%float line_search).
  - apply wf_blank. lia.
  - simpl. lia.
  - exact I.
  - simpl. lia.
  - unfold enough. simpl. lia.
Defined.

(** *** The box of the constraint *)

Lemma clamp_inside (x : list float) : Forall (inside lo hi) (clamp x).
Proof.
  unfold clamp. apply Forall_forall. intros y Hy.
  apply list_elem_of_In, in_map_iff in Hy. destruct Hy as (a & <- & _).
  unfold clamp1, inside. cbn [dle binary64].
  destruct (PrimFloat.leb lo a) eqn:Hlo; [destruct (PrimFloat.leb a hi) eqn:Hhi|];
    split; (assumption || reflexivity).
Qed.

(** C4 as stated fails in double precision: the box from [-2^1023] to
    [2^1023] is wider than the largest double.  In the first iteration from
    the lower corner the shrink computes [v[vs][1] + (v[2][1] - v[vs][1]) / 2.0]
    with [v[2][1] - v[vs][1] = +infinity]; vertex 2 is neither the new [vg]
    nor the new [vh], is not constrained again, and keeps the coordinate
    [+infinity]. *)
Lemma shrink_leaves_the_box :
  (forall x, Forall (inside lo hi) (clamp x)) /\
  exists s, observable 5 [lo; lo] hi (blank 2 corner (Some clamp)) s /\
            ~ in_box lo hi s.
Proof.
  split; [exact clamp_inside|].
  eexists. split.
  - eapply observable_iteration.
    + apply observable_begin. vm_compute. reflexivity.
    + vm_compute. reflexivity.
  - unfold in_box. cbn [v]. intros H.
    rewrite Forall_lookup in H. specialize (H 2%nat _ eq_refl).
    rewrite Forall_lookup in H. specialize (H 1%nat _ eq_refl).
    destruct H as [_ H]. vm_compute in H. discriminate.
Qed.

Lemma clampQ_inside (x : list Q) : Forall (inside (-1)%Q 1%Q) (clampQ x).
Proof.
  unfold clampQ. apply Forall_forall. intros y Hy.
  apply list_elem_of_In, in_map_iff in Hy. destruct Hy as (a & <- & _).
  unfold inside. cbn [dle rational].
  destruct (Qle_bool (-1) a) eqn:Hlo; [destruct (Qle_bool a 1) eqn:Hhi|];
    split; (assumption || reflexivity).
Defined.

Lemma halving_inside_Q (a b : Q) :
  inside (-1)%Q 1%Q a -> inside (-1)%Q 1%Q b ->
  inside (-1)%Q 1%Q (a + (b - a) / dof 2)%D.
Proof.
  unfold inside. cbn [dle dadd dsub ddiv dof rational].
  rewrite !Qle_bool_iff. change (inject_Z 2) with 2%Q. intros [? ?] [? ?].
  assert (E : ((b - a) / 2 == (b - a) * (1 # 2))%Q) by (unfold Qdiv; reflexivity).
  rewrite E. split; lra.
Defined.

Lemma vertices_stay_in_box_witness :
  (exists s, exec_begin 5 [0%Q; 0%Q] 1%Q (blank 2 cornerQ (Some clampQ)) = Ok s) /\
  (forall s, observable 5 [0%Q; 0%Q] 1%Q (blank 2 cornerQ (Some clampQ)) s ->
     in_box (-1)%Q 1%Q s /\ exists s', iteration 5 s = Ok s').
Proof.
  apply (vertices_stay_in_box (-1)%Q 1%Q clampQ 5 [0%Q; 0%Q] 1%Q
           (blank 2 cornerQ (Some clampQ))).
  - apply wf_blank. lia.
  - simpl. lia.
  - simpl. lia.
  - unfold enough. simpl. lia.
  - reflexivity.
  - intros x. unfold clampQ. apply length_map.
  - exact clampQ_inside.
  - exact halving_inside_Q.
Defined.

Lemma evaluation_count_witness :
  (configMaxIterations line_search < 2 ^ 32 - 1 ->
   (Z.to_nat (configMaxIterations line_search) < 1001)%nat ->
   exists r, exec 1001 [0%float] 1%float 1%float line_search = Ok r) /\
  (forall r, exec 1001 [0%float] 1%float 1%float line_search = Ok r ->
     r_evalCount (lastExecResults r) = u32 (Z.of_nat (length (evalLog r))) /\
     (Z.of_nat (length (evalLog r)) < 2 ^ 32 ->
      r_evalCount (lastExecResults r) = Z.of_nat (length (evalLog r))) /\
     Z.of_nat (length (evalLog r))
     = (size line_search + 1)
       + Z.of_nat (times Reflection (branchLog r))
       + Z.of_nat (times Expansion (branchLog r))
       + Z.of_nat (times Contraction (branchLog r))
       + (size line_search + 3) * Z.of_nat (times Shrink (branchLog r))
       + 1).
Proof.
  apply (evaluation_count 1001 [0%float] 1%float 1%float line_search).
  - apply wf_blank. lia.
  - simpl. lia.
  - exact I.
  - simpl. lia.
  - unfold enough. simpl. lia.
Defined.

End Runs.

(** ** More than [2^32] evaluations *)

Module Wrap.
Import Examples.

Lemma val_zeros (i : Z) : val [0%float; 0%float] i = 0%float.
Proof. unfold val. destruct (Z.to_nat i) as [|[|[|n]]]; reflexivity. Qed.

Lemma zero_le : dle 0%float 0%float = true.
Proof. reflexivity. Qed.

Lemma zero_lt : dlt 0%float 0%float = false.
Proof. reflexivity. Qed.

Lemma doEvaluate_flat (from : site) (x : list float) (s : NelderMead float) :
  evalFunc s = flat ->
  exists s', doEvaluate from x s = (0%float, s') /\ f s' = f s /\
             evalFunc s' = evalFunc s /\ branchLog s' = branchLog s.
Proof.
  intros Hflat. eexists. split; [|split; [|split]].
  - unfold doEvaluate. cbv zeta. f_equal.
    change (evalFunc (set_evalLog _ _)) with (evalFunc s). now rewrite Hflat.
  - reflexivity.
  - reflexivity.
  - reflexivity.
Qed.

Lemma flat_table (s : NelderMead float) : flat_state s -> f s = [0%float; 0%float].
Proof.
  intros (Hr & Hsize & Hflat & _ & Hs). rewrite Hs, Hflat.
  destruct Hr as (Hwf & _). destruct Hwf as [_ Hv _ _ _ _ _ _ _ _ _ _ _].
  rewrite Hsize in Hv. destruct (v s) as [|a [|b [|c l]]]; try discriminate.
  reflexivity.
Qed.

Lemma flat_accept_reflection (s : NelderMead float) :
  f s = [0%float; 0%float] -> accept_reflection_fn 0%float s = s.
Proof. intros Hf. unfold accept_reflection_fn. rewrite Hf, !val_zeros. reflexivity. Qed.

Lemma flat_expansion (s : NelderMead float) :
  f s = [0%float; 0%float] -> expansion_fn 0%float s = s.
Proof. intros Hf. unfold expansion_fn. rewrite Hf, !val_zeros. reflexivity. Qed.

Lemma branchLog_shrink_fn (s : NelderMead float) :
  branchLog (shrink_fn s) = Shrink :: branchLog s.
Proof. reflexivity. Qed.

Lemma flat_contraction (s : NelderMead float) :
  f s = [0%float; 0%float] -> evalFunc s = flat ->
  branchLog (contraction_fn 0%float s) = Shrink :: Contraction :: branchLog s.
Proof.
  intros Hf Hflat. unfold contraction_fn. rewrite Hf, val_zeros.
  rewrite zero_le. cbv iota zeta.
  set (s1 := set_branchLog _ s).
  assert (Hf1 : f s1 = [0%float; 0%float]) by exact Hf.
  assert (Hflat1 : evalFunc s1 = flat) by exact Hflat.
  assert (Hb1 : branchLog s1 = Contraction :: branchLog s) by reflexivity.
  clearbody s1. rewrite Hf1, !val_zeros.
  rewrite zero_lt. cbn [andb].
  set (s2 := contract_inside_fn s1).
  assert (Hf2 : f s2 = [0%float; 0%float]) by exact Hf1.
  assert (Hflat2 : evalFunc s2 = flat) by exact Hflat1.
  assert (Hb2 : branchLog s2 = branchLog s1) by reflexivity.
  clearbody s2.
  set (s3 := set_vc _ s2).
  assert (Hf3 : f s3 = [0%float; 0%float]) by exact Hf2.
  assert (Hflat3 : evalFunc s3 = flat) by exact Hflat2.
  assert (Hb3 : branchLog s3 = branchLog s2) by reflexivity.
  clearbody s3.
  destruct (doEvaluate_flat ContractionEval (vc s3) s3 Hflat3) as (s4 & -> & Hf4 & _ & Hb4).
  rewrite Hf4, Hf3, val_zeros.
  rewrite zero_lt.
  rewrite branchLog_shrink_fn. congruence.
Qed.

Lemma flat_iteration_log (s : NelderMead float) :
  flat_state s ->
  branchLog (iteration_fn s) = Shrink :: Contraction :: Reflection :: branchLog s.
Proof.
  intros Hs. pose proof (flat_table s Hs) as Hf. destruct Hs as (_ & _ & Hflat & _).
  unfold iteration_fn, accepted_fn.
  set (s1 := reflected_fn s).
  assert (Hf1 : f s1 = [0%float; 0%float]) by exact Hf.
  assert (Hflat1 : evalFunc s1 = flat) by exact Hflat.
  assert (Hb1 : branchLog s1 = Reflection :: branchLog s) by reflexivity.
  clearbody s1.
  destruct (doEvaluate_flat ReflectionEval (vr s1) s1 Hflat1) as (s2 & -> & Hf2 & Hflat2 & Hb2).
  rewrite Hf1 in Hf2. rewrite Hflat1 in Hflat2. rewrite Hb1 in Hb2.
  rewrite flat_accept_reflection, flat_expansion by assumption.
  now rewrite flat_contraction, Hb2.
Qed.

Lemma flat_iteration (s : NelderMead float) : flat_state s -> flat_state (iteration_fn s).
Proof.
  intros (Hr & Hsize & Hflat & Hmax & Hs).
  pose proof (setup_iteration_fn s) as (Hs1 & Hs2 & _ & Hs4 & _).
  split; [now apply ready_iteration_fn|].
  split; [congruence|]. split; [congruence|]. split; [congruence|].
  now apply synced_iteration_fn.
Qed.

Lemma flat_not_converged (s : NelderMead float) :
  flat_state s -> (spread (f s) (size s) <? 0%float)%D = false.
Proof.
  intros Hs. rewrite (flat_table s Hs). destruct Hs as (_ & -> & _).
  vm_compute. reflexivity.
Qed.

(** The loop runs all its iterations, each through contraction and shrink. *)
Lemma flat_loop (n : nat) (ic : Z) (s : NelderMead float) :
  flat_state s -> 0 <= ic <= many -> (Z.to_nat (many - ic) < n)%nat ->
  exists s',
    exec_loop_fn n 0%float ic s = Ok (many + 1, s') /\ flat_state s' /\
    Z.of_nat (times Reflection (branchLog s'))
    = Z.of_nat (times Reflection (branchLog s)) + (many - ic) /\
    Z.of_nat (times Expansion (branchLog s')) = Z.of_nat (times Expansion (branchLog s)) /\
    Z.of_nat (times Contraction (branchLog s'))
    = Z.of_nat (times Contraction (branchLog s)) + (many - ic) /\
    Z.of_nat (times Shrink (branchLog s'))
    = Z.of_nat (times Shrink (branchLog s)) + (many - ic).
Proof.
  revert ic s. induction n as [|n IH]; intros ic s Hs Hic Hn; [lia|].
  cbn [exec_loop_fn]. cbv zeta.
  assert (Hmany : many < 2 ^ 32 - 1) by reflexivity.
  rewrite u32_small by lia.
  pose proof Hs as (_ & _ & _ & Hmax & _). rewrite Hmax.
  destruct (ic + 1 <=? many)%Z eqn:Hle.
  - pose proof (flat_iteration s Hs) as Hs'.
    rewrite (flat_not_converged _ Hs').
    destruct (IH (ic + 1) (iteration_fn s) Hs' ltac:(lia) ltac:(lia))
      as (s' & Hrun & Hs'' & HR & HE & HC & HS).
    exists s'. split; [exact Hrun|]. split; [exact Hs''|].
    rewrite (flat_iteration_log s Hs) in HR, HE, HC, HS.
    cbn [times branch_eqb] in HR, HE, HC, HS. lia.
  - exists s. assert (ic = many) by lia. subst ic.
    split; [reflexivity|]. split; [exact Hs|]. lia.
Qed.

Lemma ready_flat_search : ready flat_search.
Proof.
  split; [apply wf_setMaxIterations, wf_blank; lia|]. split; [reflexivity|exact I].
Qed.

Lemma flat_begin : flat_state (exec_begin_fn [0%float] 1%float flat_search).
Proof.
  pose proof (setup_exec_begin_fn [0%float] 1%float flat_search) as (H1 & H2 & _ & H4 & _).
  split; [apply ready_exec_begin_fn, ready_flat_search|].
  split; [now rewrite <- H1|]. split; [now rewrite <- H2|]. split; [now rewrite <- H4|].
  apply synced_exec_begin_fn.
Qed.

Lemma flat_run (fuel : nat) :
  (Z.to_nat many < fuel)%nat ->
  exists r,
    exec fuel [0%float] 0%float 1%float flat_search = Ok r /\
    iterationCount (lastExecResults r) = many + 1 /\
    r_evalCount (lastExecResults r) = 5 /\
    Z.of_nat (length (evalLog r)) = 2 ^ 32 + 5.
Proof.
  intros Hfuel. assert (Hmany : many = 715827883) by reflexivity.
  rewrite exec_closed; [|apply ready_flat_search|unfold enough; cbn [size]|cbn; lia].
  2: { change (size flat_search) with 1. lia. }
  destruct (flat_loop fuel 0 _ flat_begin ltac:(lia) ltac:(rewrite Z.sub_0_r; exact Hfuel))
    as (s' & Hloop & Hs' & HR & HE & HC & HS).
  assert (Hrun : exec_fn fuel [0%float] 0%float 1%float flat_search
                 = Ok (exec_end_fn (many + 1) s')).
  { unfold exec_fn. rewrite Hloop. reflexivity. }
  exists (exec_end_fn (many + 1) s'). split; [exact Hrun|].
  split; [reflexivity|].
  destruct (exec_fn_tally _ _ _ _ _ _ ready_flat_search Hrun) as [Hc Hl].
  assert (Hb : branchLog (exec_end_fn (many + 1) s') = branchLog s') by reflexivity.
  assert (H0 : branchLog (exec_begin_fn [0%float] 1%float flat_search) = []) by reflexivity.
  rewrite H0 in HR, HE, HC, HS. cbn [times] in HR, HE, HC, HS.
  change (size flat_search) with 1 in Hl. unfold accounted in Hl. rewrite Hb in Hl.
  assert (Hlen : Z.of_nat (length (evalLog (exec_end_fn (many + 1) s'))) = 2 ^ 32 + 5) by lia.
  split; [|exact Hlen]. rewrite Hc, Hlen. reflexivity.
Qed.

(** C7, counterexample: on the constant objective with one variable, the
    maximum set to 715827883 and tolerance 0, every iteration goes through
    reflection, contraction and shrink, six evaluations each.  The run makes
    [2 + 6 * 715827883 + 1 = 2^32 + 5] calls of the objective, and the
    [evalCount] of the result is 5. *)
Theorem evalCount_wraps :
  exists r,
    exec (Z.to_nat (many + 1)) [0%float] 0%float 1%float flat_search = Ok r /\
    iterationCount (lastExecResults r) = many + 1 /\
    r_evalCount (lastExecResults r) = 5 /\
    Z.of_nat (length (evalLog r)) = 2 ^ 32 + 5.
Proof. apply flat_run. apply Z2Nat.inj_lt; unfold many; lia. Qed.

End Wrap.

(** ** Runs from objects with the same setup *)

Section Replay.
Context {D : Type} {ops : DoubleOps D}.
Implicit Types s : NelderMead D.

Ltac agreed :=
  unfold alike, agree, same_setup in *; frame; unfold constrain; frame;
  repeat match goal with H : _ /\ _ |- _ => destruct H end;
  repeat match goal with H : _ = _ |- _ => try rewrite H; clear H end;
  repeat split.

Lemma agree_doIndexes_fn s1 s2 : agree s1 s2 -> agree (doIndexes_fn s1) (doIndexes_fn s2).
Proof. intros H. agreed. Qed.

Lemma alike_reflected_fn s1 s2 : agree s1 s2 -> alike (reflected_fn s1) (reflected_fn s2).
Proof. intros H. unfold reflected_fn, constrain. cbv zeta. agreed. Qed.

Lemma alike_log (b : branch) s1 s2 :
  alike s1 s2 ->
  alike (set_branchLog (b :: branchLog s1) s1) (set_branchLog (b :: branchLog s2) s2).
Proof. intros H. agreed. Qed.

Lemma alike_replace_worst_fn (src : NelderMead D -> list D) (fx : D) s1 s2 :
  scratch src -> alike s1 s2 -> src s1 = src s2 ->
  alike (replace_worst_fn src fx s1) (replace_worst_fn src fx s2).
Proof. intros _ H Hsrc. agreed; now rewrite ?Hsrc. Qed.

Lemma alike_doEvaluate (from : site) (x : list D) s1 s2 :
  alike s1 s2 ->
  fst (doEvaluate from x s1) = fst (doEvaluate from x s2) /\
  alike (snd (doEvaluate from x s1)) (snd (doEvaluate from x s2)).
Proof. intros H. agreed. Qed.

Lemma alike_accept_reflection_fn (fr : D) s1 s2 :
  alike s1 s2 -> alike (accept_reflection_fn fr s1) (accept_reflection_fn fr s2).
Proof.
  intros H. pose proof H as ((_ & _ & Hf & _ & Hvs & Hvh & _) & _ & Hvr).
  unfold accept_reflection_fn. rewrite Hf, Hvs, Hvh.
  destruct (_ && _); [|exact H].
  apply alike_replace_worst_fn; [apply scratch_vr | now apply alike_log | exact Hvr].
Qed.

Lemma alike_expansion_fn (fr : D) s1 s2 :
  alike s1 s2 -> alike (expansion_fn fr s1) (expansion_fn fr s2).
Proof.
  intros H. pose proof H as ((_ & _ & Hf & _ & Hvs & _) & _).
  unfold expansion_fn. rewrite Hf, Hvs.
  destruct (fr <? _)%D; [|exact H]. cbv zeta.
  apply (alike_log Expansion) in H.
  set (t1 := set_branchLog _ s1) in *. set (t2 := set_branchLog _ s2) in *.
  clearbody t1 t2.
  assert (H' : alike (set_ve (constrain (ve (expand_fn t1)) (expand_fn t1)) (expand_fn t1))
                     (set_ve (constrain (ve (expand_fn t2)) (expand_fn t2)) (expand_fn t2))
               /\ ve (set_ve (constrain (ve (expand_fn t1)) (expand_fn t1)) (expand_fn t1))
                  = ve (set_ve (constrain (ve (expand_fn t2)) (expand_fn t2)) (expand_fn t2))).
  { unfold constrain. clear Hf Hvs. agreed. }
  destruct H' as [H' Hve].
  set (u1 := set_ve _ _) in *. set (u2 := set_ve _ (expand_fn t2)) in *.
  clearbody u1 u2. rewrite Hve.
  destruct (alike_doEvaluate ExpansionEval (ve u2) u1 u2 H') as [Hfe Hw].
  destruct (doEvaluate ExpansionEval (ve u2) u1) as [fe1 w1] eqn:E1.
  destruct (doEvaluate ExpansionEval (ve u2) u2) as [fe2 w2] eqn:E2.
  cbn [fst snd] in Hfe, Hw. subst fe2.
  assert (Hve' : ve w1 = ve w2).
  { unfold doEvaluate in E1, E2. inversion E1; inversion E2; subst. exact Hve. }
  destruct (fe1 <? fr)%D.
  - now apply alike_replace_worst_fn; [apply scratch_ve | |].
  - apply alike_replace_worst_fn; [apply scratch_vr | exact Hw | apply Hw].
Qed.

Lemma alike_doIndexes_fn s1 s2 : alike s1 s2 -> alike (doIndexes_fn s1) (doIndexes_fn s2).
Proof. intros H. agreed. Qed.

Lemma alike_shrink_rows s1 s2 :
  alike s1 s2 ->
  alike (set_v (shrink_rows (v s1) (size s1) (vs s1)) s1)
        (set_v (shrink_rows (v s2) (size s2) (vs s2)) s2).
Proof. intros H. agreed. Qed.

Lemma alike_evaluate_all_fn (from : site) s1 s2 :
  alike s1 s2 -> alike (evaluate_all_fn from s1) (evaluate_all_fn from s2).
Proof. intros H. agreed. Qed.

Lemma alike_reconstrain_vertex_fn (from : site) (i : Z) s1 s2 :
  alike s1 s2 -> alike (reconstrain_vertex_fn from i s1) (reconstrain_vertex_fn from i s2).
Proof. intros H. agreed. Qed.

Lemma alike_shrink_fn s1 s2 : alike s1 s2 -> alike (shrink_fn s1) (shrink_fn s2).
Proof.
  intros H. unfold shrink_fn. cbv zeta.
  apply (alike_log Shrink) in H.
  set (t1 := set_branchLog _ s1) in *. set (t2 := set_branchLog _ s2) in *.
  clearbody t1 t2.
  apply alike_shrink_rows, (alike_evaluate_all_fn ShrinkEval), alike_doIndexes_fn in H.
  set (u1 := doIndexes_fn _) in *. set (u2 := doIndexes_fn (evaluate_all_fn _ (set_v _ t2))) in *.
  clearbody u1 u2.
  pose proof H as ((_ & _ & _ & _ & _ & _ & Hvg & _) & _). rewrite Hvg.
  apply (alike_reconstrain_vertex_fn ShrinkWorstEval (vg u2)) in H.
  set (w1 := reconstrain_vertex_fn _ _ u1) in *.
  set (w2 := reconstrain_vertex_fn _ _ u2) in *.
  clearbody w1 w2.
  pose proof H as ((_ & _ & _ & _ & _ & Hvh & _) & _). rewrite Hvh.
  now apply alike_reconstrain_vertex_fn.
Qed.

Lemma alike_contracted s1 s2 (c : bool) :
  alike s1 s2 ->
  alike (if c then contract_outside_fn s1 else contract_inside_fn s1)
        (if c then contract_outside_fn s2 else contract_inside_fn s2) /\
  vc (if c then contract_outside_fn s1 else contract_inside_fn s1)
  = vc (if c then contract_outside_fn s2 else contract_inside_fn s2).
Proof. intros H. destruct c; agreed. Qed.

Lemma alike_constrain_vc s1 s2 :
  alike s1 s2 -> vc s1 = vc s2 ->
  alike (set_vc (constrain (vc s1) s1) s1) (set_vc (constrain (vc s2) s2) s2) /\
  vc (set_vc (constrain (vc s1) s1) s1) = vc (set_vc (constrain (vc s2) s2) s2).
Proof. intros H Hvc. unfold constrain. agreed; now rewrite ?Hvc. Qed.

Lemma alike_contraction_fn (fr : D) s1 s2 :
  alike s1 s2 -> alike (contraction_fn fr s1) (contraction_fn fr s2).
Proof.
  intros H. pose proof H as ((_ & _ & Hf & _ & _ & Hvh & Hvg & _) & _).
  unfold contraction_fn. cbv zeta.
  change (f (set_branchLog (Contraction :: branchLog s1) s1)) with (f s1).
  change (vg (set_branchLog (Contraction :: branchLog s1) s1)) with (vg s1).
  change (vh (set_branchLog (Contraction :: branchLog s1) s1)) with (vh s1).
  change (f (set_branchLog (Contraction :: branchLog s2) s2)) with (f s2).
  change (vg (set_branchLog (Contraction :: branchLog s2) s2)) with (vg s2).
  change (vh (set_branchLog (Contraction :: branchLog s2) s2)) with (vh s2).
  rewrite Hf, Hvh, Hvg. clear Hf Hvh Hvg.
  set (c := ((fr <? val (f s2) (vg s2)) && (fr >=? val (f s2) (vh s2)))%D).
  clearbody c.
  destruct (fr >=? _)%D; [|exact H].
  apply (alike_log Contraction) in H.
  set (t1 := set_branchLog _ s1) in *. set (t2 := set_branchLog _ s2) in *.
  clearbody t1 t2.
  destruct (alike_contracted t1 t2 c H) as [H1 Hvc1].
  set (u1 := if c then contract_outside_fn t1 else contract_inside_fn t1) in *.
  set (u2 := if c then contract_outside_fn t2 else contract_inside_fn t2) in *.
  clearbody u1 u2.
  destruct (alike_constrain_vc u1 u2 H1 Hvc1) as [H2 Hvc2].
  set (w1 := set_vc _ u1) in *. set (w2 := set_vc _ u2) in *.
  clearbody w1 w2. rewrite Hvc2.
  destruct (alike_doEvaluate ContractionEval (vc w2) w1 w2 H2) as [Hfc Hx].
  destruct (doEvaluate ContractionEval (vc w2) w1) as [fc1 x1] eqn:E1.
  destruct (doEvaluate ContractionEval (vc w2) w2) as [fc2 x2] eqn:E2.
  cbn [fst snd] in Hfc, Hx. subst fc2.
  assert (Hvc' : vc x1 = vc x2).
  { unfold doEvaluate in E1, E2. inversion E1; inversion E2; subst. exact Hvc2. }
  pose proof Hx as ((_ & _ & Hf & _ & _ & _ & Hvg & _) & _). rewrite Hf, Hvg.
  destruct (fc1 <? _)%D.
  - now apply alike_replace_worst_fn; [apply scratch_vc | |].
  - now apply alike_shrink_fn.
Qed.

Lemma alike_accepted_fn s1 s2 : alike s1 s2 -> alike (accepted_fn s1) (accepted_fn s2).
Proof.
  intros H. pose proof H as (_ & _ & Hvr). unfold accepted_fn. rewrite Hvr.
  destruct (alike_doEvaluate ReflectionEval (vr s2) s1 s2 H) as [Hfr Hx].
  destruct (doEvaluate ReflectionEval (vr s2) s1) as [fr1 x1].
  destruct (doEvaluate ReflectionEval (vr s2) s2) as [fr2 x2].
  cbn [fst snd] in Hfr, Hx. subst fr2.
  now apply alike_contraction_fn, alike_expansion_fn, alike_accept_reflection_fn.
Qed.

Lemma agree_iteration_fn s1 s2 : agree s1 s2 -> agree (iteration_fn s1) (iteration_fn s2).
Proof. intros H. unfold iteration_fn. now apply alike_accepted_fn, alike_reflected_fn. Qed.

(** The first part of a run reads nothing but the setup. *)
Lemma agree_exec_begin_fn (start : list D) (scale : D) s1 s2 :
  same_setup s1 s2 -> agree (exec_begin_fn start scale s1) (exec_begin_fn start scale s2).
Proof.
  intros H. unfold exec_begin_fn. cbv zeta.
  assert (Hc : constrainFunc (doInitialize_fn start scale s1)
               = constrainFunc (doInitialize_fn start scale s2)) by apply H.
  rewrite Hc.
  assert (Hc2 : constrainFunc (doInitialize_fn start scale s2) = constrainFunc s2)
    by reflexivity.
  rewrite Hc2. clear Hc Hc2. unfold doInitialize_fn. cbv zeta.
  destruct (constrainFunc s2); agreed.
Qed.

Lemma agree_exec_loop_fn (n : nat) (tol : D) (ic : Z) s1 s2 :
  agree s1 s2 -> agree_loops (exec_loop_fn n tol ic s1) (exec_loop_fn n tol ic s2).
Proof.
  revert ic s1 s2. induction n as [|n IH]; intros ic s1 s2 H; [exact I|].
  cbn [exec_loop_fn]. cbv zeta.
  pose proof H as ((_ & _ & _ & Hmax & _) & _). rewrite Hmax.
  destruct (_ <=? _)%Z.
  - pose proof (agree_iteration_fn s1 s2 H) as H'.
    pose proof H' as ((Hsize & _) & _ & Hf & _). rewrite Hf, Hsize.
    destruct (_ <? tol)%D; [split; [reflexivity | exact H'] | now apply IH].
  - split; [reflexivity | exact H].
Qed.

Lemma agree_exec_end_fn (ic : Z) s1 s2 :
  agree s1 s2 ->
  lastExecResults (exec_end_fn ic s1) = lastExecResults (exec_end_fn ic s2).
Proof. intros H. unfold exec_end_fn. cbv zeta. agreed. Qed.

(** Runs from two objects with the same setup store the same results. *)
Lemma exec_fn_replay (n : nat) (start : list D) (tol scale : D) s1 s2 :
  same_setup s1 s2 ->
  outcome_map lastExecResults (exec_fn n start tol scale s1)
  = outcome_map lastExecResults (exec_fn n start tol scale s2).
Proof.
  intros H. unfold exec_fn.
  pose proof (agree_exec_loop_fn n tol 0 _ _ (agree_exec_begin_fn start scale s1 s2 H)) as Hl.
  destruct (exec_loop_fn n tol 0 (exec_begin_fn start scale s1)) as [[i1 r1]| |];
    destruct (exec_loop_fn n tol 0 (exec_begin_fn start scale s2)) as [[i2 r2]| |];
    try contradiction; try reflexivity.
  destruct Hl as [Hi Hr]. cbn [fst snd] in Hi, Hr. subst i2.
  cbn [bind outcome_map fst snd]. f_equal. now apply agree_exec_end_fn.
Qed.

(** A run leaves an object that is ready for the next one, with the setup
    it had. *)
Lemma exec_fn_keeps_ready (n : nat) (start : list D) (tol scale : D) s r :
  ready s -> exec_fn n start tol scale s = Ok r -> ready r /\ same_setup s r.
Proof.
  intros Hr. unfold exec_fn.
  destruct (exec_loop_fn n tol 0 (exec_begin_fn start scale s)) as [[ic s1]| |] eqn:Hloop;
    try discriminate.
  cbn [bind fst snd]. intros Hp. inversion Hp; subst. clear Hp.
  apply (exec_loop_fn_invariant (fun _ => True)) in Hloop;
    [|auto|now apply ready_exec_begin_fn|exact I].
  destruct Hloop as (Hr1 & Hset & _).
  assert (Hset' : same_setup s s1).
  { apply (same_setup_trans _ (exec_begin_fn start scale s)); [|exact Hset].
    apply setup_exec_begin_fn. }
  split.
  - pose proof (ready_doIndexes_fn s1 Hr1) as (Hwf & H1 & Hlp).
    split; [|split].
    + unfold exec_end_fn. cbn [doEvaluate].
      now apply wf_set_lastExecResults, wf_set_evalLog, wf_set_evalCount.
    + exact H1.
    + exact Hlp.
  - destruct Hset' as (? & ? & ? & ? & ? & ? & ?). repeat split; assumption.
Qed.

(** X6: Two runs with the same start point, tolerance and scale, from objects
    with the same dimension, callbacks and configuration, store the same
    results (or run out of fuel alike), whatever else the two objects hold;
    and a run leaves an object with the setup it had, fit for the next run,
    so the state left by any earlier runs does not matter. *)
Theorem runs_repeat (fuel : nat) (start : list D) (tol scale : D) s1 s2 :
  wf s1 -> wf s2 -> 1 <= size s1 -> length_preserving s1 -> same_setup s1 s2 ->
  (Z.to_nat (size s1) <= length start)%nat -> enough fuel s1 ->
  outcome_map lastExecResults (exec fuel start tol scale s1)
  = outcome_map lastExecResults (exec fuel start tol scale s2) /\
  (forall (start' : list D) (tol' scale' : D) r,
     (Z.to_nat (size s1) <= length start')%nat ->
     exec fuel start' tol' scale' s1 = Ok r ->
     wf r /\ same_setup s1 r /\
     outcome_map lastExecResults (exec fuel start tol scale r)
     = outcome_map lastExecResults (exec fuel start tol scale s1)).
Proof.
  intros Hwf1 Hwf2 H1 Hlp Hset Hstart Hfuel.
  assert (Hr1 : ready s1) by (split; [|split]; assumption).
  assert (Hnext : forall s, wf s -> same_setup s1 s ->
            ready s /\ enough fuel s /\ (Z.to_nat (size s) <= length start)%nat).
  { intros s Hwf Hs. pose proof Hs as (Hsize & _ & Hc & _).
    split; [|split].
    - split; [exact Hwf|]. split; [now rewrite <- Hsize|].
      unfold length_preserving in *. now rewrite <- Hc.
    - now apply (enough_same fuel s1).
    - now rewrite <- Hsize. }
  split.
  - destruct (Hnext s2 Hwf2 Hset) as (Hr2 & Hf2 & Hst2).
    rewrite !exec_closed by assumption. now apply exec_fn_replay.
  - intros start' tol' scale' r Hstart' Hrun.
    rewrite exec_closed in Hrun by assumption.
    destruct (exec_fn_keeps_ready _ _ _ _ _ _ Hr1 Hrun) as [Hr Hs].
    split; [apply Hr|]. split; [exact Hs|].
    destruct (Hnext r ltac:(apply Hr) Hs) as (_ & Hfr & Hstr).
    rewrite !exec_closed by assumption. apply exec_fn_replay.
    now apply same_setup_sym.
Qed.

End Replay.

Module Replays.
Import Examples.

Lemma wf_used_search : wf used_search.
Proof. constructor; cbn; try lia; try reflexivity. repeat constructor. Qed.

Lemma runs_repeat_witness :
  outcome_map lastExecResults (exec 1001 [0%float] 0.0009765625%float 1%float line_search)
  = outcome_map lastExecResults (exec 1001 [0%float] 0.0009765625%float 1%float used_search) /\
  (forall (start' : list float) (tol' scale' : float) r,
     (Z.to_nat (size line_search) <= length start')%nat ->
     exec 1001 start' tol' scale' line_search = Ok r ->
     wf r /\ same_setup line_search r /\
     outcome_map lastExecResults (exec 1001 [0%float] 0.0009765625%float 1%float r)
     = outcome_map lastExecResults
         (exec 1001 [0%float] 0.0009765625%float 1%float line_search)).
Proof.
  apply (runs_repeat 1001 [0%float] 0.0009765625%float 1%float line_search used_search).
  - apply wf_blank. lia.
  - exact wf_used_search.
  - simpl. lia.
  - exact I.
  - repeat split.
  - simpl. lia.
  - unfold enough. simpl. lia.
Defined.

End Replays.

(** ** The role indices *)

Section Scan.
Variables (R : Z -> Z -> bool) (N : Z).
Hypothesis irrefl : forall i, 0 <= i <= N -> R i i = false.
Hypothesis trans : forall i j k, 0 <= i <= N -> 0 <= j <= N -> 0 <= k <= N ->
  R i j = true -> R j k = true -> R i k = true.
Hypothesis negtrans : forall i j k, 0 <= i <= N -> 0 <= j <= N -> 0 <= k <= N ->
  R i j = false -> R j k = false -> R i k = false.

(** What is strictly beyond something not below [j] is strictly beyond [j]. *)
Lemma beyond i j k :
  0 <= i <= N -> 0 <= j <= N -> 0 <= k <= N ->
  R i j = false -> R i k = true -> R j k = true.
Proof.
  intros Hi Hj Hk Hij Hik. destruct (R j k) eqn:E; [reflexivity|].
  rewrite (negtrans i j k) in Hik by assumption. discriminate.
Qed.

Lemma not_beyond i j k :
  0 <= i <= N -> 0 <= j <= N -> 0 <= k <= N ->
  R i j = true -> R i k = false -> R j k = false.
Proof.
  intros Hi Hj Hk Hij Hik. destruct (R j k) eqn:E; [|reflexivity].
  rewrite (trans i j k) in Hik by assumption. discriminate.
Qed.

(** A scan that moves to [j] when [j] is strictly beyond the current index
    ends at an extreme; it keeps the index it started from unless an index
    strictly beyond it exists, and then ends at the first extreme one. *)
Lemma scan_extreme (k : nat) (a0 : Z) :
  0 <= a0 <= N -> Z.of_nat k <= N + 1 ->
  let a := fold_left (fun a j => if R a j then j else a) (seqZ 0 (Z.of_nat k)) a0 in
  0 <= a <= N /\ R a a0 = false /\
  (forall j, 0 <= j < Z.of_nat k -> R a j = false) /\
  (a = a0 \/
   (0 <= a < Z.of_nat k /\ R a0 a = true /\ forall j, 0 <= j < a -> R j a = true)).
Proof.
  intros Ha0. cbv zeta. induction k as [|k IH]; intros Hk.
  - change (seqZ 0 (Z.of_nat 0)) with (@nil Z). cbn [fold_left].
    split; [lia|]. split; [now apply irrefl|]. split; [lia|now left].
  - rewrite Nat2Z.inj_succ. unfold Z.succ. rewrite fold_seqZ_succ by lia.
    destruct IH as (Hr & Hdom & Hmax & Hfirst); [lia|].
    set (a := fold_left _ _ a0) in *. clearbody a.
    assert (Hn : 0 <= Z.of_nat k <= N) by lia.
    destruct (R a (Z.of_nat k)) eqn:E.
    + split; [lia|].
      split; [now apply (not_beyond a)|]. split.
      * intros j Hj. destruct (Z.eq_dec j (Z.of_nat k)) as [->|Hne]; [now apply irrefl|].
        apply (not_beyond a); try lia; [assumption|]. apply Hmax. lia.
      * right. split; [lia|]. split; [now apply (beyond a)|].
        intros j Hj. apply (beyond a); try lia; [|assumption]. apply Hmax. lia.
    + split; [lia|]. split; [assumption|]. split.
      * intros j Hj. destruct (Z.eq_dec j (Z.of_nat k)) as [->|Hne]; [assumption|].
        apply Hmax. lia.
      * destruct Hfirst as [->|(Hlt & H1 & H2)]; [now left|right].
        split; [lia|]. split; assumption.
Qed.

(** The second scan: from [b] to the largest values strictly before [g]. *)
Lemma scan_second (k : nat) (g b : Z) :
  0 <= g <= N -> 0 <= b <= N -> Z.of_nat k <= N + 1 ->
  let h := fold_left (fun h j => if R h j && R j g then j else h)
             (seqZ 0 (Z.of_nat k)) b in
  0 <= h <= N /\
  (forall j, 0 <= j < Z.of_nat k -> R j g = true -> R h j = false) /\
  (h = b \/
   (0 <= h < Z.of_nat k /\ R b h = true /\ R h g = true /\
    forall j, 0 <= j < h -> R j g = true -> R j h = true)).
Proof.
  intros Hg Hb. cbv zeta. induction k as [|k IH]; intros Hk.
  - change (seqZ 0 (Z.of_nat 0)) with (@nil Z). cbn [fold_left].
    split; [lia|]. split; [lia|now left].
  - rewrite Nat2Z.inj_succ. unfold Z.succ. rewrite fold_seqZ_succ by lia.
    destruct IH as (Hr & Hmax & Hfirst); [lia|].
    set (h := fold_left _ _ b) in *. clearbody h.
    assert (Hn : 0 <= Z.of_nat k <= N) by lia.
    destruct (R h (Z.of_nat k)) eqn:E1; cbn [andb].
    + destruct (R (Z.of_nat k) g) eqn:E2.
      * split; [lia|]. split.
        -- intros j Hj Hjg.
           destruct (Z.eq_dec j (Z.of_nat k)) as [->|Hne]; [now apply irrefl|].
           apply (not_beyond h); try lia; [assumption|]. apply Hmax; [lia|assumption].
        -- right. split; [lia|]. split; [|split; [assumption|]].
           ++ destruct Hfirst as [->|(_ & Hbh & _)]; [assumption|].
              now apply (trans b h).
           ++ intros j Hj Hjg. apply (beyond h); try lia; [|assumption].
              apply Hmax; [lia|assumption].
      * split; [lia|]. split.
        -- intros j Hj Hjg.
           destruct (Z.eq_dec j (Z.of_nat k)) as [->|Hne]; [congruence|].
           apply Hmax; [lia|assumption].
        -- destruct Hfirst as [->|(Hlt & H1 & H2 & H3)]; [now left|right].
           split; [lia|]. repeat split; assumption.
    + split; [lia|]. split.
      * intros j Hj Hjg.
        destruct (Z.eq_dec j (Z.of_nat k)) as [->|Hne]; [assumption|].
        apply Hmax; [lia|assumption].
      * destruct Hfirst as [->|(Hlt & H1 & H2 & H3)]; [now left|right].
        split; [lia|]. repeat split; assumption.
Qed.

End Scan.

Section Roles.
Context {D : Type} {ops : DoubleOps D}.
Implicit Types s : NelderMead D.

Lemma worst_best_split (F : list D) (l : list Z) (g b : Z) :
  fold_left (step_worst_best F) l (g, b)
  = (fold_left (fun a j => if below F a j then j else a) l g,
     fold_left (fun a j => if below F j a then j else a) l b).
Proof. revert g b. induction l as [|j l IH]; intros g b; [reflexivity|]. apply IH. Qed.

Lemma second_scan (F : list D) (l : list Z) (g b : Z) :
  fold_left (step_second F g) l b
  = fold_left (fun h j => if below F h j && below F j g then j else h) l b.
Proof. reflexivity. Qed.

(** X5: On a value table on which [<] is a strict weak order (no NaN),
    [doIndexes] returns with [vg] at a maximum and [vs] at a minimum of
    [f]; each of the two keeps the index carried over from before unless a
    strictly more extreme value exists, and is then the first index of the
    scan with the extreme value.  No value strictly below [f[vg]] is above
    [f[vh]], and [f[vh]] is strictly below [f[vg]] when some value is; [vh] is
    then [vs] or the first such index of the scan, and [vh = vs] when no
    value is strictly below [f[vg]].  The triple is a function of the table
    and of the carried [vg] and [vs]. *)
Theorem role_indices (fuel : nat) s :
  wf s -> enough fuel s -> strict_weak_order_on (f s) (size s) ->
  exists s',
    doIndexes fuel s = Ok s' /\ f s' = f s /\ size s' = size s /\
    (vg s', vs s') = worst_best (f s) (size s) (vg s) (vs s) /\
    vh s' = second (f s) (size s) (vg s') (vs s') /\
    (0 <= vs s' <= size s /\ 0 <= vh s' <= size s /\ 0 <= vg s' <= size s) /\
    (forall j, 0 <= j <= size s -> below (f s) (vg s') j = false) /\
    (forall j, 0 <= j <= size s -> below (f s) j (vs s') = false) /\
    (vg s' = vg s \/
     (below (f s) (vg s) (vg s') = true /\
      forall j, 0 <= j < vg s' -> below (f s) j (vg s') = true)) /\
    (vs s' = vs s \/
     (below (f s) (vs s') (vs s) = true /\
      forall j, 0 <= j < vs s' -> below (f s) (vs s') j = true)) /\
    (forall j, 0 <= j <= size s -> below (f s) j (vg s') = true ->
       below (f s) (vh s') j = false) /\
    ((exists j, 0 <= j <= size s /\ below (f s) j (vg s') = true) ->
     below (f s) (vh s') (vg s') = true) /\
    ((forall j, 0 <= j <= size s -> below (f s) j (vg s') = false) -> vh s' = vs s') /\
    (vh s' = vs s' \/
     (below (f s) (vs s') (vh s') = true /\
      forall j, 0 <= j < vh s' -> below (f s) j (vg s') = true ->
        below (f s) j (vh s') = true)).
Proof.
  intros Hwf Hfuel [Hirr Htr Hneg].
  exists (doIndexes_fn s). split; [now apply doIndexes_closed|].
  destruct Hwf as [HN _ _ _ _ _ _ _ Hvs _ Hvg _ _].
  unfold doIndexes_fn. cbv zeta.
  cbn [f size vg vs vh set_vh set_vs set_vg].
  unfold worst_best, second. rewrite worst_best_split, second_scan. cbn [fst snd].
  assert (HZ : Z.of_nat (Z.to_nat (size s + 1)) = size s + 1) by lia.
  pose proof (scan_extreme (below (f s)) (size s) Hirr Htr Hneg
                (Z.to_nat (size s + 1)) (vg s) Hvg ltac:(lia)) as Hmax.
  pose proof (scan_extreme (fun i j => below (f s) j i) (size s) Hirr
                ltac:(intros i j k ? ? ? ? ?; now apply (Htr k j i))
                ltac:(intros i j k ? ? ? ? ?; now apply (Hneg k j i))
                (Z.to_nat (size s + 1)) (vs s) Hvs ltac:(lia)) as Hmin.
  cbv zeta in Hmax, Hmin. rewrite HZ in Hmax, Hmin.
  set (g := fold_left _ _ (vg s)) in *. set (b := fold_left _ _ (vs s)) in *.
  clearbody g b.
  destruct Hmax as (Hg & _ & Hgmax & Hgfirst). destruct Hmin as (Hb & _ & Hbmin & Hbfirst).
  pose proof (scan_second (below (f s)) (size s) Hirr Htr Hneg
                (Z.to_nat (size s + 1)) g b Hg Hb ltac:(lia)) as Hsec.
  cbv zeta in Hsec. rewrite HZ in Hsec.
  set (h := fold_left _ _ b) in *. clearbody h.
  destruct Hsec as (Hh & Hhmax & Hhfirst).
  split; [reflexivity|]. split; [reflexivity|]. split; [reflexivity|].
  split; [reflexivity|]. split; [lia|].
  split; [intros j Hj; apply Hgmax; lia|].
  split; [intros j Hj; apply Hbmin; lia|].
  split; [destruct Hgfirst as [->|(_ & H1 & H2)]; [now left | right; now split]|].
  split; [destruct Hbfirst as [->|(_ & H1 & H2)]; [now left | right; now split]|].
  split; [intros j Hj; apply Hhmax; lia|].
  split; [|split].
  - intros (j & Hj & Hjg). destruct Hhfirst as [->|(_ & _ & H & _)]; [|exact H].
    apply (beyond (below (f s)) (size s) Hneg j); try assumption. apply Hbmin. lia.
  - intros Hall. destruct Hhfirst as [->|(_ & _ & H & _)]; [reflexivity|].
    rewrite Hall in H by lia. discriminate.
  - destruct Hhfirst as [->|(_ & H1 & _ & H2)]; [now left | right; now split].
Qed.

End Roles.

Module Ties.
Import Examples.

Lemma order_used_search : strict_weak_order_on (f used_search) (size used_search).
Proof.
  change (size used_search) with 1.
  constructor; [intros i Hi | intros i j k Hi Hj Hk | intros i j k Hi Hj Hk];
    repeat match goal with
           | H : 0 <= ?x <= 1 |- _ =>
               assert (x = 0 \/ x = 1) as [-> | ->] by lia; clear H
           end;
    vm_compute; congruence.
Qed.

Lemma role_indices_witness :
  exists s',
    doIndexes 5 used_search = Ok s' /\ f s' = f used_search /\
    size s' = size used_search /\
    (vg s', vs s')
    = worst_best (f used_search) (size used_search) (vg used_search) (vs used_search) /\
    vh s' = second (f used_search) (size used_search) (vg s') (vs s') /\
    (0 <= vs s' <= size used_search /\ 0 <= vh s' <= size used_search /\
     0 <= vg s' <= size used_search) /\
    (forall j, 0 <= j <= size used_search -> below (f used_search) (vg s') j = false) /\
    (forall j, 0 <= j <= size used_search -> below (f used_search) j (vs s') = false) /\
    (vg s' = vg used_search \/
     (below (f used_search) (vg used_search) (vg s') = true /\
      forall j, 0 <= j < vg s' -> below (f used_search) j (vg s') = true)) /\
    (vs s' = vs used_search \/
     (below (f used_search) (vs s') (vs used_search) = true /\
      forall j, 0 <= j < vs s' -> below (f used_search) (vs s') j = true)) /\
    (forall j, 0 <= j <= size used_search -> below (f used_search) j (vg s') = true ->
       below (f used_search) (vh s') j = false) /\
    ((exists j, 0 <= j <= size used_search /\ below (f used_search) j (vg s') = true) ->
     below (f used_search) (vh s') (vg s') = true) /\
    ((forall j, 0 <= j <= size used_search -> below (f used_search) j (vg s') = false) ->
     vh s' = vs s') /\
    (vh s' = vs s' \/
     (below (f used_search) (vs s') (vh s') = true /\
      forall j, 0 <= j < vh s' -> below (f used_search) j (vg s') = true ->
        below (f used_search) j (vh s') = true)).
Proof.
  apply (role_indices 5 used_search).
  - exact Replays.wf_used_search.
  - unfold enough. simpl. lia.
  - exact order_used_search.
Defined.

(** Two observation points of runs on [max(x, 0)] with
    the same value table [[0; 0]]: the end of the first iteration of the run
    from 0, and the initial pass of the run from -1.  The next [doIndexes]
    leaves [vg = 1], carried over, at the first and [vg = 0] at the second;
    and [f[vh]] is not strictly below [f[vg]] at either. *)
Theorem roles_depend_on_carried_indices :
  exists s1 s2 r1 r2,
    observable 5 [0%float] 1%float ramp_search s1 /\
    observable 5 [(-1)%float] 1%float ramp_search s2 /\
    f s1 = [0%float; 0%float] /\ f s2 = [0%float; 0%float] /\
    doIndexes 5 s1 = Ok r1 /\ doIndexes 5 s2 = Ok r2 /\
    (vs r1, vh r1, vg r1) = (0, 0, 1) /\ (vs r2, vh r2, vg r2) = (0, 0, 0) /\
    below (f r1) (vh r1) (vg r1) = false.
Proof.
  exists (iteration_fn (exec_begin_fn [0%float] 1%float ramp_search)),
         (exec_begin_fn [(-1)%float] 1%float ramp_search),
         (doIndexes_fn (iteration_fn (exec_begin_fn [0%float] 1%float ramp_search))),
         (doIndexes_fn (exec_begin_fn [(-1)%float] 1%float ramp_search)).
  split.
  { apply (observable_iteration _ _ _ _ (exec_begin_fn [0%float] 1%float ramp_search)).
    - apply observable_begin. vm_compute. reflexivity.
    - vm_compute. reflexivity. }
  split; [apply observable_begin; vm_compute; reflexivity|].
  do 6 (split; [vm_compute; reflexivity|]). vm_compute. reflexivity.
Qed.

(** On [x (1 - x)] from 0 with scale 1 the two initial values are equal,
    so [vs = vh = vg = 0]; the reflection point has a smaller value, the
    expansion is taken and overwrites [f[vg]], which is also [f[vh]], and the
    third test, [fr >= f[vh]], then holds too: the same iteration goes
    through the expansion, the contraction and the shrink. *)
Theorem expansion_and_contraction_in_one_iteration :
  exists s0 s1,
    exec_begin 5 [0%float] 1%float parabola_search = Ok s0 /\
    f s0 = [0%float; 0%float] /\
    iteration 5 s0 = Ok s1 /\
    (vs s1, vh s1, vg s1) = (0, 0, 1) /\
    branchLog s1 = [Shrink; Contraction; Expansion; Reflection] /\
    evalLog s1 = [ShrinkSecondEval; ShrinkWorstEval; ShrinkEval; ShrinkEval;
                  ContractionEval; ExpansionEval; ReflectionEval;
                  InitialEval; InitialEval].
Proof.
  exists (exec_begin_fn [0%float] 1%float parabola_search),
         (iteration_fn (exec_begin_fn [0%float] 1%float parabola_search)).
  do 5 (split; [vm_compute; reflexivity|]). vm_compute. reflexivity.
Qed.

End Ties.

(** * More of the code *)

Section Construction.
Context {D : Type} {ops : DoubleOps D}.
Implicit Types s : NelderMead D.

(** X1: The constructor returns an object of the given dimension with the
    default configuration (1000 iterations, coefficients 1, 0.5 and 2), the
    callbacks it was given, [N + 1] vertices of [N] zeros, [N + 1] zero
    values, four scratch buffers of [N] zeros and zero counter and role
    indices.  At [inSize = 2^32 - 1] the count [size + 1] wraps to no rows
    at all and the loop that sizes the rows indexes [v[0]] out of bounds. *)
Theorem constructor_builds (fuel : nat) (inSize : Z) (g : list D -> D)
    (c : option (list D -> list D)) :
  (0 <= inSize < 2 ^ 32 - 1 -> (Z.to_nat (inSize + 1) < fuel)%nat ->
   exists s,
     NelderMead_new fuel inSize g c = Ok s /\ wf s /\
     size s = inSize /\ evalFunc s = g /\ constrainFunc s = c /\
     configMaxIterations s = 1000 /\
     configReflectionCoefficient s = dof 1 /\
     configContractionCoefficient s = (dof 1 / dof 2)%D /\
     configExpansionCoefficient s = dof 2 /\
     v s = replicate (Z.to_nat (inSize + 1)) (replicate (Z.to_nat inSize) (dof 0)) /\
     f s = replicate (Z.to_nat (inSize + 1)) (dof 0) /\
     vr s = replicate (Z.to_nat inSize) (dof 0) /\
     ve s = replicate (Z.to_nat inSize) (dof 0) /\
     vc s = replicate (Z.to_nat inSize) (dof 0) /\
     vm s = replicate (Z.to_nat inSize) (dof 0) /\
     evalCount s = 0 /\ vs s = 0 /\ vh s = 0 /\ vg s = 0) /\
  ((0 < fuel)%nat -> NelderMead_new fuel (2 ^ 32 - 1) g c = OutOfBounds).
Proof.
  split.
  - intros HN Hfuel. exists (blank inSize g c).
    split; [now apply NelderMead_new_closed|]. split; [now apply wf_blank|].
    repeat split.
  - intros Hfuel. destruct fuel as [|fuel]; [lia|]. reflexivity.
Qed.

Lemma tabulate_val_take (l : list D) (n : Z) :
  0 <= n -> (Z.to_nat n <= length l)%nat -> tabulate n (val l) = take (Z.to_nat n) l.
Proof.
  intros Hn Hl. apply list_eq. intros i. unfold tabulate. rewrite list_lookup_fmap.
  destruct (Nat.lt_ge_cases i (Z.to_nat n)) as [Hi|Hi].
  - rewrite lookup_seqZ_lt by lia. rewrite lookup_take_lt by lia. cbn.
    unfold val. rewrite Z.add_0_l, Nat2Z.id.
    destruct (lookup_lt_is_Some_2 l i ltac:(lia)) as [x Hx].
    rewrite Hx. f_equal. now apply nth_lookup_Some.
  - rewrite lookup_seqZ_ge by lia. rewrite lookup_take_ge by lia. reflexivity.
Qed.

Lemma vertex_fmap (c : list D -> list D) (V : list (list D)) (i : Z) :
  (Z.to_nat i < length V)%nat -> vertex (c <$> V) i = c (vertex V i).
Proof.
  intros Hi. unfold vertex. apply nth_lookup_Some. rewrite list_lookup_fmap.
  destruct (lookup_lt_is_Some_2 V (Z.to_nat i) Hi) as [x Hx]. rewrite Hx. cbn.
  f_equal. f_equal. symmetry. now apply nth_lookup_Some.
Qed.

Lemma vertex_simplex_of (N : Z) (start : list D) (pn qn : D) (i : Z) :
  0 <= i <= N ->
  vertex (simplex_of N start pn qn) i
  = if (i =? 0)%Z then tabulate N (val start)
    else tabulate N (fun j => ((if (i - 1 =? j)%Z then pn else qn) + val start j)%D).
Proof. intros Hi. unfold vertex, simplex_of. apply nth_tabulate. lia. Qed.

(** X2: The first part of [exec] (initialise, constrain, evaluate) leaves the
    regular simplex on the start point: vertex 0 is the constrained start
    point, vertex [i] the constrained point that is [pn] away from it in
    coordinate [i - 1] and [qn] in the others.  Every vertex has its value
    in the table, the counter is [N + 1], the role indices are 0, and the
    setup and the stored results of an earlier run are as they were. *)
Theorem initial_simplex (fuel : nat) (start : list D) (scale : D) s :
  wf s -> 1 <= size s -> length_preserving s ->
  (Z.to_nat (size s) <= length start)%nat -> enough fuel s ->
  exists s',
    exec_begin fuel start scale s = Ok s' /\
    same_setup s s' /\ getLastExecResults s' = getLastExecResults s /\
    length (v s') = Z.to_nat (size s + 1) /\
    vertex (v s') 0 = constrain (take (Z.to_nat (size s)) start) s /\
    (forall i, 1 <= i <= size s ->
       vertex (v s') i
       = constrain (tabulate (size s) (fun j =>
           ((if (i - 1 =? j)%Z then pn_of (size s) scale else qn_of (size s) scale)
            + val start j)%D)) s) /\
    f s' = evalFunc s <$> v s' /\
    evalCount s' = size s + 1 /\
    evalLog s' = replicate (Z.to_nat (size s + 1)) InitialEval /\
    branchLog s' = [] /\
    vs s' = 0 /\ vh s' = 0 /\ vg s' = 0.
Proof.
  intros Hwf H1 Hlp Hstart Hfuel.
  assert (Hr : ready s) by (split; [|split]; assumption).
  exists (exec_begin_fn start scale s).
  split; [now apply exec_begin_closed|].
  split; [apply setup_exec_begin_fn|].
  pose proof (ready_exec_begin_fn start scale s Hr) as ([_ Hlen _ _ _ _ _ _ _ _ _ _ _] & _).
  assert (Hsize : size (exec_begin_fn start scale s) = size s)
    by (symmetry; apply setup_exec_begin_fn).
  rewrite Hsize in Hlen.
  assert (HN : 0 <= size s < 2 ^ 32 - 1) by (destruct Hwf; assumption).
  assert (Hrows : forall i, 0 <= i <= size s ->
            vertex (v (exec_begin_fn start scale s)) i
            = constrain (vertex (simplex_of (size s) start (pn_of (size s) scale)
                                   (qn_of (size s) scale)) i) s).
  { intros i Hi. unfold exec_begin_fn, constrain. cbv zeta.
    change (constrainFunc (doInitialize_fn start scale s)) with (constrainFunc s).
    destruct (constrainFunc s) as [c|]; [|reflexivity].
    cbn [v evaluate_all_fn set_f set_evalLog set_evalCount set_v].
    apply vertex_fmap. cbn [v doInitialize_fn set_v]. rewrite length_simplex_of. lia. }
  split.
  { unfold getLastExecResults, exec_begin_fn. cbv zeta.
    change (constrainFunc (doInitialize_fn start scale s)) with (constrainFunc s).
    now destruct (constrainFunc s). }
  split; [exact Hlen|].
  split.
  { rewrite Hrows, vertex_simplex_of by lia. cbn [Z.eqb].
    now rewrite tabulate_val_take by lia. }
  split.
  { intros i Hi. rewrite Hrows, vertex_simplex_of by lia.
    destruct (i =? 0)%Z eqn:E; [lia|reflexivity]. }
  split.
  { pose proof (synced_exec_begin_fn start scale s) as Hs. unfold synced in Hs.
    rewrite Hs at 1. f_equal. symmetry. apply setup_exec_begin_fn. }
  unfold exec_begin_fn. cbv zeta.
  change (constrainFunc (doInitialize_fn start scale s)) with (constrainFunc s).
  destruct (constrainFunc s) as [c|];
    cbn [evalCount evalLog branchLog vs vh vg evaluate_all_fn set_f set_evalLog
         set_evalCount set_v doInitialize_fn set_vg set_vh set_vs set_branchLog size];
    rewrite app_nil_r;
    (split; [apply u32_small; lia|]); repeat split.
Qed.

End Construction.

(** ** Edges of [exec] *)

Lemma bind_out_of_bounds {A B : Type} (m : outcome A) (k : A -> outcome B) :
  m = OutOfBounds -> bind m k = OutOfBounds.
Proof. now intros ->. Qed.

(** A loop whose body indexes out of bounds in round [b]. *)
Lemma for_loop_stops {A : Type} (st : Z -> A) (cond : Z -> bool)
    (body : Z -> A -> outcome A) (fuel : nat) (a b : Z) (first : A) :
  st a = first ->
  0 <= a <= b -> b < 2 ^ 32 ->
  (forall j, a <= j < b -> cond j = true /\ body j (st j) = Ok (st (j + 1))) ->
  cond b = true -> body b (st b) = OutOfBounds ->
  (Z.to_nat (b - a) < fuel)%nat ->
  for_loop fuel cond body a first = OutOfBounds.
Proof.
  intros <- Hab Hb Hstep Hc Hbody.
  remember (Z.to_nat (b - a)) as n eqn:Hn.
  revert a Hab Hstep Hn fuel.
  induction n as [|n IH]; intros a Hab Hstep Hn fuel Hfuel.
  - assert (a = b) by lia. subst a.
    destruct fuel as [|fuel]; [lia|]. simpl. now rewrite Hc, Hbody.
  - destruct fuel as [|fuel]; [lia|]. simpl.
    destruct (Hstep a) as [Hca Hba]; [lia|].
    rewrite Hca, Hba. simpl. rewrite u32_small by lia.
    apply IH; try lia. intros j Hj. apply Hstep. lia.
Qed.

Section Edges.
Context {D : Type} {ops : DoubleOps D}.
Implicit Types s : NelderMead D.

(** X3: A start vector with fewer than [N] coordinates is read past its end by
    the first loop of [doInitialize]. *)
Theorem exec_short_start (fuel : nat) (start : list D) (tol scale : D) s :
  wf s -> (length start < Z.to_nat (size s))%nat -> enough fuel s ->
  exec fuel start tol scale s = OutOfBounds.
Proof.
  intros Hwf Hshort Hfuel. unfold enough in Hfuel.
  unfold exec, exec_begin, doInitialize. cbv zeta.
  do 3 apply bind_out_of_bounds.
  cbn [size set_vg set_vh set_vs set_evalLog set_branchLog set_evalCount].
  set (s0 := set_vg 0 _).
  assert (Hwf0 : wf s0).
  { destruct Hwf. constructor; cbn; try assumption; lia. }
  assert (Hs0 : size s0 = size s) by reflexivity.
  clearbody s0. rewrite <- Hs0 in *. clear Hs0 Hwf s. rename s0 into s.
  pose proof Hwf0 as Hwf. destruct Hwf0.
  pose (st := fun j => set_v (<[Z.to_nat 0 := partly j (val start) (vertex (v s) 0)]> (v s)) s).
  apply (for_loop_stops st _ _ fuel 0 (Z.of_nat (length start))); try lia.
  - unfold st. rewrite partly_0, insert_vertex_id by lia. now destruct s.
  - intros j Hj. split; [lia|]. unfold st.
    rewrite val_at by lia. cbn [bind].
    rewrite (set_vertex_coord_row s (v s) 0 j); [|lia|].
    + now rewrite insert_partly
        by (rewrite ?(length_vertex _ (Z.to_nat (size s))); (assumption || lia)).
    + rewrite length_partly; rewrite ?(length_vertex _ (Z.to_nat (size s)));
        (assumption || lia).
  - unfold at_. rewrite lookup_ge_None_2 by lia. reflexivity.
Qed.

(** The shape of an object of dimension zero. *)
Lemma wf_dimension_zero s :
  wf s -> size s = 0 ->
  exists row y, v s = [row] /\ row = [] /\ f s = [y] /\
    vr s = [] /\ ve s = [] /\ vc s = [] /\ vm s = [] /\
    vs s = 0 /\ vh s = 0 /\ vg s = 0.
Proof.
  intros [_ Hv Hrows Hf Hvr Hve Hvc Hvm Hvs Hvh Hvg _ _] H0. rewrite H0 in *.
  change (Z.to_nat (0 + 1)) with 1%nat in *. change (Z.to_nat 0) with 0%nat in *.
  destruct (v s) as [|row [|? ?]]; try discriminate.
  destruct (f s) as [|y [|? ?]]; try discriminate.
  exists row, y. apply Forall_cons in Hrows as [Hrow _].
  repeat split; try reflexivity; try (now apply nil_length_inv); lia.
Qed.

Lemma wf_doIndexes_fn s : wf s -> wf (doIndexes_fn s).
Proof.
  intros Hwf. pose proof Hwf as Hwf'. destruct Hwf'.
  pose proof (worst_best_range (f s) (size s) (size s + 1) (vg s) (vs s)
                ltac:(assumption) ltac:(assumption) ltac:(lia)) as Hp.
  cbv zeta in Hp.
  unfold doIndexes_fn. cbv zeta. unfold worst_best, second.
  apply wf_set_vh; [apply wf_set_vs; [apply wf_set_vg; [assumption|]|]|].
  - apply Hp.
  - apply Hp.
  - cbn [size set_vs set_vg]. apply second_range; [apply Hp | lia].
Qed.

(** With [N = 0] the centroid loop runs with [j = 0 <= 2^32 - 1] and writes
    [vm[0]]. *)
Lemma centroid_zero (fuel : nat) s :
  size s = 0 -> vm s = [] -> vg s = 0 -> (1 < fuel)%nat ->
  centroid fuel s = OutOfBounds.
Proof.
  intros H0 Hvm Hvg Hfuel. unfold centroid.
  apply (for_loop_stops (fun _ => s) _ _ fuel 0 0); try lia; try reflexivity.
  - rewrite H0. reflexivity.
  - rewrite (for_accumulate (fun (cent : D) (_ : Z) => cent) _ _ fuel 1); try lia.
    + cbn [bind]. rewrite Hvm. reflexivity.
    + intros j a Hj. rewrite Hvg. assert (j = 0) by lia. subst j. reflexivity.
Qed.

Lemma exec_begin_zero (fuel : nat) (start : list D) (scale : D) s :
  wf s -> size s = 0 -> length_preserving s -> (2 < fuel)%nat ->
  exists s1,
    exec_begin fuel start scale s = Ok s1 /\ wf s1 /\ size s1 = 0 /\
    configMaxIterations s1 = configMaxIterations s /\ evalFunc s1 = evalFunc s /\
    v s1 = [[]] /\ evalCount s1 = 1.
Proof.
  intros Hwf H0 Hlp Hfuel.
  destruct (wf_dimension_zero s Hwf H0)
    as (row & y & Hv & Hrow & Hf & Hvr & Hve & Hvc & Hvm & Hvs & Hvh & Hvg).
  destruct fuel as [|[|[|fuel]]]; try lia.
  destruct s as [mx cr cc ce N g c V F Vr Ve Vc Vm ec vs0 vh0 vg0 res el bl].
  unfold length_preserving in Hlp.
  cbn in H0, Hv, Hf, Hvr, Hve, Hvc, Hvm, Hvs, Hvh, Hvg, Hlp. subst.
  destruct Hwf as [_ _ _ _ _ _ _ _ _ _ _ Hec Hmx]. cbn in Hec, Hmx.
  destruct c as [c|].
  - assert (Hc : c [] = []) by (apply nil_length_inv; apply Hlp).
    eexists. split; [lazy; rewrite Hc; reflexivity|].
    split; [|repeat split].
    constructor; cbn; try lia. repeat constructor.
  - eexists. split; [lazy; reflexivity|].
    split; [|repeat split].
    constructor; cbn; try lia. repeat constructor.
Qed.

(** X4: With [N = 0] the bound [size - 1] of the coordinate loops wraps to
    [2^32 - 1]: the first iteration writes [vm[0]] in an empty vector.  Only
    with the maximum set to 0 does a run return, after the initial and the
    final evaluation, with an empty [minValues]. *)
Theorem exec_dimension_zero (fuel : nat) (start : list D) (tol scale : D) s :
  wf s -> size s = 0 -> length_preserving s -> (2 < fuel)%nat ->
  (1 <= configMaxIterations s -> exec fuel start tol scale s = OutOfBounds) /\
  (configMaxIterations s = 0 ->
   exists r,
     exec fuel start tol scale s = Ok r /\
     iterationCount (getLastExecResults r) = 1 /\
     r_evalCount (getLastExecResults r) = 2 /\
     minValues (getLastExecResults r) = [] /\
     r_min (getLastExecResults r) = evalFunc s []).
Proof.
  intros Hwf H0 Hlp Hfuel.
  destruct (exec_begin_zero fuel start scale s Hwf H0 Hlp Hfuel)
    as (s1 & Hbegin & Hwf1 & Hs1 & Hmx1 & Hg1 & Hv1 & Hec1).
  unfold exec. rewrite Hbegin. cbn [bind].
  assert (Hfuel1 : (Z.to_nat (size s1 + 1) < fuel)%nat) by (rewrite Hs1; lia).
  pose proof (wf_doIndexes_fn s1 Hwf1) as Hwf2.
  pose proof Hwf2 as Hwf2'. destruct Hwf2' as [_ _ _ _ _ _ _ Hvm2 Hvs2 _ Hvg2 _ _].
  assert (Hs2 : size (doIndexes_fn s1) = 0) by exact Hs1.
  rewrite Hs2 in Hvm2, Hvs2, Hvg2.
  destruct fuel as [|fuel']; [lia|]. cbn [exec_loop]. cbv zeta.
  change (u32 (0 + 1)) with 1. rewrite Hmx1.
  split.
  - intros Hmx. assert (Hle : (1 <=? configMaxIterations s)%Z = true) by lia.
    rewrite Hle. unfold iteration.
    rewrite doIndexes_closed by assumption. cbn [bind].
    rewrite centroid_zero; [reflexivity|assumption| |lia|lia].
    now apply nil_length_inv.
  - intros Hmx. rewrite Hmx. change (1 <=? 0) with false. cbv iota.
    cbn [bind fst snd]. unfold exec_end.
    rewrite doIndexes_closed by assumption. cbn [bind].
    assert (Hvs : vs (doIndexes_fn s1) = 0) by lia.
    assert (Hrow : at_ (v (doIndexes_fn s1)) (vs (doIndexes_fn s1)) = Ok []).
    { rewrite Hvs. change (v (doIndexes_fn s1)) with (v s1). now rewrite Hv1. }
    rewrite Hrow. cbn [bind doEvaluate for_loop size set_evalLog set_evalCount].
    rewrite Hs2. change (0 <? 0) with false. cbv iota. cbn [bind].
    eexists. split; [reflexivity|]. unfold getLastExecResults.
    cbn [lastExecResults set_lastExecResults iterationCount r_evalCount minValues r_min
         evalCount set_evalLog set_evalCount evalFunc].
    split; [reflexivity|]. split.
    + change (evalCount (doIndexes_fn s1)) with (evalCount s1). now rewrite Hec1.
    + split; [reflexivity|]. change (evalFunc (doIndexes_fn s1)) with (evalFunc s1).
      now rewrite Hg1.
Qed.

End Edges.

(** ** The branch log of an iteration *)

Section Trace.
Context {D : Type} {ops : DoubleOps D}.
Implicit Types s : NelderMead D.

Lemma log_accept_reflection_fn (fr : D) s :
  exists a, branchLog (accept_reflection_fn fr s) = a ++ branchLog s /\
            (a = [] \/ a = [AcceptReflection]).
Proof.
  unfold accept_reflection_fn. destruct (_ && _).
  - exists [AcceptReflection]. split; [reflexivity|now right].
  - exists []. split; [reflexivity|now left].
Qed.

Lemma log_expansion_fn (fr : D) s :
  exists e, branchLog (expansion_fn fr s) = e ++ branchLog s /\
            (e = [] \/ e = [Expansion]).
Proof.
  unfold expansion_fn. destruct (fr <? _)%D.
  - exists [Expansion]. split; [|now right]. cbv zeta. cbn [doEvaluate].
    match goal with |- context [if ?c then _ else _] => destruct c end; reflexivity.
  - exists []. split; [reflexivity|now left].
Qed.

Lemma log_shrink_fn s : branchLog (shrink_fn s) = Shrink :: branchLog s.
Proof. reflexivity. Qed.

Lemma log_contraction_fn (fr : D) s :
  exists c, branchLog (contraction_fn fr s) = c ++ branchLog s /\
            (c = [] \/ c = [Contraction] \/ c = [Shrink; Contraction]).
Proof.
  unfold contraction_fn. destruct (fr >=? _)%D.
  - cbv zeta. cbn [doEvaluate].
    set (s1 := set_branchLog _ s).
    match goal with
    | |- context [if ?c then contract_outside_fn s1 else contract_inside_fn s1] =>
        set (s2 := if c then contract_outside_fn s1 else contract_inside_fn s1)
    end.
    assert (H2 : branchLog s2 = Contraction :: branchLog s).
    { unfold s2. match goal with |- context [if ?c then _ else _] => destruct c end;
        reflexivity. }
    clearbody s2. clear s1.
    set (s3 := set_evalLog _ _).
    assert (H3 : branchLog s3 = Contraction :: branchLog s) by exact H2.
    clearbody s3.
    match goal with |- context [if ?c then _ else _] => destruct c end.
    + exists [Contraction]. split; [exact H3|]. right. now left.
    + exists [Shrink; Contraction]. split; [|now right; right].
      rewrite log_shrink_fn, H3. reflexivity.
  - exists []. split; [reflexivity|now left].
Qed.

Lemma log_reflected_fn s : branchLog (reflected_fn s) = Reflection :: branchLog s.
Proof. reflexivity. Qed.

Lemma log_accepted_fn s :
  exists a e c : list branch,
    branchLog (accepted_fn s) = c ++ e ++ a ++ branchLog s /\
    (a = [] \/ a = [AcceptReflection]) /\
    (e = [] \/ e = [Expansion]) /\
    (c = [] \/ c = [Contraction] \/ c = [Shrink; Contraction]).
Proof.
  unfold accepted_fn.
  destruct (doEvaluate ReflectionEval (vr s) s) as [fr s1] eqn:E.
  assert (H1 : branchLog s1 = branchLog s).
  { unfold doEvaluate in E. inversion E. reflexivity. }
  clear E.
  destruct (log_accept_reflection_fn fr s1) as (a & Ha & Ha').
  destruct (log_expansion_fn fr (accept_reflection_fn fr s1)) as (e & He & He').
  destruct (log_contraction_fn fr (expansion_fn fr (accept_reflection_fn fr s1)))
    as (c & Hc & Hc').
  exists a, e, c. split; [|auto]. now rewrite Hc, He, Ha, H1.
Qed.

Lemma log_iteration_fn s :
  exists l, branchLog (iteration_fn s) = l ++ branchLog s /\ iteration_trace l.
Proof.
  unfold iteration_fn.
  destruct (log_accepted_fn (reflected_fn s)) as (a & e & c & H & Ha & He & Hc).
  exists (c ++ e ++ a ++ [Reflection]). split.
  - rewrite H, log_reflected_fn. rewrite <- !app_assoc. reflexivity.
  - exists a, e, c. auto.
Qed.

(** Every pass logs the reflection once. *)
Lemma times_app (b : branch) (l1 l2 : list branch) :
  times b (l1 ++ l2) = (times b l1 + times b l2)%nat.
Proof. induction l1 as [|x l1 IH]; [reflexivity|]. cbn [app times]. rewrite IH. lia. Qed.

Lemma trace_reflection (l : list branch) : iteration_trace l -> times Reflection l = 1%nat.
Proof.
  intros (a & e & c & -> & Ha & He & Hc). rewrite !times_app.
  destruct Ha as [->| ->], He as [->| ->], Hc as [->|[->| ->]]; reflexivity.
Qed.

Lemma reflections_iteration_fn s :
  times Reflection (branchLog (iteration_fn s)) = S (times Reflection (branchLog s)).
Proof.
  destruct (log_iteration_fn s) as (l & -> & Hl).
  rewrite times_app, (trace_reflection l Hl). reflexivity.
Qed.

End Trace.

(** ** What a run reports *)

Section Reports.
Context {D : Type} {ops : DoubleOps D}.
Implicit Types s : NelderMead D.

(** The counter and the number of passes that the loop hands over. *)
Lemma exec_loop_fn_trace (n : nat) (tol : D) (ic ic' : Z) s s' :
  0 <= ic <= configMaxIterations s -> configMaxIterations s < 2 ^ 32 - 1 ->
  exec_loop_fn n tol ic s = Ok (ic', s') ->
  (ic < ic' <= configMaxIterations s /\
   (spread (f s') (size s') <? tol)%D = true /\
   Z.of_nat (times Reflection (branchLog s'))
   = Z.of_nat (times Reflection (branchLog s)) + (ic' - ic))
  \/ (ic' = configMaxIterations s + 1 /\
      Z.of_nat (times Reflection (branchLog s'))
      = Z.of_nat (times Reflection (branchLog s)) + (configMaxIterations s - ic) /\
      (ic = configMaxIterations s \/ (spread (f s') (size s') <? tol)%D = false)).
Proof.
  revert ic s. induction n as [|n IH]; intros ic s Hic Hmax; [discriminate|].
  cbn [exec_loop_fn]. cbv zeta. rewrite u32_small by lia.
  destruct (ic + 1 <=? configMaxIterations s)%Z eqn:Hle.
  - pose proof (reflections_iteration_fn s) as HR.
    destruct (spread (f (iteration_fn s)) (size (iteration_fn s)) <? tol)%D eqn:Hconv.
    + intros Hp. inversion Hp; subst. left. split; [lia|]. split; [assumption|lia].
    + intros Hrun. destruct n as [|n'].
      { discriminate. }
      pose proof Hrun as Hrun'.
      apply IH in Hrun; rewrite ?max_iteration_fn in *; try lia.
      destruct Hrun as [(Hlt & Hc & Hn)|(Heq & Hn & Hlast)]; [left|right].
      * split; [lia|]. split; [assumption|lia].
      * split; [assumption|]. split; [lia|]. right.
        destruct Hlast as [Hlast|Hlast]; [|assumption].
        cbn [exec_loop_fn] in Hrun'. cbv zeta in Hrun'.
        rewrite u32_small in Hrun' by lia. rewrite max_iteration_fn in Hrun'.
        destruct (ic + 1 + 1 <=? configMaxIterations s)%Z eqn:Hle2; [lia|].
        inversion Hrun'; subst. assumption.
  - intros Hp. inversion Hp; subst. right. split; [lia|]. split; [lia|]. left. lia.
Qed.

(** X7: The stored [iterationCount] against the passes made: a run that stops on
    the convergence test reports the number of its last pass, which is the
    number of passes made; a run that uses up the maximum reports one more
    than the [maxIterations] passes it made, and the last of them, if there
    was one, did not pass the convergence test. *)
Theorem iteration_count_meaning (fuel : nat) (start : list D) (tol scale : D) s :
  wf s -> 1 <= size s -> length_preserving s ->
  (Z.to_nat (size s) <= length start)%nat -> enough fuel s ->
  configMaxIterations s < 2 ^ 32 - 1 ->
  forall r, exec fuel start tol scale s = Ok r ->
    (1 <= iterationCount (getLastExecResults r) <= configMaxIterations s /\
     (spread (f r) (size r) <? tol)%D = true /\
     Z.of_nat (times Reflection (branchLog r)) = iterationCount (getLastExecResults r))
    \/ (iterationCount (getLastExecResults r) = configMaxIterations s + 1 /\
        Z.of_nat (times Reflection (branchLog r)) = configMaxIterations s /\
        (configMaxIterations s = 0 \/ (spread (f r) (size r) <? tol)%D = false)).
Proof.
  intros Hwf H1 Hlp Hstart Hfuel Hmax r.
  assert (Hr : ready s) by (split; [|split]; assumption).
  rewrite exec_closed by assumption. unfold exec_fn.
  destruct (exec_loop_fn fuel tol 0 (exec_begin_fn start scale s)) as [[ic s1]| |] eqn:Hloop;
    try discriminate.
  cbn [bind fst snd]. intros Hp. inversion Hp; subst. clear Hp.
  pose proof (setup_exec_begin_fn start scale s) as (_ & _ & _ & Hcfg & _).
  assert (Hlog : branchLog (exec_begin_fn start scale s) = []).
  { unfold exec_begin_fn. cbv zeta.
    change (constrainFunc (doInitialize_fn start scale s)) with (constrainFunc s).
    now destruct (constrainFunc s). }
  apply exec_loop_fn_trace in Hloop; rewrite <- ?Hcfg in *; [|destruct Hwf; lia|assumption].
  rewrite Hlog in Hloop. cbn [times] in Hloop.
  unfold getLastExecResults, exec_end_fn. cbv zeta.
  cbn [doEvaluate lastExecResults set_lastExecResults iterationCount].
  change (f (set_lastExecResults _ _)) with (f s1).
  change (size (set_lastExecResults _ _)) with (size s1).
  change (branchLog (set_lastExecResults _ _)) with (branchLog s1).
  destruct Hloop as [(Hlt & Hc & Hn)|(Heq & Hn & Hlast)]; [left|right].
  - split; [lia|]. split; [assumption|lia].
  - split; [assumption|]. split; [lia|].
    destruct Hlast as [Hlast|Hlast]; [left; lia|now right].
Qed.

Lemma exec_loop_fn_unbounded (n : nat) (tol : D) (ic : Z) s :
  configMaxIterations s = 2 ^ 32 - 1 ->
  (forall x, (dsqrt x <? tol)%D = false) ->
  exec_loop_fn n tol ic s = OutOfFuel.
Proof.
  intros Hmax Htol. revert ic s Hmax.
  induction n as [|n IH]; intros ic s Hmax; [reflexivity|].
  cbn [exec_loop_fn]. cbv zeta.
  assert (Hle : (u32 (ic + 1) <=? configMaxIterations s)%Z = true).
  { rewrite Hmax. pose proof (u32_range (ic + 1)). lia. }
  rewrite Hle. unfold spread. rewrite Htol.
  apply IH. now rewrite max_iteration_fn.
Qed.

(** X8: With the maximum at [2^32 - 1] the test [++iterationCount <= max] holds
    for every value of the counter: the loop ends on the convergence test
    or not at all.  With a tolerance that no square root is below, 0 for
    one, the run does not return, whatever the fuel. *)
Theorem unbounded_run (fuel : nat) (start : list D) (tol scale : D) s :
  wf s -> 1 <= size s -> length_preserving s ->
  (Z.to_nat (size s) <= length start)%nat -> enough fuel s ->
  configMaxIterations s = 2 ^ 32 - 1 ->
  (forall x, (dsqrt x <? tol)%D = false) ->
  exec fuel start tol scale s = OutOfFuel.
Proof.
  intros Hwf H1 Hlp Hstart Hfuel Hmax Htol.
  assert (Hr : ready s) by (split; [|split]; assumption).
  rewrite exec_closed by assumption. unfold exec_fn.
  rewrite exec_loop_fn_unbounded; [reflexivity| |assumption].
  pose proof (setup_exec_begin_fn start scale s) as (_ & _ & _ & Hcfg & _).
  now rewrite <- Hcfg.
Qed.

Lemma val_fmap (g : list D -> D) (V : list (list D)) (i : Z) :
  (Z.to_nat i < length V)%nat -> val (g <$> V) i = g (vertex V i).
Proof.
  intros Hi. unfold val, vertex. apply nth_lookup_Some. rewrite list_lookup_fmap.
  destruct (lookup_lt_is_Some_2 V (Z.to_nat i) Hi) as [x Hx]. rewrite Hx. cbn.
  f_equal. f_equal. symmetry. now apply nth_lookup_Some.
Qed.

(** The state that a run returns, from the state in which the loop ended. *)
Lemma exec_fn_end (n : nat) (start : list D) (tol scale : D) s r (P : NelderMead D -> Prop) :
  ready s -> exec_fn n start tol scale s = Ok r ->
  P (exec_begin_fn start scale s) ->
  (forall s1, ready s1 -> P s1 -> P (iteration_fn s1)) ->
  exists ic s1, r = exec_end_fn ic s1 /\ ready s1 /\ same_setup s s1 /\ P s1.
Proof.
  intros Hr Hrun Hbegin Hstep. unfold exec_fn in Hrun.
  destruct (exec_loop_fn n tol 0 (exec_begin_fn start scale s)) as [[ic s1]| |] eqn:Hloop;
    try discriminate.
  cbn [bind fst snd] in Hrun. inversion Hrun; subst. clear Hrun.
  apply (exec_loop_fn_invariant P) in Hloop;
    [|assumption|now apply ready_exec_begin_fn|assumption].
  destruct Hloop as (Hr1 & Hset & HP).
  exists ic, s1. split; [reflexivity|]. split; [assumption|]. split; [|assumption].
  apply (same_setup_trans _ (exec_begin_fn start scale s)); [|exact Hset].
  apply setup_exec_begin_fn.
Qed.

(** X9: The point that a run reports is a vertex of the final simplex, the one
    at [vs]: [minValues] are its [N] coordinates and [min] is the objective
    there.  The value table of the final simplex is in step with it, and
    when [<] is a strict weak order on the table (no NaN) no vertex of the
    final simplex has a value below [min]. *)
Theorem result_is_best_vertex (fuel : nat) (start : list D) (tol scale : D) s :
  wf s -> 1 <= size s -> length_preserving s ->
  (Z.to_nat (size s) <= length start)%nat -> enough fuel s ->
  forall r, exec fuel start tol scale s = Ok r ->
    0 <= vs r <= size s /\
    minValues (getLastExecResults r) = vertex (v r) (vs r) /\
    length (minValues (getLastExecResults r)) = Z.to_nat (size s) /\
    r_min (getLastExecResults r) = evalFunc s (minValues (getLastExecResults r)) /\
    f r = evalFunc s <$> v r /\
    (strict_weak_order_on (f r) (size s) ->
     forall i, 0 <= i <= size s ->
       (evalFunc s (vertex (v r) i) <? r_min (getLastExecResults r))%D = false).
Proof.
  intros Hwf H1 Hlp Hstart Hfuel r.
  assert (Hr : ready s) by (split; [|split]; assumption).
  rewrite exec_closed by assumption. intros Hrun.
  destruct (exec_fn_end fuel start tol scale s r synced Hr Hrun
              (synced_exec_begin_fn start scale s)
              (fun s1 _ => synced_iteration_fn s1))
    as (ic & s1 & -> & Hr1 & Hset & Hsync).
  pose proof Hset as (Hsize & Hg & _).
  pose proof (ready_doIndexes_fn s1 Hr1) as Hr2.
  pose proof (vs_range _ Hr2) as Hvs.
  pose proof Hr2 as ([_ Hlen Hrows _ _ _ _ _ _ _ _ _ _] & _).
  change (size (doIndexes_fn s1)) with (size s1) in Hvs, Hlen, Hrows.
  change (v (doIndexes_fn s1)) with (v s1) in Hlen, Hrows.
  unfold getLastExecResults, exec_end_fn. cbv zeta.
  cbn [doEvaluate lastExecResults set_lastExecResults minValues r_min].
  change (vs (set_lastExecResults _ _)) with (vs (doIndexes_fn s1)).
  change (v (set_lastExecResults _ _)) with (v s1).
  change (f (set_lastExecResults _ _)) with (f s1).
  change (v (doIndexes_fn s1)) with (v s1).
  change (evalFunc (set_evalLog _ _)) with (evalFunc s1).
  rewrite Hsize, Hg.
  split; [lia|]. split; [reflexivity|].
  split; [apply (length_vertex _ _ _ Hrows); lia|].
  split; [reflexivity|]. split; [exact Hsync|].
  intros [Hirr Htr Hneg] i Hi.
  pose proof (scan_extreme (fun a j => below (f s1) j a) (size s1) Hirr
                ltac:(intros a j k ? ? ? ? ?; now apply (Htr k j a))
                ltac:(intros a j k ? ? ? ? ?; now apply (Hneg k j a))
                (Z.to_nat (size s1 + 1)) (vs s1) (vs_range _ Hr1) ltac:(lia))
    as (_ & _ & Hmin & _).
  cbv zeta in Hmin. rewrite Z2Nat.id in Hmin by lia.
  assert (Hvs' : vs (doIndexes_fn s1)
                 = fold_left (fun a j => if below (f s1) j a then j else a)
                     (seqZ 0 (size s1 + 1)) (vs s1)).
  { unfold doIndexes_fn. cbv zeta. cbn [vs set_vh set_vs]. unfold worst_best.
    now rewrite worst_best_split. }
  cbv beta in Hmin. rewrite <- Hvs' in Hmin.
  specialize (Hmin i ltac:(lia)). unfold below in Hmin. rewrite Hsync in Hmin.
  rewrite !val_fmap in Hmin by lia. exact Hmin.
Qed.

End Reports.

Section BoxedReports.
Context {D : Type} {ops : DoubleOps D}.
Implicit Types s : NelderMead D.

(** X10: With a constraint that clamps every coordinate into [[lo, hi]], and
    when halving the distance of two points of the box stays in the box,
    the reported [minValues] lie in [[lo, hi]]. *)
Theorem result_in_box (lo hi : D) (c : list D -> list D) (fuel : nat)
    (start : list D) (tol scale : D) s :
  wf s -> 1 <= size s ->
  (Z.to_nat (size s) <= length start)%nat -> enough fuel s ->
  constrainFunc s = Some c ->
  (forall x, length (c x) = length x) ->
  (forall x, Forall (inside lo hi) (c x)) ->
  (forall a b, inside lo hi a -> inside lo hi b -> inside lo hi (a + (b - a) / dof 2)%D) ->
  forall r, exec fuel start tol scale s = Ok r ->
    Forall (inside lo hi) (minValues (getLastExecResults r)).
Proof.
  intros Hwf H1 Hstart Hfuel Hc Hlen Hclamp Hhalf r.
  assert (Hlp : length_preserving s) by (unfold length_preserving; now rewrite Hc).
  assert (Hr : ready s) by (split; [|split]; assumption).
  rewrite exec_closed by assumption. intros Hrun.
  destruct (exec_fn_end fuel start tol scale s r
              (fun s1 => constrainFunc s1 = Some c /\ in_box lo hi s1) Hr Hrun)
    as (ic & s1 & -> & Hr1 & Hset & Hc1 & Hbox).
  - split; [|now apply (box_exec_begin_fn lo hi c)].
    pose proof (setup_exec_begin_fn start scale s) as (_ & _ & <- & _). exact Hc.
  - intros s2 Hr2 [Hc2 Hbox2]. split.
    + pose proof (setup_iteration_fn s2) as (_ & _ & <- & _). exact Hc2.
    + now apply (box_iteration_fn lo hi c).
  - unfold getLastExecResults, exec_end_fn. cbv zeta.
    cbn [doEvaluate lastExecResults set_lastExecResults minValues].
    pose proof (ready_doIndexes_fn s1 Hr1) as Hr2.
    apply (inside_vertex lo hi).
    + apply Hr2.
    + exact Hbox.
    + apply (vs_range _ Hr2).
Qed.

End BoxedReports.

(** ** Which branches an iteration takes *)

Section Branching.
Context {D : Type} {ops : DoubleOps D}.
Implicit Types s : NelderMead D.

Lemma branches_closed (fuel : nat) (fr : D) s :
  ready s -> enough fuel s -> branches fuel fr s = Ok (branches_fn fr s).
Proof.
  intros Hr Hfuel. unfold branches, branches_fn.
  eapply bind_ok. { now apply accept_reflection_closed. }
  pose proof (setup_accept_reflection_fn fr s) as (Hs5 & _).
  eapply bind_ok.
  { apply expansion_closed; [now apply ready_accept_reflection_fn|].
    unfold enough in *. now rewrite <- Hs5. }
  pose proof (setup_expansion_fn fr (accept_reflection_fn fr s)) as (Hs6 & _).
  apply contraction_closed.
  - now apply ready_expansion_fn, ready_accept_reflection_fn.
  - unfold enough in *. now rewrite <- Hs6, <- Hs5.
Qed.

Lemma val_insert_ne (F : list D) (g i : Z) (x : D) :
  0 <= g -> 0 <= i -> i <> g -> val (<[Z.to_nat g := x]> F) i = val F i.
Proof.
  intros Hg Hi Hne. unfold val. rewrite !nth_lookup.
  rewrite list_lookup_insert_ne by lia. reflexivity.
Qed.

Lemma val_insert_eq (F : list D) (g : Z) (x : D) :
  (Z.to_nat g < length F)%nat -> val (<[Z.to_nat g := x]> F) g = x.
Proof.
  intros Hg. unfold val. apply nth_lookup_Some. now apply list_lookup_insert_eq.
Qed.

(** What a branch that is taken leaves behind. *)
Lemma accept_taken (fr : D) s :
  ((fr <? val (f s) (vh s)) && (fr >=? val (f s) (vs s)))%D = true ->
  f (accept_reflection_fn fr s) = <[Z.to_nat (vg s) := fr]> (f s) /\
  vs (accept_reflection_fn fr s) = vs s /\ vh (accept_reflection_fn fr s) = vh s /\
  vg (accept_reflection_fn fr s) = vg s /\
  branchLog (accept_reflection_fn fr s) = AcceptReflection :: branchLog s.
Proof. intros H. unfold accept_reflection_fn. rewrite H. repeat split. Qed.

Lemma accept_skipped (fr : D) s :
  ((fr <? val (f s) (vh s)) && (fr >=? val (f s) (vs s)))%D = false ->
  accept_reflection_fn fr s = s.
Proof. intros H. unfold accept_reflection_fn. now rewrite H. Qed.

Lemma expansion_taken (fr : D) s :
  (fr <? val (f s) (vs s))%D = true ->
  exists y,
    f (expansion_fn fr s) = <[Z.to_nat (vg s) := y]> (f s) /\
    (y = fr \/ (y <? fr)%D = true) /\
    vs (expansion_fn fr s) = vs s /\ vh (expansion_fn fr s) = vh s /\
    vg (expansion_fn fr s) = vg s /\
    branchLog (expansion_fn fr s) = Expansion :: branchLog s.
Proof.
  intros H. unfold expansion_fn. rewrite H. cbv zeta. cbn [doEvaluate].
  match goal with |- context [if ?c then _ else _] => destruct c eqn:E end.
  - eexists. split; [reflexivity|]. split; [right; exact E|]. repeat split.
  - exists fr. split; [reflexivity|]. split; [now left|]. repeat split.
Qed.

Lemma expansion_skipped (fr : D) s :
  (fr <? val (f s) (vs s))%D = false -> expansion_fn fr s = s.
Proof. intros H. unfold expansion_fn. now rewrite H. Qed.

Lemma contraction_taken (fr : D) s :
  (fr >=? val (f s) (vh s))%D = true ->
  exists c, branchLog (contraction_fn fr s) = c ++ branchLog s /\
            (c = [Contraction] \/ c = [Shrink; Contraction]).
Proof.
  intros H. unfold contraction_fn. rewrite H. cbv zeta. cbn [doEvaluate].
  set (s1 := set_branchLog _ s).
  match goal with
  | |- context [if ?c then contract_outside_fn s1 else contract_inside_fn s1] =>
      set (s2 := if c then contract_outside_fn s1 else contract_inside_fn s1)
  end.
  assert (H2 : branchLog s2 = Contraction :: branchLog s).
  { unfold s2. match goal with |- context [if ?c then _ else _] => destruct c end;
      reflexivity. }
  clearbody s2. clear s1.
  set (s3 := set_evalLog _ _).
  assert (H3 : branchLog s3 = Contraction :: branchLog s) by exact H2.
  clearbody s3.
  match goal with |- context [if ?c then _ else _] => destruct c end.
  - exists [Contraction]. split; [exact H3|now left].
  - exists [Shrink; Contraction]. split; [|now right].
    rewrite log_shrink_fn, H3. reflexivity.
Qed.

Lemma contraction_skipped (fr : D) s :
  (fr >=? val (f s) (vh s))%D = false -> contraction_fn fr s = s.
Proof. intros H. unfold contraction_fn. now rewrite H. Qed.

(** X12: When the worst vertex is neither [vs] nor [vh], and [fr] compares with
    [f[vs]] and [f[vh]] as numbers do ([>=] is the negation of [<], and what
    is below [f[vs]] is below [f[vh]]), the three [if] statements take
    exactly one branch: the reflection is accepted when
    [f[vs] <= fr < f[vh]], the expansion runs when [fr < f[vs]], and the
    contraction (with or without shrink) when [fr >= f[vh]]. *)
Theorem one_branch (fuel : nat) (fr : D) s :
  wf s -> 1 <= size s -> length_preserving s -> enough fuel s ->
  vg s <> vs s -> vg s <> vh s ->
  (fr >=? val (f s) (vh s))%D = negb (fr <? val (f s) (vh s))%D ->
  (fr >=? val (f s) (vs s))%D = negb (fr <? val (f s) (vs s))%D ->
  ((fr <? val (f s) (vs s))%D = true -> (fr <? val (f s) (vh s))%D = true) ->
  exists s' l,
    branches fuel fr s = Ok s' /\ branchLog s' = l ++ branchLog s /\
    ((l = [AcceptReflection] /\
      (fr <? val (f s) (vh s))%D = true /\ (fr >=? val (f s) (vs s))%D = true)
     \/ (l = [Expansion] /\ (fr <? val (f s) (vs s))%D = true)
     \/ ((l = [Contraction] \/ l = [Shrink; Contraction]) /\
         (fr >=? val (f s) (vh s))%D = true)).
Proof.
  intros Hwf H1 Hlp Hfuel Hgs Hgh Hh Hs Hsh.
  assert (Hr : ready s) by (split; [|split]; assumption).
  pose proof Hwf as [_ _ _ _ _ _ _ _ Hvs Hvh Hvg _ _].
  exists (branches_fn fr s). rewrite branches_closed by assumption.
  unfold branches_fn.
  destruct (fr <? val (f s) (vh s))%D eqn:Eh; cbn [negb] in Hh.
  - destruct (fr <? val (f s) (vs s))%D eqn:Es; cbn [negb] in Hs.
    + (* expansion *)
      rewrite accept_skipped by (rewrite Eh, Hs; reflexivity).
      destruct (expansion_taken fr s Es) as (y & Hf & _ & Evs & Evh & Evg & Elog).
      rewrite contraction_skipped.
      * exists [Expansion]. split; [reflexivity|]. split; [exact Elog|].
        right. left. split; reflexivity.
      * rewrite Hf, Evh, val_insert_ne by lia. exact Hh.
    + (* accepted reflection *)
      assert (Ha : ((fr <? val (f s) (vh s)) && (fr >=? val (f s) (vs s)))%D = true)
        by (rewrite Eh, Hs; reflexivity).
      destruct (accept_taken fr s Ha) as (Hf & Avs & Avh & Avg & Alog).
      rewrite expansion_skipped
        by (rewrite Hf, Avs, val_insert_ne by lia; exact Es).
      rewrite contraction_skipped
        by (rewrite Hf, Avh, val_insert_ne by lia; exact Hh).
      exists [AcceptReflection]. split; [reflexivity|]. split; [exact Alog|].
      left. split; [reflexivity|]. split; [reflexivity|exact Hs].
  - (* contraction *)
    rewrite accept_skipped by (rewrite Eh; reflexivity).
    assert (Es : (fr <? val (f s) (vs s))%D = false).
    { destruct (fr <? val (f s) (vs s))%D eqn:Es; [|reflexivity].
      specialize (Hsh eq_refl). discriminate. }
    rewrite expansion_skipped by exact Es.
    destruct (contraction_taken fr s Hh) as (c & Hc & Hc').
    exists c. split; [reflexivity|]. split; [exact Hc|].
    right. right. split; [exact Hc'|exact Hh].
Qed.

(** X13: When the three role indices coincide, which is how [doIndexes] leaves
    them when the values all tie, and the reflection point is better, the
    expansion overwrites [f[vg]], which is also the [f[vh]] that the third
    test reads: the iteration goes through the expansion and then through
    the contraction as well. *)
Theorem tie_runs_two_branches (fuel : nat) (fr : D) s :
  wf s -> 1 <= size s -> length_preserving s -> enough fuel s ->
  vs s = vg s -> vh s = vg s ->
  (fr <? val (f s) (vg s))%D = true ->
  (fr >=? val (f s) (vg s))%D = false ->
  (fr >=? fr)%D = true ->
  (forall y, (y <? fr)%D = true -> (fr >=? y)%D = true) ->
  exists s' c,
    branches fuel fr s = Ok s' /\
    branchLog s' = c ++ Expansion :: branchLog s /\
    (c = [Contraction] \/ c = [Shrink; Contraction]).
Proof.
  intros Hwf H1 Hlp Hfuel Hsg Hhg Hlt Hge Hrefl Hle.
  assert (Hr : ready s) by (split; [|split]; assumption).
  pose proof Hwf as [_ _ _ Hlenf _ _ _ _ Hvs Hvh Hvg _ _].
  exists (branches_fn fr s). rewrite branches_closed by assumption.
  unfold branches_fn.
  rewrite accept_skipped by (rewrite Hsg, Hge; apply andb_false_r).
  destruct (expansion_taken fr s) as (y & Hf & Hy & Evs & Evh & Evg & Elog);
    [now rewrite Hsg|].
  destruct (contraction_taken fr (expansion_fn fr s)) as (c & Hc & Hc').
  - rewrite Hf, Evh, Hhg, val_insert_eq by lia.
    destruct Hy as [->|Hy]; [exact Hrefl|now apply Hle].
  - exists c. split; [reflexivity|]. split; [|exact Hc']. now rewrite Hc, Elog.
Qed.


End Branching.

(** ** The callbacks are only called on vectors of [N] coordinates *)

Section Dimension.
Context {D : Type} {ops : DoubleOps D}.
Implicit Types s : NelderMead D.
Variables (g : list D -> D) (c : option (list D -> list D)).

Local Abbreviation W := (with_callbacks g c).

Lemma stands_in_setup s s' : same_setup s s' -> stands_in g c s -> stands_in g c s'.
Proof.
  intros (Hsize & Hg & Hc & _) [H1 H2]. unfold stands_in.
  rewrite <- Hsize, <- Hg, <- Hc. now split.
Qed.

Lemma constrain_W (x : list D) s :
  stands_in g c s -> length x = Z.to_nat (size s) -> constrain x (W s) = constrain x s.
Proof.
  intros [_ H] Hx. unfold constrain. cbn [constrainFunc with_callbacks].
  destruct (constrainFunc s), c; try contradiction; [now apply H | reflexivity].
Qed.

Lemma doEvaluate_W (from : site) (x : list D) s :
  stands_in g c s -> length x = Z.to_nat (size s) ->
  doEvaluate from x (W s) = (fst (doEvaluate from x s), W (snd (doEvaluate from x s))).
Proof.
  intros [H _] Hx. unfold doEvaluate. cbv zeta. cbn [fst snd]. f_equal.
  cbn [evalFunc with_callbacks set_evalLog set_evalCount]. now apply H.
Qed.

Lemma replace_worst_W (src : NelderMead D -> list D) (fx : D) s :
  src (W s) = src s -> replace_worst_fn src fx (W s) = W (replace_worst_fn src fx s).
Proof. intros H. unfold replace_worst_fn. rewrite H. reflexivity. Qed.

Lemma reflected_W s :
  ready s -> stands_in g c s -> reflected_fn (W s) = W (reflected_fn s).
Proof.
  intros Hr Hs. unfold reflected_fn. cbv zeta.
  set (t := reflect_fn (centroid_fn (doIndexes_fn s))).
  change (reflect_fn (centroid_fn (doIndexes_fn (W s)))) with (W t).
  assert (Ht : ready t) by now apply ready_reflect_fn, ready_centroid_fn, ready_doIndexes_fn.
  assert (Hst : stands_in g c t) by (apply (stands_in_setup s); [repeat split|exact Hs]).
  clearbody t.
  change (vr (W t)) with (vr t).
  rewrite constrain_W; [reflexivity|exact Hst|]. now destruct Ht as ([] & _).
Qed.

Lemma accept_reflection_W (fr : D) s :
  accept_reflection_fn fr (W s) = W (accept_reflection_fn fr s).
Proof.
  unfold accept_reflection_fn. cbn [f vh vs with_callbacks].
  destruct (_ && _); reflexivity.
Qed.

Lemma expansion_W (fr : D) s :
  ready s -> stands_in g c s -> expansion_fn fr (W s) = W (expansion_fn fr s).
Proof.
  intros Hr Hs. unfold expansion_fn. cbn [f vs with_callbacks].
  destruct (fr <? _)%D; [|reflexivity]. cbv zeta.
  set (t := expand_fn (set_branchLog (Expansion :: branchLog s) s)).
  change (expand_fn (set_branchLog (Expansion :: branchLog (W s)) (W s))) with (W t).
  assert (Ht : ready t) by now apply ready_expand_fn, ready_set_branchLog.
  assert (Hst : stands_in g c t) by (apply (stands_in_setup s); [repeat split|exact Hs]).
  clearbody t.
  change (ve (W t)) with (ve t).
  rewrite constrain_W; [|exact Hst|now destruct Ht as ([] & _)].
  pose proof (ready_constrain_ve t Ht) as Hu.
  assert (Hsu : stands_in g c (set_ve (constrain (ve t) t) t))
    by (apply (stands_in_setup t); [repeat split|exact Hst]).
  set (u := set_ve (constrain (ve t) t) t) in *.
  change (set_ve (constrain (ve t) t) (W t)) with (W u). clearbody u.
  change (ve (W u)) with (ve u).
  rewrite doEvaluate_W; [|exact Hsu|now destruct Hu as ([] & _)].
  destruct (doEvaluate ExpansionEval (ve u) u) as [fe w]. cbn [fst snd].
  destruct (fe <? fr)%D; now apply replace_worst_W.
Qed.

Lemma evaluate_all_W (from : site) s :
  ready s -> stands_in g c s -> evaluate_all_fn from (W s) = W (evaluate_all_fn from s).
Proof.
  intros Hr [H _]. unfold evaluate_all_fn.
  cbn [evalFunc v size evalLog evalCount with_callbacks].
  assert (E : g <$> v s = evalFunc s <$> v s).
  { destruct Hr as ([] & _). apply Forall_fmap_ext_1.
    eapply Forall_impl; [eassumption|]. intros row Hrow. now apply H. }
  rewrite E. reflexivity.
Qed.

Lemma reconstrain_vertex_W (from : site) (i : Z) s :
  ready s -> stands_in g c s -> 0 <= i <= size s ->
  reconstrain_vertex_fn from i (W s) = W (reconstrain_vertex_fn from i s).
Proof.
  intros Hr Hs Hi. unfold reconstrain_vertex_fn. cbv zeta.
  cbn [v f evalFunc evalLog evalCount with_callbacks].
  pose proof Hr as (Hwf & _ & Hlp). pose proof Hwf as [].
  assert (Hrow : length (vertex (v s) i) = Z.to_nat (size s))
    by (apply (length_vertex _ _ _ ltac:(eassumption)); lia).
  rewrite constrain_W by assumption.
  destruct Hs as [H _]. rewrite H; [reflexivity|].
  now rewrite length_constrain.
Qed.

Lemma shrink_W s : ready s -> stands_in g c s -> shrink_fn (W s) = W (shrink_fn s).
Proof.
  intros Hr Hs. unfold shrink_fn. cbv zeta.
  set (t := set_v _ (set_branchLog (Shrink :: branchLog s) s)).
  change (set_v _ (set_branchLog (Shrink :: branchLog (W s)) (W s))) with (W t).
  assert (Ht : ready t) by (apply (ready_shrink_rows (set_branchLog _ s));
                            now apply ready_set_branchLog).
  assert (Hst : stands_in g c t) by (apply (stands_in_setup s); [repeat split|exact Hs]).
  clearbody t.
  rewrite evaluate_all_W by assumption.
  pose proof (ready_evaluate_all_fn ShrinkEval t Ht) as Hu.
  assert (Hsu : stands_in g c (evaluate_all_fn ShrinkEval t))
    by (apply (stands_in_setup t); [repeat split|exact Hst]).
  set (u := evaluate_all_fn ShrinkEval t) in *. clearbody u.
  change (doIndexes_fn (W u)) with (W (doIndexes_fn u)).
  pose proof (ready_doIndexes_fn u Hu) as Hw.
  assert (Hsw : stands_in g c (doIndexes_fn u))
    by (apply (stands_in_setup u); [repeat split|exact Hsu]).
  set (w := doIndexes_fn u) in *. clearbody w.
  change (vg (W w)) with (vg w).
  rewrite reconstrain_vertex_W by (try assumption; now apply vg_range).
  pose proof (ready_reconstrain_vertex_fn ShrinkWorstEval (vg w) w Hw (vg_range w Hw)) as Hx.
  assert (Hsx : stands_in g c (reconstrain_vertex_fn ShrinkWorstEval (vg w) w))
    by (apply (stands_in_setup w); [repeat split|exact Hsw]).
  set (x := reconstrain_vertex_fn ShrinkWorstEval (vg w) w) in *. clearbody x.
  change (vh (W x)) with (vh x).
  now rewrite reconstrain_vertex_W by (try assumption; now apply vh_range).
Qed.

Lemma contraction_W (fr : D) s :
  ready s -> stands_in g c s -> contraction_fn fr (W s) = W (contraction_fn fr s).
Proof.
  intros Hr Hs. unfold contraction_fn. cbn [f vh with_callbacks].
  destruct (fr >=? _)%D; [|reflexivity]. cbv zeta.
  set (t0 := set_branchLog (Contraction :: branchLog s) s).
  change (set_branchLog (Contraction :: branchLog (W s)) (W s)) with (W t0).
  assert (Ht0 : ready t0) by now apply ready_set_branchLog.
  change (f (W t0)) with (f t0). change (vg (W t0)) with (vg t0).
  change (vh (W t0)) with (vh t0).
  match goal with
  | |- context [if ?b0 then contract_outside_fn (W t0) else _] => set (b := b0)
  end.
  set (t := if b then contract_outside_fn t0 else contract_inside_fn t0).
  assert (E : (if b then contract_outside_fn (W t0) else contract_inside_fn (W t0)) = W t)
    by (unfold t; now destruct b).
  rewrite E. clear E.
  assert (Ht : ready t).
  { unfold t. destruct b; [now apply ready_contract_outside_fn
                          |now apply ready_contract_inside_fn]. }
  assert (Hst : stands_in g c t).
  { apply (stands_in_setup s); [|exact Hs]. unfold t. destruct b; repeat split. }
  clearbody t. clear b Ht0. clearbody t0.
  change (vc (W t)) with (vc t).
  rewrite constrain_W; [|exact Hst|now destruct Ht as ([] & _)].
  pose proof (ready_constrain_vc t Ht) as Hu.
  assert (Hsu : stands_in g c (set_vc (constrain (vc t) t) t))
    by (apply (stands_in_setup t); [repeat split|exact Hst]).
  set (u := set_vc (constrain (vc t) t) t) in *.
  change (set_vc (constrain (vc t) t) (W t)) with (W u). clearbody u.
  change (vc (W u)) with (vc u).
  rewrite doEvaluate_W; [|exact Hsu|now destruct Hu as ([] & _)].
  pose proof (ready_doEvaluate ContractionEval (vc u) u Hu) as Hw.
  assert (Hsw : stands_in g c (snd (doEvaluate ContractionEval (vc u) u)))
    by (apply (stands_in_setup u); [repeat split|exact Hsu]).
  destruct (doEvaluate ContractionEval (vc u) u) as [fc w]. cbn [fst snd] in *.
  change (f (W w)) with (f w). change (vg (W w)) with (vg w).
  destruct (fc <? _)%D; [now apply replace_worst_W|now apply shrink_W].
Qed.

Lemma accepted_W s :
  ready s -> stands_in g c s -> accepted_fn (W s) = W (accepted_fn s).
Proof.
  intros Hr Hs. unfold accepted_fn. change (vr (W s)) with (vr s).
  rewrite doEvaluate_W; [|exact Hs|now destruct Hr as ([] & _)].
  pose proof (ready_doEvaluate ReflectionEval (vr s) s Hr) as Hw.
  assert (Hsw : stands_in g c (snd (doEvaluate ReflectionEval (vr s) s)))
    by (apply (stands_in_setup s); [repeat split|exact Hs]).
  destruct (doEvaluate ReflectionEval (vr s) s) as [fr w]. cbn [fst snd] in *.
  rewrite accept_reflection_W.
  pose proof (ready_accept_reflection_fn fr w Hw) as Ha.
  pose proof (stands_in_setup _ _ (setup_accept_reflection_fn fr w) Hsw) as Hsa.
  rewrite expansion_W by assumption.
  apply contraction_W.
  - now apply ready_expansion_fn.
  - apply (stands_in_setup _ _ (setup_expansion_fn fr _) Hsa).
Qed.

Lemma iteration_W s :
  ready s -> stands_in g c s -> iteration_fn (W s) = W (iteration_fn s).
Proof.
  intros Hr Hs. unfold iteration_fn. rewrite reflected_W by assumption.
  apply accepted_W; [now apply ready_reflected_fn|].
  apply (stands_in_setup s); [apply setup_reflected_fn|exact Hs].
Qed.

Lemma doInitialize_W (start : list D) (scale : D) s :
  doInitialize_fn start scale (W s) = W (doInitialize_fn start scale s).
Proof. reflexivity. Qed.

Lemma setup_doInitialize_fn (start : list D) (scale : D) s :
  same_setup s (doInitialize_fn start scale s).
Proof. repeat split. Qed.

Lemma constrain_all_W (from : site) (d : NelderMead D) :
  ready d -> stands_in g c d ->
  evaluate_all_fn from
    match constrainFunc (W d) with
    | Some c1 => set_v (c1 <$> v (W d)) (W d)
    | None => W d
    end
  = W (evaluate_all_fn from
         match constrainFunc d with
         | Some c0 => set_v (c0 <$> v d) d
         | None => d
         end).
Proof.
  intros Hd Hsd. cbn [constrainFunc v with_callbacks].
  pose proof Hsd as [_ Hc]. pose proof Hd as (Hwf & _). pose proof Hwf as [].
  destruct (constrainFunc d) as [c0|] eqn:E0; destruct c as [c1|] eqn:E1;
    try contradiction.
  - assert (E : c1 <$> v d = c0 <$> v d).
    { apply Forall_fmap_ext_1. eapply Forall_impl; [eassumption|].
      intros row Hrow. now apply Hc. }
    rewrite E.
    change (set_v (c0 <$> v d) (with_callbacks g (Some c1) d))
      with (with_callbacks g (Some c1) (set_v (c0 <$> v d) d)).
    rewrite <- E1 in *. apply evaluate_all_W.
    + now apply ready_constrain_all.
    + apply (stands_in_setup d); [repeat split|exact Hsd].
  - rewrite <- E1 in *. now apply evaluate_all_W.
Qed.

Lemma exec_begin_W (start : list D) (scale : D) s :
  ready s -> stands_in g c s ->
  exec_begin_fn start scale (W s) = W (exec_begin_fn start scale s).
Proof.
  intros Hr Hs. unfold exec_begin_fn. cbv zeta. rewrite doInitialize_W.
  apply constrain_all_W; [now apply ready_doInitialize_fn|].
  apply (stands_in_setup s); [apply setup_doInitialize_fn|exact Hs].
Qed.

Lemma exec_end_W (ic : Z) s :
  ready s -> stands_in g c s -> exec_end_fn ic (W s) = W (exec_end_fn ic s).
Proof.
  intros Hr Hs. unfold exec_end_fn. cbv zeta.
  set (t := doIndexes_fn s). change (doIndexes_fn (W s)) with (W t).
  assert (Ht : ready t) by now apply ready_doIndexes_fn.
  assert (Hst : stands_in g c t) by (apply (stands_in_setup s); [repeat split|exact Hs]).
  clearbody t. change (v (W t)) with (v t). change (vs (W t)) with (vs t).
  rewrite doEvaluate_W; [|exact Hst|].
  - destruct (doEvaluate FinalEval (vertex (v t) (vs t)) t) as [m w]. reflexivity.
  - pose proof Ht as ([] & _).
    apply (length_vertex _ _ _ ltac:(eassumption)). lia.
Qed.

Lemma exec_loop_W (n : nat) (tol : D) (ic : Z) s :
  ready s -> stands_in g c s ->
  exec_loop_fn n tol ic (W s)
  = outcome_map (fun p => (fst p, W (snd p))) (exec_loop_fn n tol ic s).
Proof.
  revert ic s. induction n as [|n IH]; intros ic s Hr Hs; [reflexivity|].
  cbn [exec_loop_fn]. cbv zeta. cbn [configMaxIterations with_callbacks].
  destruct (_ <=? _)%Z; [|reflexivity].
  rewrite iteration_W by assumption.
  change (f (W (iteration_fn s))) with (f (iteration_fn s)).
  change (size (W (iteration_fn s))) with (size (iteration_fn s)).
  destruct (_ <? tol)%D; [reflexivity|].
  apply IH; [now apply ready_iteration_fn|].
  apply (stands_in_setup s); [apply setup_iteration_fn|exact Hs].
Qed.

Lemma exec_fn_W (n : nat) (start : list D) (tol scale : D) s :
  ready s -> stands_in g c s ->
  exec_fn n start tol scale (W s) = outcome_map W (exec_fn n start tol scale s).
Proof.
  intros Hr Hs. unfold exec_fn. rewrite exec_begin_W by assumption.
  pose proof (ready_exec_begin_fn start scale s Hr) as Hr1.
  assert (Hs1 : stands_in g c (exec_begin_fn start scale s))
    by (apply (stands_in_setup s); [apply setup_exec_begin_fn|exact Hs]).
  rewrite exec_loop_W by assumption.
  destruct (exec_loop_fn n tol 0 (exec_begin_fn start scale s)) as [[ic s1]| |] eqn:Hloop;
    try reflexivity.
  cbn [outcome_map bind fst snd]. f_equal.
  apply (exec_loop_fn_invariant (stands_in g c)) in Hloop; try assumption.
  - destruct Hloop as (Hr2 & _ & Hs2). now apply exec_end_W.
  - intros s2 Hr2 Hs2. apply (stands_in_setup s2); [apply setup_iteration_fn|exact Hs2].
Qed.

(** X14: A run calls the objective and the constraint on vectors of [N]
    coordinates only: with callbacks that do the same on such vectors the
    run is the same, the stored callbacks apart. *)
Theorem callbacks_at_dimension (fuel : nat) (start : list D) (tol scale : D) s :
  wf s -> 1 <= size s -> length_preserving s ->
  (Z.to_nat (size s) <= length start)%nat -> enough fuel s ->
  stands_in g c s ->
  match c with Some c1 => forall x, length (c1 x) = length x | None => True end ->
  exec fuel start tol scale (with_callbacks g c s)
  = outcome_map (with_callbacks g c) (exec fuel start tol scale s).
Proof.
  intros Hwf H1 Hlp Hstart Hfuel Hs Hc.
  assert (Hr : ready s) by (split; [|split]; assumption).
  assert (Hr' : ready (W s)).
  { split; [|split; [exact H1|exact Hc]]. destruct Hwf. now constructor. }
  rewrite (exec_closed fuel start tol scale (W s)) by assumption.
  rewrite (exec_closed fuel start tol scale s) by assumption.
  now apply exec_fn_W.
Qed.

End Dimension.

(** * Facts of binary64 *)

Section Binary64.


Lemma SFcompare_refl (x : spec_float) :
  SFcompare x x = match x with S754_nan => None | _ => Some Eq end.
Proof.
  destruct x as [s|s| |s m e]; try destruct s; cbn; try reflexivity;
    rewrite Z.compare_refl; now rewrite ?Pos.compare_cont_refl.
Qed.

(** [x] is a number: not a NaN. *)
Lemma number_spec (x : float) : PrimFloat.eqb x x = true <-> Prim2SF x <> S754_nan.
Proof.
  rewrite FloatAxioms.eqb_spec. unfold SFeqb. rewrite SFcompare_refl.
  destruct (Prim2SF x); split; congruence.
Qed.

Lemma not_number_ltb (x y : float) :
  PrimFloat.eqb x x = false -> PrimFloat.ltb x y = false /\ PrimFloat.ltb y x = false.
Proof.
  intros Hx. assert (Hn : Prim2SF x = S754_nan).
  { destruct (Prim2SF x) eqn:E; try reflexivity;
      assert (H : PrimFloat.eqb x x = true) by (apply number_spec; congruence);
      congruence. }
  rewrite !FloatAxioms.ltb_spec. unfold SFltb. rewrite Hn. cbn.
  now destruct (Prim2SF y).
Qed.

Lemma ltb_leb (x y : float) : PrimFloat.ltb x y = true -> PrimFloat.leb x y = true.
Proof.
  rewrite FloatAxioms.ltb_spec, FloatAxioms.leb_spec. unfold SFltb, SFleb.
  destruct (SFcompare (Prim2SF x) (Prim2SF y)) as [[]|]; congruence.
Qed.

Lemma ltb_number (x y : float) : PrimFloat.ltb x y = true -> PrimFloat.eqb x x = true.
Proof.
  intros H. destruct (PrimFloat.eqb x x) eqn:E; [reflexivity|].
  destruct (not_number_ltb x y E). congruence.
Qed.



(** A square root is positive, a zero, or a NaN. *)
Lemma sqrt_sign (x : spec_float) :
  match SFsqrt prec emax x with
  | S754_infinity true | S754_finite true _ _ => False
  | _ => True
  end.
Proof.
  destruct x as [s|s| |s m e]; try destruct s; cbn; try exact I.
  unfold SFsqrt. destruct (SFsqrt_core_binary prec emax (Z.pos m) e) as [[mz ez] lz].
  unfold binary_round_aux.
  destruct (shr_fexp prec emax mz ez lz) as [mrs' e'].
  destruct (shr_fexp prec emax _ e' loc_Exact) as [mrs'' e''].
  destruct (shr_m mrs''); try exact I.
  destruct (e'' <=? emax - prec); exact I.
Qed.

Lemma sqrt_not_below_zero (z : float) : PrimFloat.ltb (PrimFloat.sqrt z) 0 = false.
Proof.
  rewrite FloatAxioms.ltb_spec, FloatAxioms.sqrt_spec. change (Prim2SF 0) with (S754_zero false).
  pose proof (sqrt_sign (Prim2SF z)) as H. unfold SF64sqrt.
  destruct (SFsqrt prec emax (Prim2SF z)) as [s|s| |s m e]; try destruct s;
    try contradiction; reflexivity.
Qed.

End Binary64.

(** * The example program *)

Module ExampleFacts.
Import Example.
Local Open Scope float_scope.





(** X16: [myFunction] reads [x[0]] and [x[1]]: a vector of fewer than two
    coordinates is read out of bounds.  Its value is never below 0, and it
    is 0 at [(6.54321, -1.23456)], which is therefore a minimum. *)
Theorem myFunction_minimum (x : list float) :
  myFunction x = (if (length x <? 2)%nat then OutOfBounds else Ok (objective x)) /\
  (objective x <? 0) = false /\
  myFunction [0x1.a2c3f3e0370cep+2; -0x1.3c0c1fc8f3238p+0] = Ok 0.
Proof.
  split; [|split; [|reflexivity]].
  - unfold objective. destruct x as [|x0 [|x1 x]]; reflexivity.
  - unfold objective. destruct x as [|x0 [|x1 x]]; try reflexivity.
    unfold myFunction. cbn [at_ bind]. apply sqrt_not_below_zero.
Qed.

(** More fuel does not change a run that returned. *)
Lemma exec_loop_fn_more (n n' : nat) (tol : float) (ic : Z) (s : NelderMead float)
    (p : Z * NelderMead float) :
  (n <= n')%nat -> exec_loop_fn n tol ic s = Ok p -> exec_loop_fn n' tol ic s = Ok p.
Proof.
  revert n' ic s. induction n as [|n IH]; intros n' ic s Hn; [discriminate|].
  destruct n' as [|n']; [lia|]. cbn [exec_loop_fn]. cbv zeta.
  destruct (_ <=? _)%Z; [|trivial].
  destruct (dlt _ tol); [trivial|]. apply IH. lia.
Qed.

Lemma exec_fn_more (n n' : nat) (start : list float) (tol scale : float)
    (s r : NelderMead float) :
  (n <= n')%nat -> exec_fn n start tol scale s = Ok r -> exec_fn n' start tol scale s = Ok r.
Proof.
  intros Hn. unfold exec_fn.
  destruct (exec_loop_fn n tol 0 (exec_begin_fn start scale s)) as [p| |] eqn:E;
    try discriminate.
  now rewrite (exec_loop_fn_more n n' _ _ _ p Hn E).
Qed.

Lemma ready_search : ready search.
Proof.
  split; [apply wf_setMaxIterations, wf_blank; lia|]. split; [cbn; lia|exact I].
Qed.

(** X17: In binary64 arithmetic the first run of [main] stops on the convergence
    test in iteration 55 after 110 evaluations, with a value below [2^-19];
    the second, with the tolerance [1e-12], in iteration 100 after 194
    evaluations, with a value below [2^-38] at a point within [2^-30] of
    [(6.54321, -1.23456)] in each coordinate.  Neither reaches the maximum
    of 100000 iterations. *)
Theorem main_runs (fuel : nat) :
  (200 < fuel)%nat ->
  exists r1 r2,
    main fuel = Ok (r1, r2) /\
    iterationCount r1 = 55%Z /\ r_evalCount r1 = 110%Z /\ (r_min r1 <? 0x1p-19) = true /\
    iterationCount r2 = 100%Z /\ r_evalCount r2 = 194%Z /\ (r_min r2 <? 0x1p-38) = true /\
    match minValues r2 with
    | [x0; x1] => (abs (x0 - 0x1.a2c3f3e0370cep+2) <? 0x1p-30) = true /\
                  (abs (x1 - -0x1.3c0c1fc8f3238p+0) <? 0x1p-30) = true
    | _ => False
    end.
Proof.
  intros Hfuel. unfold main.
  rewrite NelderMead_new_closed by lia. cbn [bind].
  change (setMaxIterations 100000 (blank 2 objective None)) with search.
  pose (st1 := match exec_fn 200 [1; 1] 0x1.0c6f7a0b5ed8dp-20 1 search with
               | Ok r => r
               | _ => search
               end).
  assert (H1 : exec_fn 200 [1; 1] 0x1.0c6f7a0b5ed8dp-20 1 search = Ok st1)
    by (vm_compute; reflexivity).
  pose (st2 := match exec_fn 200 [1; 1] 0x1.19799812dea11p-40 1 st1 with
               | Ok r => r
               | _ => search
               end).
  assert (H2 : exec_fn 200 [1; 1] 0x1.19799812dea11p-40 1 st1 = Ok st2)
    by (vm_compute; reflexivity).
  destruct (exec_fn_keeps_ready _ _ _ _ _ _ ready_search H1) as [Hr1 Hset1].
  assert (Hsize1 : size st1 = 2%Z) by (symmetry; apply Hset1).
  rewrite exec_closed; [|apply ready_search|unfold enough; cbn; lia|cbn; lia].
  rewrite (exec_fn_more 200 fuel _ _ _ _ _ ltac:(lia) H1). cbn [bind].
  rewrite exec_closed; [|exact Hr1|unfold enough; rewrite Hsize1; lia|rewrite Hsize1; cbn; lia].
  rewrite (exec_fn_more 200 fuel _ _ _ _ _ ltac:(lia) H2). cbn [bind].
  exists (getLastExecResults st1), (getLastExecResults st2).
  split; [reflexivity|].
  do 6 (split; [vm_compute; reflexivity|]). vm_compute. split; reflexivity.
Qed.

End ExampleFacts.

(** ** The reported value never exceeds the values of the initial simplex *)

Section Descending.
Context {D : Type} {ops : DoubleOps D}.
Implicit Types s : NelderMead D.
Variable g : list D -> D.
Hypothesis Hov : ordered_values g.

Local Abbreviation value y := (exists x, y = g x).

(** The object runs [g] without a constraint, its table is in step with
    the simplex, and [f[vs]] is not above [B]. *)
Local Abbreviation holds B s :=
  (ready s /\ synced s /\ evalFunc s = g /\ constrainFunc s = None /\
   dlt B (val (f s) (vs s)) = false).

Lemma value_trans (a b c : D) :
  value a -> value b -> value c ->
  dlt a b = true -> dlt b c = true -> dlt a c = true.
Proof. intros [x ->] [y ->] [z ->]. apply (ov_trans g Hov). Qed.

Lemma value_neg (a b c : D) :
  value a -> value b -> value c ->
  dlt a b = false -> dlt b c = false -> dlt a c = false.
Proof. intros [x ->] [y ->] [z ->]. apply (ov_neg g Hov). Qed.

Lemma value_table s (i : Z) :
  ready s -> synced s -> evalFunc s = g -> 0 <= i <= size s -> value (val (f s) i).
Proof.
  intros ([] & _) Hs Hg Hi. rewrite Hs, val_fmap by lia. rewrite Hg. now eexists.
Qed.

Lemma table_order s :
  ready s -> synced s -> evalFunc s = g -> strict_weak_order_on (f s) (size s).
Proof.
  intros Hr Hs Hg. split; unfold below.
  - intros i Hi. destruct (value_table s i Hr Hs Hg Hi) as [x ->]. apply (ov_irrefl g Hov).
  - intros i j k Hi Hj Hk. apply value_trans; now apply value_table.
  - intros i j k Hi Hj Hk. apply value_neg; now apply value_table.
Qed.

(** [doIndexes] leaves [vg] at a maximum and [vs] at a minimum. *)
Lemma doIndexes_fn_extremes s :
  ready s -> strict_weak_order_on (f s) (size s) ->
  (forall j, 0 <= j <= size s -> below (f s) (vg (doIndexes_fn s)) j = false) /\
  (forall j, 0 <= j <= size s -> below (f s) j (vs (doIndexes_fn s)) = false).
Proof.
  intros Hr [Hirr Htr Hneg].
  pose proof (vg_range s Hr) as Hvg. pose proof (vs_range s Hr) as Hvs.
  assert (HZ : Z.of_nat (Z.to_nat (size s + 1)) = size s + 1) by lia.
  pose proof (scan_extreme (below (f s)) (size s) Hirr Htr Hneg
                (Z.to_nat (size s + 1)) (vg s) Hvg ltac:(lia)) as (_ & _ & Hmax & _).
  pose proof (scan_extreme (fun i j => below (f s) j i) (size s) Hirr
                ltac:(intros i j k ? ? ? ? ?; now apply (Htr k j i))
                ltac:(intros i j k ? ? ? ? ?; now apply (Hneg k j i))
                (Z.to_nat (size s + 1)) (vs s) Hvs ltac:(lia)) as (_ & _ & Hmin & _).
  cbv zeta in Hmax, Hmin. rewrite HZ in Hmax, Hmin.
  unfold doIndexes_fn. cbv zeta. cbn [vg vs set_vh set_vs set_vg].
  unfold worst_best. rewrite worst_best_split. cbn [fst snd].
  split; intros j Hj; [apply Hmax|apply Hmin]; lia.
Qed.

Lemma accept_keeps (B fr : D) s :
  value B -> holds B s -> fr = g (vr s) ->
  below (f s) (vg s) (vh s) = false ->
  holds B (accept_reflection_fn fr s).
Proof.
  intros HB (Hr & Hs & Hg & Hc & HK) Hfr HM.
  pose proof (setup_accept_reflection_fn fr s) as (_ & Hg' & Hc' & _).
  split; [now apply ready_accept_reflection_fn|].
  split; [apply synced_accept_reflection_fn; [assumption|now rewrite Hg]|].
  split; [now rewrite <- Hg'|]. split; [now rewrite <- Hc'|].
  destruct ((fr <? val (f s) (vh s)) && (fr >=? val (f s) (vs s)))%D eqn:E;
    [|now rewrite accept_skipped].
  destruct (accept_taken fr s E) as (-> & -> & _).
  pose proof (vg_range s Hr) as Hvg. pose proof (vs_range s Hr) as Hvs.
  pose proof (vh_range s Hr) as Hvh.
  destruct (Z.eq_dec (vs s) (vg s)) as [Heq|Hne];
    [|rewrite val_insert_ne by lia; exact HK].
  rewrite Heq in *. rewrite val_insert_eq by (destruct Hr as ([] & _); lia).
  destruct (dlt B fr) eqn:E2; [|reflexivity].
  apply andb_true_iff in E as [E _].
  assert (Hv : value fr) by (exists (vr s); exact Hfr).
  pose proof (value_trans B fr _ HB Hv (value_table s (vh s) Hr Hs Hg Hvh) E2 E) as H1.
  pose proof (value_neg B _ _ HB (value_table s (vg s) Hr Hs Hg Hvg)
                (value_table s (vh s) Hr Hs Hg Hvh) HK HM) as H2.
  congruence.
Qed.

Lemma expansion_keeps (B fr : D) s :
  value B -> holds B s -> fr = g (vr s) -> holds B (expansion_fn fr s).
Proof.
  intros HB (Hr & Hs & Hg & Hc & HK) Hfr.
  pose proof (setup_expansion_fn fr s) as (Hsize & Hg' & Hc' & _).
  assert (Hr' : ready (expansion_fn fr s)) by now apply ready_expansion_fn.
  assert (Hs' : synced (expansion_fn fr s))
    by (apply synced_expansion_fn; [assumption|now rewrite Hg]).
  assert (Hg2 : evalFunc (expansion_fn fr s) = g) by now rewrite <- Hg'.
  split; [assumption|]. split; [assumption|]. split; [assumption|].
  split; [now rewrite <- Hc'|].
  destruct (fr <? val (f s) (vs s))%D eqn:E; [|now rewrite expansion_skipped].
  pose proof (vg_range s Hr) as Hvg. pose proof (vs_range s Hr) as Hvs.
  pose proof (value_table (expansion_fn fr s) (vg s) Hr' Hs' Hg2 ltac:(lia)) as Hy.
  destruct (expansion_taken fr s E) as (y & Hf & Hy' & -> & _).
  rewrite Hf in Hy |- *.
  rewrite val_insert_eq in Hy by (destruct Hr as ([] & _); lia).
  destruct (Z.eq_dec (vs s) (vg s)) as [Heq|Hne];
    [|rewrite val_insert_ne by lia; exact HK].
  rewrite Heq in *. rewrite val_insert_eq by (destruct Hr as ([] & _); lia).
  destruct (dlt B y) eqn:E2; [|reflexivity].
  assert (Hv : value fr) by (exists (vr s); exact Hfr).
  pose proof (value_table s (vg s) Hr Hs Hg Hvg) as Hw.
  assert (E3 : dlt B fr = true).
  { destruct Hy' as [<-|Hlt]; [assumption|]. now apply (value_trans B y fr). }
  pose proof (value_trans B fr _ HB Hv Hw E3 E). congruence.
Qed.

(** Without a constraint, the second pass of [shrink] over the rows at
    [vg] and [vh] writes back what is there. *)
Lemma v_reconstrain_none (from : site) (i : Z) s :
  constrainFunc s = None -> (Z.to_nat i < length (v s))%nat ->
  v (reconstrain_vertex_fn from i s) = v s.
Proof.
  intros Hc Hi. unfold reconstrain_vertex_fn, constrain. rewrite Hc. cbn [v set_f set_evalLog set_evalCount set_v].
  now apply insert_vertex_id.
Qed.

Lemma v_reconstrain_twice (e1 e2 : site) s :
  ready s -> constrainFunc s = None ->
  v (reconstrain_vertex_fn e2 (vh (reconstrain_vertex_fn e1 (vg s) s))
       (reconstrain_vertex_fn e1 (vg s) s)) = v s.
Proof.
  intros Hr Hc.
  pose proof (vg_range s Hr) as Hvg.
  pose proof Hr as ([_ Hlen _ _ _ _ _ _ _ _ _ _ _] & _).
  pose proof (ready_reconstrain_vertex_fn e1 (vg s) s Hr Hvg) as Hr2.
  pose proof (v_reconstrain_none e1 (vg s) s Hc ltac:(lia)) as H1.
  assert (Hc2 : constrainFunc (reconstrain_vertex_fn e1 (vg s) s) = None) by exact Hc.
  assert (Hsize2 : size (reconstrain_vertex_fn e1 (vg s) s) = size s) by reflexivity.
  pose proof (vh_range _ Hr2) as Hvh.
  set (s2 := reconstrain_vertex_fn e1 (vg s) s) in *. clearbody s2.
  rewrite v_reconstrain_none; [assumption|assumption|rewrite H1; lia].
Qed.

Lemma v_shrink_fn s :
  ready s -> constrainFunc s = None ->
  v (shrink_fn s) = shrink_rows (v s) (size s) (vs s).
Proof.
  intros Hr Hc. unfold shrink_fn. cbv zeta.
  rewrite v_reconstrain_twice; [reflexivity| |exact Hc].
  apply ready_doIndexes_fn, ready_evaluate_all_fn.
  apply (ready_shrink_rows (set_branchLog (Shrink :: branchLog s) s)).
  now apply ready_set_branchLog.
Qed.

Lemma vertex_shrink_rows (V : list (list D)) (N b : Z) :
  0 <= b <= N -> vertex (shrink_rows V N b) b = vertex V b.
Proof.
  intros Hb. unfold shrink_rows, vertex at 1. rewrite nth_tabulate by lia.
  now rewrite Z.eqb_refl.
Qed.

(** [shrink] leaves the vertex at [vs], and its value, alone. *)
Lemma shrink_keeps_best s :
  ready s -> synced s -> constrainFunc s = None ->
  val (f (shrink_fn s)) (vs s) = val (f s) (vs s).
Proof.
  intros Hr Hs Hc. pose proof (vs_range s Hr) as Hvs.
  pose proof (ready_shrink_fn s Hr) as ([_ Hlen _ _ _ _ _ _ _ _ _ _ _] & _).
  pose proof Hr as ([_ Hlen0 _ _ _ _ _ _ _ _ _ _ _] & _).
  destruct (setup_shrink_fn s) as (Hsize & Hg & _).
  rewrite (synced_shrink_fn s), Hs. rewrite <- Hsize in Hlen.
  rewrite !val_fmap by lia. rewrite <- Hg. f_equal.
  rewrite v_shrink_fn by assumption. now apply vertex_shrink_rows.
Qed.

Lemma contraction_keeps (B fr : D) s :
  value B -> holds B s -> no_worse (f (contraction_fn fr s)) (size s) B.
Proof.
  intros HB (Hr & Hs & Hg & Hc & HK).
  pose proof (vg_range s Hr) as Hvg. pose proof (vs_range s Hr) as Hvs.
  exists (vs s). split; [assumption|].
  destruct (fr >=? val (f s) (vh s))%D eqn:E; [|now rewrite contraction_skipped].
  pose proof (ready_contraction_fn fr s Hr) as Hr'.
  pose proof (synced_contraction_fn fr s Hs) as Hs'.
  destruct (setup_contraction_fn fr s) as (Hsize & Hg' & _).
  pose proof (value_table (contraction_fn fr s) (vg s) Hr' Hs' ltac:(congruence) ltac:(lia))
    as Hy.
  revert Hy. unfold contraction_fn. rewrite E. cbv zeta. cbn [doEvaluate].
  set (s1 := set_branchLog _ s).
  match goal with
  | |- context [if ?c then contract_outside_fn s1 else contract_inside_fn s1] =>
      set (s2 := if c then contract_outside_fn s1 else contract_inside_fn s1)
  end.
  assert (H2 : ready s2 /\ synced s2 /\ constrainFunc s2 = None /\
               f s2 = f s /\ vs s2 = vs s /\ vg s2 = vg s).
  { unfold s2. match goal with |- context [if ?c then _ else _] => destruct c end.
    - split; [apply ready_contract_outside_fn; now apply ready_set_branchLog|].
      repeat split; assumption.
    - split; [apply ready_contract_inside_fn; now apply ready_set_branchLog|].
      repeat split; assumption. }
  clearbody s2. clear s1.
  set (s3 := set_evalLog _ _).
  assert (H3 : ready s3 /\ synced s3 /\ constrainFunc s3 = None /\
               f s3 = f s /\ vs s3 = vs s /\ vg s3 = vg s).
  { destruct H2 as (Hr2 & Hs2 & Hc2 & Hf2 & Hvs2 & Hvg2).
    split; [|repeat split; assumption].
    apply (ready_doEvaluate ContractionEval (vc (set_vc (constrain (vc s2) s2) s2))
             (set_vc (constrain (vc s2) s2) s2)).
    now apply ready_constrain_vc. }
  set (fc := evalFunc _ _). clearbody s3 fc.
  destruct H3 as (Hr3 & Hs3 & Hc3 & Hf3 & Hvs3 & Hvg3).
  destruct (fc <? val (f s3) (vg s3))%D eqn:E2.
  - unfold replace_worst_fn. cbn [f set_f set_v]. rewrite Hf3, Hvg3 in *.
    rewrite val_insert_eq by (destruct Hr as ([] & _); lia). intros Hy.
    destruct (Z.eq_dec (vs s) (vg s)) as [Heq|Hne];
      [|rewrite val_insert_ne by lia; exact HK].
    rewrite Heq in *. rewrite val_insert_eq by (destruct Hr as ([] & _); lia).
    destruct (dlt B fc) eqn:E3; [|reflexivity].
    pose proof (value_trans B fc _ HB Hy (value_table s (vg s) Hr Hs Hg Hvg) E3 E2).
    congruence.
  - intros _. rewrite <- Hvs3, shrink_keeps_best by assumption. now rewrite Hf3, Hvs3.
Qed.

(** From the evaluation of the reflection point through the three [if]
    statements. *)
Lemma accepted_descends (B : D) s :
  value B -> holds B s -> below (f s) (vg s) (vh s) = false ->
  no_worse (f (accepted_fn s)) (size s) B.
Proof.
  intros HB (Hr & Hs & Hg & Hc & HK) HM. unfold accepted_fn. cbn [doEvaluate].
  set (s2 := set_evalLog _ _). set (fr := evalFunc s2 (vr s)).
  assert (H2 : holds B s2).
  { split; [exact (ready_doEvaluate ReflectionEval (vr s) s Hr)|].
    repeat split; assumption. }
  assert (Hfr : fr = g (vr s2)) by (unfold fr; rewrite <- Hg; reflexivity).
  assert (HM2 : below (f s2) (vg s2) (vh s2) = false) by exact HM.
  assert (Hsize : size s2 = size s) by reflexivity.
  clearbody s2 fr. rewrite <- Hsize.
  pose proof (accept_keeps B fr s2 HB H2 Hfr HM2) as H3.
  pose proof (expansion_keeps B fr _ HB H3
                ltac:(now rewrite vr_accept_reflection_fn)) as H4.
  destruct (setup_accept_reflection_fn fr s2) as (-> & _).
  destruct (setup_expansion_fn fr (accept_reflection_fn fr s2)) as (-> & _).
  now apply contraction_keeps.
Qed.

Lemma best_not_above (B : D) s :
  value B -> ready s -> synced s -> evalFunc s = g ->
  no_worse (f s) (size s) B ->
  below (f s) (vg (doIndexes_fn s)) (vh (doIndexes_fn s)) = false /\
  dlt B (val (f s) (vs (doIndexes_fn s))) = false.
Proof.
  intros HB Hr Hs Hg (j & Hj & HjB).
  destruct (doIndexes_fn_extremes s Hr (table_order s Hr Hs Hg)) as (Hmax & Hmin).
  pose proof (ready_doIndexes_fn s Hr) as Hrd.
  pose proof (vh_range _ Hrd) as Hvh. pose proof (vs_range _ Hrd) as Hvs.
  assert (Hsize : size (doIndexes_fn s) = size s) by reflexivity.
  rewrite Hsize in Hvh, Hvs.
  split; [now apply Hmax|].
  apply (value_neg B (val (f s) j)); try assumption; try now apply value_table.
  now apply Hmin.
Qed.

Lemma iteration_descends (B : D) s :
  value B -> ready s -> synced s -> evalFunc s = g -> constrainFunc s = None ->
  no_worse (f s) (size s) B -> no_worse (f (iteration_fn s)) (size s) B.
Proof.
  intros HB Hr Hs Hg Hc Hn.
  destruct (best_not_above B s HB Hr Hs Hg Hn) as (HM & HK).
  unfold iteration_fn.
  assert (Hsize : size (reflected_fn s) = size s) by reflexivity.
  rewrite <- Hsize. apply accepted_descends; [assumption| |exact HM].
  split; [now apply ready_reflected_fn|].
  split; [now apply (synced_frame s)|]. repeat split; assumption.
Qed.

(** A run reports a value that is not above [B] when some value of the
    initial simplex is not above [B]. *)
Lemma exec_fn_descends (n : nat) (start : list D) (tol scale : D) (B : D) s r :
  value B -> ready s -> evalFunc s = g -> constrainFunc s = None ->
  no_worse (f (exec_begin_fn start scale s)) (size s) B ->
  exec_fn n start tol scale s = Ok r ->
  dlt B (r_min (getLastExecResults r)) = false.
Proof.
  intros HB Hr Hg Hc Hn Hrun.
  destruct (exec_fn_end n start tol scale s r
              (fun s1 => synced s1 /\ evalFunc s1 = g /\ constrainFunc s1 = None /\
                         no_worse (f s1) (size s1) B) Hr Hrun)
    as (ic & s1 & -> & Hr1 & Hset & Hs1 & Hg1 & Hc1 & Hn1).
  - destruct (setup_exec_begin_fn start scale s) as (<- & <- & <- & _).
    split; [apply synced_exec_begin_fn|]. repeat split; assumption.
  - intros s2 Hr2 (Hs2 & Hg2 & Hc2 & Hn2).
    destruct (setup_iteration_fn s2) as (<- & <- & <- & _).
    split; [now apply synced_iteration_fn|]. split; [assumption|].
    split; [assumption|]. now apply iteration_descends.
  - destruct (best_not_above B s1 HB Hr1 Hs1 Hg1 Hn1) as (_ & HK).
    pose proof (vs_range _ (ready_doIndexes_fn s1 Hr1)) as Hvs.
    assert (Hsize : size (doIndexes_fn s1) = size s1) by reflexivity.
    rewrite Hsize in Hvs. pose proof Hr1 as ([_ Hlen _ _ _ _ _ _ _ _ _ _ _] & _).
    rewrite Hs1, val_fmap in HK by lia.
    unfold getLastExecResults, exec_end_fn. cbv zeta.
    cbn [doEvaluate lastExecResults set_lastExecResults r_min]. exact HK.
Qed.

End Descending.

Section Descent.
Context {D : Type} {ops : DoubleOps D}.
Implicit Types s : NelderMead D.

(** X18: Without a constraint callback, and with an objective on whose values
    [<] is a strict weak order (it never returns a NaN), the reported
    [min] is not above the objective at the start point, nor above it at
    any other vertex of the initial simplex. *)
Theorem result_not_above_start (fuel : nat) (start : list D) (tol scale : D) s :
  wf s -> 1 <= size s -> constrainFunc s = None ->
  (Z.to_nat (size s) <= length start)%nat -> enough fuel s ->
  ordered_values (evalFunc s) ->
  forall r, exec fuel start tol scale s = Ok r ->
    (evalFunc s (take (Z.to_nat (size s)) start) <? r_min (getLastExecResults r))%D = false /\
    forall i, 0 <= i <= size s ->
      (evalFunc s (vertex (simplex_of (size s) start (pn_of (size s) scale)
                             (qn_of (size s) scale)) i)
       <? r_min (getLastExecResults r))%D = false.
Proof.
  intros Hwf H1 Hc Hstart Hfuel Hov r.
  assert (Hlp : length_preserving s) by (unfold length_preserving; now rewrite Hc).
  assert (Hr : ready s) by (split; [|split]; assumption).
  rewrite exec_closed by assumption. intros Hrun.
  assert (Hall : forall i, 0 <= i <= size s ->
            (evalFunc s (vertex (simplex_of (size s) start (pn_of (size s) scale)
                                   (qn_of (size s) scale)) i)
             <? r_min (getLastExecResults r))%D = false).
  { intros i Hi.
    apply (exec_fn_descends (evalFunc s) Hov fuel start tol scale _ s r);
      [now eexists|assumption|reflexivity|assumption| |assumption].
    exists i. split; [assumption|].
    unfold exec_begin_fn. cbv zeta.
    change (constrainFunc (doInitialize_fn start scale s)) with (constrainFunc s).
    rewrite Hc. cbn [f evaluate_all_fn set_f].
    change (v (doInitialize_fn start scale s))
      with (simplex_of (size s) start (pn_of (size s) scale) (qn_of (size s) scale)).
    change (evalFunc (doInitialize_fn start scale s)) with (evalFunc s).
    rewrite val_fmap by (unfold simplex_of; rewrite length_tabulate; lia).
    apply (ov_irrefl _ Hov). }
  split; [|exact Hall].
  specialize (Hall 0 ltac:(lia)). rewrite vertex_simplex_of in Hall by lia.
  change (0 =? 0) with true in Hall. cbv iota in Hall.
  rewrite tabulate_val_take in Hall by lia. exact Hall.
Qed.

End Descent.

(** ** Objectives on doubles that never return a NaN *)

Section Numbers.

Local Ltac order_cases :=
  repeat match goal with
         | H : context [PosDef.Pos.compare_cont Eq ?a ?b] |- _ =>
             change (PosDef.Pos.compare_cont Eq a b) with (Pos.compare a b) in H
         | |- context [PosDef.Pos.compare_cont Eq ?a ?b] =>
             change (PosDef.Pos.compare_cont Eq a b) with (Pos.compare a b)
         end;
  repeat match goal with
         | H : context [Z.compare ?a ?b] |- _ => destruct (Z.compare_spec a b)
         | |- context [Z.compare ?a ?b] => destruct (Z.compare_spec a b)
         | H : context [Pos.compare ?a ?b] |- _ => destruct (Pos.compare_spec a b)
         | |- context [Pos.compare ?a ?b] => destruct (Pos.compare_spec a b)
         end.

Lemma SFltb_trans (x y z : spec_float) :
  SFltb x y = true -> SFltb y z = true -> SFltb x z = true.
Proof.
  unfold SFltb.
  destruct x as [s1|s1| |s1 m1 e1], y as [s2|s2| |s2 m2 e2], z as [s3|s3| |s3 m3 e3];
    try destruct s1; try destruct s2; try destruct s3; cbn; try congruence;
    intros H1 H2;
    order_cases; subst; cbn in *; try congruence; try lia.
Qed.

Lemma SFltb_negtrans (x y z : spec_float) :
  x <> S754_nan -> y <> S754_nan -> z <> S754_nan ->
  SFltb x y = false -> SFltb y z = false -> SFltb x z = false.
Proof.
  unfold SFltb.
  destruct x as [s1|s1| |s1 m1 e1], y as [s2|s2| |s2 m2 e2], z as [s3|s3| |s3 m3 e3];
    try destruct s1; try destruct s2; try destruct s3; cbn; try congruence;
    intros _ _ _ H1 H2;
    order_cases; subst; cbn in *; try congruence; try lia.
Qed.

Lemma ltb_irrefl (x : float) : PrimFloat.ltb x x = false.
Proof.
  rewrite FloatAxioms.ltb_spec. unfold SFltb. rewrite SFcompare_refl.
  now destruct (Prim2SF x).
Qed.

(** On the values of an objective that never returns a NaN [<] is a strict
    weak order. *)
Lemma numbers_ordered (g : list float -> float) :
  (forall x, PrimFloat.eqb (g x) (g x) = true) -> ordered_values g.
Proof.
  intros Hg. split.
  - intros x. apply ltb_irrefl.
  - intros x y z. cbn [dlt binary64]. rewrite !FloatAxioms.ltb_spec. apply SFltb_trans.
  - intros x y z. cbn [dlt binary64]. rewrite !FloatAxioms.ltb_spec.
    apply SFltb_negtrans; apply number_spec, Hg.
Qed.

Lemma ramp_number (x : list float) :
  PrimFloat.eqb (Examples.ramp x) (Examples.ramp x) = true.
Proof.
  unfold Examples.ramp. destruct x as [|a [|b x]]; try reflexivity.
  destruct (PrimFloat.ltb 0 a) eqn:E; [|reflexivity].
  destruct (PrimFloat.eqb a a) eqn:E2; [reflexivity|].
  destruct (not_number_ltb a 0%float E2) as [_ H]. congruence.
Qed.

End Numbers.

(** * The theorems on concrete objects *)

Module Checks.
Import Examples MoreExamples.

Lemma exec_returns {D : Type} {ops : DoubleOps D} (fuel : nat) (start : list D)
    (tol scale : D) (s : NelderMead D) :
  ready s -> enough fuel s -> (Z.to_nat (size s) <= length start)%nat ->
  configMaxIterations s < 2 ^ 32 - 1 -> (Z.to_nat (configMaxIterations s) < fuel)%nat ->
  exists r, exec fuel start tol scale s = Ok r.
Proof.
  intros Hr Hfuel Hstart Hmax Hn. rewrite exec_closed by assumption.
  apply exec_fn_returns; [apply Hr|assumption|assumption].
Defined.

Lemma constructor_builds_witness :
  (0 <= 2 < 2 ^ 32 - 1 -> (Z.to_nat (2 + 1) < 5)%nat ->
   exists s,
     NelderMead_new 5 2 quadratic None = Ok s /\ wf s /\
     size s = 2 /\ evalFunc s = quadratic /\ constrainFunc s = None /\
     configMaxIterations s = 1000 /\
     configReflectionCoefficient s = dof 1 /\
     configContractionCoefficient s = (dof 1 / dof 2)%D /\
     configExpansionCoefficient s = dof 2 /\
     v s = replicate (Z.to_nat (2 + 1)) (replicate (Z.to_nat 2) (dof 0)) /\
     f s = replicate (Z.to_nat (2 + 1)) (dof 0) /\
     vr s = replicate (Z.to_nat 2) (dof 0) /\
     ve s = replicate (Z.to_nat 2) (dof 0) /\
     vc s = replicate (Z.to_nat 2) (dof 0) /\
     vm s = replicate (Z.to_nat 2) (dof 0) /\
     evalCount s = 0 /\ vs s = 0 /\ vh s = 0 /\ vg s = 0) /\
  ((0 < 5)%nat -> NelderMead_new 5 (2 ^ 32 - 1) quadratic None = OutOfBounds).
Proof. apply (constructor_builds 5 2 quadratic None). Defined.

Lemma initial_simplex_witness :
  exists s',
    exec_begin 5 [0%float] 1%float line_search = Ok s' /\
    same_setup line_search s' /\
    getLastExecResults s' = getLastExecResults line_search /\
    length (v s') = Z.to_nat (size line_search + 1) /\
    vertex (v s') 0 = constrain (take (Z.to_nat (size line_search)) [0%float]) line_search /\
    (forall i, 1 <= i <= size line_search ->
       vertex (v s') i
       = constrain (tabulate (size line_search) (fun j =>
           ((if (i - 1 =? j)%Z then pn_of (size line_search) 1%float
             else qn_of (size line_search) 1%float)
            + val [0%float] j)%D)) line_search) /\
    f s' = evalFunc line_search <$> v s' /\
    evalCount s' = size line_search + 1 /\
    evalLog s' = replicate (Z.to_nat (size line_search + 1)) InitialEval /\
    branchLog s' = [] /\
    vs s' = 0 /\ vh s' = 0 /\ vg s' = 0.
Proof.
  apply (initial_simplex 5 [0%float] 1%float line_search).
  - apply wf_blank. lia.
  - simpl. lia.
  - exact I.
  - simpl. lia.
  - unfold enough. simpl. lia.
Defined.

Lemma exec_short_start_witness :
  exec 5 [] 1%float 1%float line_search = OutOfBounds.
Proof.
  apply (exec_short_start 5 [] 1%float 1%float line_search).
  - apply wf_blank. lia.
  - simpl. lia.
  - unfold enough. simpl. lia.
Defined.

Lemma exec_dimension_zero_witness :
  (1 <= configMaxIterations pointless ->
   exec 5 [] 1%float 1%float pointless = OutOfBounds) /\
  (configMaxIterations pointless = 0 ->
   exists r,
     exec 5 [] 1%float 1%float pointless = Ok r /\
     iterationCount (getLastExecResults r) = 1 /\
     r_evalCount (getLastExecResults r) = 2 /\
     minValues (getLastExecResults r) = [] /\
     r_min (getLastExecResults r) = evalFunc pointless []).
Proof.
  apply (exec_dimension_zero 5 [] 1%float 1%float pointless).
  - apply wf_blank. lia.
  - reflexivity.
  - exact I.
  - lia.
Defined.

Lemma iteration_count_meaning_witness :
  exists r,
    exec 1001 [0%float] 1%float 1%float line_search = Ok r /\
    ((1 <= iterationCount (getLastExecResults r) <= configMaxIterations line_search /\
      (spread (f r) (size r) <? 1%float)%D = true /\
      Z.of_nat (times Reflection (branchLog r)) = iterationCount (getLastExecResults r))
     \/ (iterationCount (getLastExecResults r) = configMaxIterations line_search + 1 /\
         Z.of_nat (times Reflection (branchLog r)) = configMaxIterations line_search /\
         (configMaxIterations line_search = 0
          \/ (spread (f r) (size r) <? 1%float)%D = false))).
Proof.
  destruct (exec_returns 1001 [0%float] 1%float 1%float line_search) as [r Hrun].
  - exact Runs.ready_line_search.
  - unfold enough. simpl. lia.
  - simpl. lia.
  - simpl. lia.
  - simpl. lia.
  - exists r. split; [exact Hrun|].
    apply (iteration_count_meaning 1001 [0%float] 1%float 1%float line_search).
    + apply wf_blank. lia.
    + simpl. lia.
    + exact I.
    + simpl. lia.
    + unfold enough. simpl. lia.
    + simpl. lia.
    + exact Hrun.
Defined.

Lemma unbounded_run_witness :
  exec 5 [0%float] 0%float 1%float (setMaxIterations (2 ^ 32 - 1) line_search) = OutOfFuel.
Proof.
  apply (unbounded_run 5 [0%float] 0%float 1%float
           (setMaxIterations (2 ^ 32 - 1) line_search)).
  - apply wf_setMaxIterations, wf_blank. lia.
  - simpl. lia.
  - exact I.
  - simpl. lia.
  - unfold enough. simpl. lia.
  - reflexivity.
  - exact sqrt_not_below_zero.
Defined.

Lemma result_is_best_vertex_witness :
  exists r,
    exec 1001 [0%float] 1%float 1%float line_search = Ok r /\
    0 <= vs r <= size line_search /\
    minValues (getLastExecResults r) = vertex (v r) (vs r) /\
    length (minValues (getLastExecResults r)) = Z.to_nat (size line_search) /\
    r_min (getLastExecResults r)
    = evalFunc line_search (minValues (getLastExecResults r)) /\
    f r = evalFunc line_search <$> v r /\
    (strict_weak_order_on (f r) (size line_search) ->
     forall i, 0 <= i <= size line_search ->
       (evalFunc line_search (vertex (v r) i) <? r_min (getLastExecResults r))%D = false).
Proof.
  destruct (exec_returns 1001 [0%float] 1%float 1%float line_search) as [r Hrun].
  - exact Runs.ready_line_search.
  - unfold enough. simpl. lia.
  - simpl. lia.
  - simpl. lia.
  - simpl. lia.
  - exists r. split; [exact Hrun|].
    apply (result_is_best_vertex 1001 [0%float] 1%float 1%float line_search).
    + apply wf_blank. lia.
    + simpl. lia.
    + exact I.
    + simpl. lia.
    + unfold enough. simpl. lia.
    + exact Hrun.
Defined.

Lemma ready_corner_search : ready (blank 2 cornerQ (Some clampQ)).
Proof.
  split; [apply wf_blank; lia|]. split; [simpl; lia|].
  intros x. unfold clampQ. apply length_map.
Defined.

Lemma result_in_box_witness :
  exists r,
    exec 1001 [0%Q; 0%Q] 1%Q 1%Q (blank 2 cornerQ (Some clampQ)) = Ok r /\
    Forall (inside (-1)%Q 1%Q) (minValues (getLastExecResults r)).
Proof.
  destruct (exec_returns 1001 [0%Q; 0%Q] 1%Q 1%Q (blank 2 cornerQ (Some clampQ)))
    as [r Hrun].
  - exact ready_corner_search.
  - unfold enough. simpl. lia.
  - simpl. lia.
  - simpl. lia.
  - simpl. lia.
  - exists r. split; [exact Hrun|].
    apply (result_in_box (-1)%Q 1%Q clampQ 1001 [0%Q; 0%Q] 1%Q 1%Q
             (blank 2 cornerQ (Some clampQ))).
    + apply wf_blank. lia.
    + simpl. lia.
    + simpl. lia.
    + unfold enough. simpl. lia.
    + reflexivity.
    + intros x. unfold clampQ. apply length_map.
    + exact Runs.clampQ_inside.
    + exact Runs.halving_inside_Q.
    + exact Hrun.
Defined.


Lemma wf_ranked : wf ranked.
Proof. constructor; cbn; try lia; try reflexivity. repeat constructor. Qed.

Lemma one_branch_witness :
  exists s' l,
    branches 5 1.5%float ranked = Ok s' /\ branchLog s' = l ++ branchLog ranked /\
    ((l = [AcceptReflection] /\
      (1.5%float <? val (f ranked) (vh ranked))%D = true /\
      (1.5%float >=? val (f ranked) (vs ranked))%D = true)
     \/ (l = [Expansion] /\ (1.5%float <? val (f ranked) (vs ranked))%D = true)
     \/ ((l = [Contraction] \/ l = [Shrink; Contraction]) /\
         (1.5%float >=? val (f ranked) (vh ranked))%D = true)).
Proof.
  apply (one_branch 5 1.5%float ranked).
  - exact wf_ranked.
  - simpl. lia.
  - exact I.
  - unfold enough. simpl. lia.
  - simpl. lia.
  - simpl. lia.
  - reflexivity.
  - reflexivity.
  - vm_compute. discriminate.
Defined.

Lemma tie_runs_two_branches_witness :
  exists s' c,
    branches 5 (-1)%float line_search = Ok s' /\
    branchLog s' = c ++ Expansion :: branchLog line_search /\
    (c = [Contraction] \/ c = [Shrink; Contraction]).
Proof.
  apply (tie_runs_two_branches 5 (-1)%float line_search).
  - apply wf_blank. lia.
  - simpl. lia.
  - exact I.
  - unfold enough. simpl. lia.
  - reflexivity.
  - reflexivity.
  - reflexivity.
  - reflexivity.
  - reflexivity.
  - intros y. apply ltb_leb.
Defined.

Lemma callbacks_at_dimension_witness :
  exec 1001 [0%float] 1%float 1%float (with_callbacks quadratic_or_one None line_search)
  = outcome_map (with_callbacks quadratic_or_one None)
      (exec 1001 [0%float] 1%float 1%float line_search).
Proof.
  apply (callbacks_at_dimension quadratic_or_one None 1001 [0%float] 1%float 1%float
           line_search).
  - apply wf_blank. lia.
  - simpl. lia.
  - exact I.
  - simpl. lia.
  - unfold enough. simpl. lia.
  - split; [|exact I]. intros x Hx. destruct x as [|a [|b x]]; try discriminate.
    reflexivity.
  - exact I.
Defined.

Lemma main_runs_witness :
  exists r1 r2,
    Example.main 201 = Ok (r1, r2) /\
    iterationCount r1 = 55 /\ r_evalCount r1 = 110 /\
    PrimFloat.ltb (r_min r1) 0x1p-19 = true /\
    iterationCount r2 = 100 /\ r_evalCount r2 = 194 /\
    PrimFloat.ltb (r_min r2) 0x1p-38 = true /\
    match minValues r2 with
    | [x0; x1] =>
        PrimFloat.ltb (PrimFloat.abs (PrimFloat.sub x0 0x1.a2c3f3e0370cep+2)) 0x1p-30 = true /\
        PrimFloat.ltb (PrimFloat.abs (PrimFloat.sub x1 (-0x1.3c0c1fc8f3238p+0))) 0x1p-30
        = true
    | _ => False
    end.
Proof. apply (ExampleFacts.main_runs 201). lia. Defined.

Lemma result_not_above_start_witness :
  exists r,
    exec 1001 [1%float] 1%float 1%float ramp_search = Ok r /\
    (evalFunc ramp_search (take (Z.to_nat (size ramp_search)) [1%float])
     <? r_min (getLastExecResults r))%D = false /\
    forall i, 0 <= i <= size ramp_search ->
      (evalFunc ramp_search
         (vertex (simplex_of (size ramp_search) [1%float]
                    (pn_of (size ramp_search) 1%float)
                    (qn_of (size ramp_search) 1%float)) i)
       <? r_min (getLastExecResults r))%D = false.
Proof.
  destruct (exec_returns 1001 [1%float] 1%float 1%float ramp_search) as [r Hrun].
  - split; [apply wf_blank; lia|]. split; [simpl; lia|exact I].
  - unfold enough. simpl. lia.
  - simpl. lia.
  - simpl. lia.
  - simpl. lia.
  - exists r. split; [exact Hrun|].
    apply (result_not_above_start 1001 [1%float] 1%float 1%float ramp_search).
    + apply wf_blank. lia.
    + simpl. lia.
    + reflexivity.
    + simpl. lia.
    + unfold enough. simpl. lia.
    + apply numbers_ordered. exact ramp_number.
    + exact Hrun.
Defined.

End Checks.
